(** * Round-based orchestration of the hetero federated protocols

A shallow embedding of the orchestration code of
- [federatedml/ensemble/boosting/boosting_core/hetero_boosting.py],
- [federatedml/ftl/hetero_ftl/hetero_ftl_guest.py],
- [federatedml/unsupervise/kmeans/hetero_kmeans/hetero_kmeans_arbiter.py],
- [federatedml/unsupervise/kmeans/hetero_kmeans/hetero_kmeans_client.py].

Every Python method becomes a computation in a state-and-exception
monad over the object it is a method of.  Attributes assigned before an
exception stay assigned, as in Python, so a computation returns its
final state in both outcomes.  Collaborators that are not part of these
four files (the booster family, the label checkers, the local FTL
model, the transfer variables, ...) are fields of an interface class;
each of them may raise and may change only its own part of the state. *)

From Stdlib Require Import List Bool Arith ZArith QArith Lia String Ascii.
From Stdlib Require PrimFloat.
Import ListNotations.

Close Scope Q_scope.
Open Scope nat_scope.
Set Implicit Arguments.

(** ** Python-level notions shared by the three protocols *)

Module Py.

Inductive Exn : Type :=
| NotImplementedError (msg : string)
| KeyError
| TypeError
| ValueError
| AttributeError
| NameError
| ZeroDivisionError
| IndexError
| Exception (msg : string)
| OutOfFuel.
(* [OutOfFuel] is not a Python exception: a [while] loop of the model
   was given fewer steps than it takes. *)

Inductive Result (A : Type) : Type :=
| Ok (a : A)
| Raise (e : Exn).
Arguments Ok {A} a.
Arguments Raise {A} e.

(** A method body: runs on the object state [S], returns or raises, and
    leaves the state it reached. *)
Definition M (S A : Type) : Type := S -> Result A * S.

Definition ret {S A} (a : A) : M S A := fun s => (Ok a, s).

Definition raise {S A} (e : Exn) : M S A := fun s => (Raise e, s).

Definition bind {S A B} (c : M S A) (k : A -> M S B) : M S B :=
  fun s =>
    match c s with
    | (Ok a, s1) => k a s1
    | (Raise e, s1) => (Raise e, s1)
    end.

Definition gets {S A} (f : S -> A) : M S A := fun s => (Ok (f s), s).

Definition modify {S} (f : S -> S) : M S unit := fun s => (Ok tt, f s).

(** Lifting of a pure fallible value. *)
Definition lift {S A} (r : Result A) : M S A := fun s => (r, s).

(** What one pass through a loop body asks of the loop. *)
Inductive Ctl : Type := Next | Break.

(** [for x in xs: body(x)], with [break]. *)
Fixpoint for_in {S X} (xs : list X) (body : X -> M S Ctl) : M S unit :=
  match xs with
  | [] => ret tt
  | x :: rest =>
      bind (body x) (fun c =>
        match c with
        | Next => for_in rest body
        | Break => ret tt
        end)
  end.

(** A loop body that never asks to leave the loop. *)
Definition never_breaks {S X} (body : X -> M S Ctl) : Prop :=
  forall x s s', body x s <> (Ok Break, s').

(** [range(n)] *)
Definition range (n : nat) : list nat := seq 0 n.

(** [str.lower()] on ASCII text. *)
Definition lower_ascii (c : ascii) : ascii :=
  let n := nat_of_ascii c in
  if (65 <=? n) && (n <=? 90) then ascii_of_nat (n + 32) else c.

Fixpoint lower (s : string) : string :=
  match s with
  | EmptyString => EmptyString
  | String c s' => String (lower_ascii c) (lower s')
  end.

(** A distributed table, as the ordered list of its (sample key, value)
    pairs. *)
Definition DTable (V : Type) : Type := list (nat * V).

Definition mapValues {V W} (f : V -> W) (t : DTable V) : DTable W :=
  map (fun kv => (fst kv, f (snd kv))) t.

(** [mapValues] with a function that may raise. *)
Fixpoint mapValues_r {V W} (f : V -> Result W) (t : DTable V)
  : Result (DTable W) :=
  match t with
  | [] => Ok []
  | (k, v) :: rest =>
      match f v with
      | Raise e => Raise e
      | Ok w =>
          match mapValues_r f rest with
          | Raise e => Raise e
          | Ok rest' => Ok ((k, w) :: rest')
          end
      end
  end.

End Py.

Import Py.

Declare Scope py_scope.
Delimit Scope py_scope with py.
Notation "x <- c ;; k" := (bind c (fun x => k))
  (at level 61, c at next level, right associativity) : py_scope.
Notation "c ;; k" := (bind c (fun _ => k))
  (at level 61, right associativity) : py_scope.
Notation "' pat <- c ;; k" := (bind c (fun x => match x with pat => k end))
  (at level 61, pat pattern, c at next level, right associativity) : py_scope.
Open Scope py_scope.

(** ** Hetero boosting: [hetero_boosting.py] *)

Module HeteroBoosting.

(** *** Class labels, as Python values *)

Inductive Label : Type :=
| LInt (z : Z)
| LFloat (q : Q)
| LStr (s : string).

Definition isinstance_int (c : Label) : bool :=
  match c with
  | LInt _ => true
  | _ => false
  end.

Definition num (c : Label) : option Q :=
  match c with
  | LInt z => Some (inject_Z z)
  | LFloat q => Some q
  | LStr _ => None
  end.

(** [a <= b]; ordering a string against a number raises. *)
Definition py_le (a b : Label) : Result bool :=
  match a, b with
  | LStr s, LStr t => Ok (String.leb s t)
  | _, _ =>
      match num a, num b with
      | Some x, Some y => Ok (Qle_bool x y)
      | _, _ => Raise TypeError
      end
  end.

(** [a < b] *)
Definition py_lt (a b : Label) : Result bool :=
  match a, b with
  | LStr s, LStr t => Ok (String.ltb s t)
  | _, _ =>
      match num a, num b with
      | Some x, Some y => Ok (negb (Qle_bool y x))
      | _, _ => Raise TypeError
      end
  end.

(** [a == b], the equality a [dict] uses on its keys. *)
Definition py_eq (a b : Label) : bool :=
  match a, b with
  | LStr s, LStr t => String.eqb s t
  | _, _ =>
      match num a, num b with
      | Some x, Some y => Qeq_bool x y
      | _, _ => false
      end
  end.

(** [0 <= _class < n and isinstance(_class, int)] *)
Definition in_range_int (_class : Label) (n : nat) : Result bool :=
  match py_le (LInt 0) _class with
  | Raise e => Raise e
  | Ok false => Ok false
  | Ok true =>
      match py_lt _class (LInt (Z.of_nat n)) with
      | Raise e => Raise e
      | Ok false => Ok false
      | Ok true => Ok (isinstance_int _class)
      end
  end.

(** The loop of lines 75-83 over the classes still to visit, [n] being
    [len(classes_)]: [continue] on a hit, [break] on a miss, and the bare
    [except] clears the flag and goes on. *)
Fixpoint range_from_zero_loop (cs : list Label) (n : nat)
         (range_from_zero : bool) : bool :=
  match cs with
  | [] => range_from_zero
  | _class :: rest =>
      match in_range_int _class n with
      | Ok true => range_from_zero_loop rest n range_from_zero
      | Ok false => false
      | Raise _ => range_from_zero_loop rest n false
      end
  end.

(** [sorted(classes_)]: a stable sort that only asks [<]. *)
Fixpoint insort (x : Label) (l : list Label) : Result (list Label) :=
  match l with
  | [] => Ok [x]
  | y :: l' =>
      match py_lt y x with
      | Raise e => Raise e
      | Ok false => Ok (x :: y :: l')
      | Ok true =>
          match insort x l' with
          | Raise e => Raise e
          | Ok r => Ok (y :: r)
          end
      end
  end.

Fixpoint sorted (l : list Label) : Result (list Label) :=
  match l with
  | [] => Ok []
  | x :: l' =>
      match sorted l' with
      | Raise e => Raise e
      | Ok s => insort x s
      end
  end.

(** [dict(zip(keys, range(n)))]: an insertion-ordered association list
    in which a repeated key keeps its place and takes the later value. *)
Definition Dict : Type := list (Label * nat).

Fixpoint dict_set (d : Dict) (k : Label) (v : nat) : Dict :=
  match d with
  | [] => [(k, v)]
  | (k', v') :: d' =>
      if py_eq k' k then (k', v) :: d' else (k', v') :: dict_set d' k v
  end.

Definition dict (pairs : list (Label * nat)) : Dict :=
  fold_left (fun d kv => dict_set d (fst kv) (snd kv)) pairs [].

Definition zip {A B} (a : list A) (b : list B) : list (A * B) := combine a b.

(** [d[k]] *)
Fixpoint getitem (d : Dict) (k : Label) : Result nat :=
  match d with
  | [] => Raise KeyError
  | (k', v) :: d' => if py_eq k' k then Ok v else getitem d' k
  end.

(** *** The object *)

Inductive TaskType : Type := CLASSIFICATION | REGRESSION.

Inductive Encrypter : Type := PaillierEncrypt | IterativeAffineEncrypt.

(** The types the collaborators work on, and [Ctx], the part of the
    object only they write (the loss function, the validation strategy,
    the state of the stop condition, the fitted trees, ...). *)
Class Types : Type := {
  Instance_ : Type;
  DataBin : Type;
  ScoreRow : Type;
  Weights : Type;
  Loss : Type;
  Meta : Type;
  Param : Type;
  Booster : Type;
  PredictResult : Type;
  Ctx : Type
}.

(** Calls that leave the orchestrator: what is handed to a transfer
    variable, and the calls of the two abstract booster operations. *)
Inductive Event `{Types} : Type :=
| RemoteBoosterDim (booster_dim : nat)
| RemoteStopFlag (stop_flag : bool) (num_round : nat)
| GetBoosterDim
| GetStopFlag (num_round : nat)
| FitABooster (epoch_idx class_idx : nat)
| LoadBooster (pos : nat) (model_param : Param) (epoch_idx booster_idx : nat).

Record Self `{Types} : Type := mkSelf {
  task_type : TaskType;
  boosting_round : nat;
  encrypt_method : string;
  key_length : nat;
  data_bin : DataBin;
  y : DTable Label;
  classes_ : list Label;
  num_classes : nat;
  booster_dim : nat;
  y_hat : DTable ScoreRow;
  init_score : ScoreRow;
  predict_y_hat : DTable ScoreRow;
  encrypter : option Encrypter;
  booster_meta : Meta;
  boosting_model_list : list Param;
  history_loss : list Loss;
  log : list Event;
  ctx : Ctx
}.

Section Setters.

Context `{Types}.

Definition set_data_bin v (s : Self) : Self :=
  mkSelf (task_type s) (boosting_round s) (encrypt_method s) (key_length s)
    v (y s) (classes_ s) (num_classes s) (booster_dim s) (y_hat s)
    (init_score s) (predict_y_hat s) (encrypter s) (booster_meta s)
    (boosting_model_list s) (history_loss s) (log s) (ctx s).

Definition set_y v (s : Self) : Self :=
  mkSelf (task_type s) (boosting_round s) (encrypt_method s) (key_length s)
    (data_bin s) v (classes_ s) (num_classes s) (booster_dim s) (y_hat s)
    (init_score s) (predict_y_hat s) (encrypter s) (booster_meta s)
    (boosting_model_list s) (history_loss s) (log s) (ctx s).

Definition set_classes_ v (s : Self) : Self :=
  mkSelf (task_type s) (boosting_round s) (encrypt_method s) (key_length s)
    (data_bin s) (y s) v (num_classes s) (booster_dim s) (y_hat s)
    (init_score s) (predict_y_hat s) (encrypter s) (booster_meta s)
    (boosting_model_list s) (history_loss s) (log s) (ctx s).

Definition set_num_classes v (s : Self) : Self :=
  mkSelf (task_type s) (boosting_round s) (encrypt_method s) (key_length s)
    (data_bin s) (y s) (classes_ s) v (booster_dim s) (y_hat s)
    (init_score s) (predict_y_hat s) (encrypter s) (booster_meta s)
    (boosting_model_list s) (history_loss s) (log s) (ctx s).

Definition set_booster_dim v (s : Self) : Self :=
  mkSelf (task_type s) (boosting_round s) (encrypt_method s) (key_length s)
    (data_bin s) (y s) (classes_ s) (num_classes s) v (y_hat s)
    (init_score s) (predict_y_hat s) (encrypter s) (booster_meta s)
    (boosting_model_list s) (history_loss s) (log s) (ctx s).

Definition set_y_hat v (s : Self) : Self :=
  mkSelf (task_type s) (boosting_round s) (encrypt_method s) (key_length s)
    (data_bin s) (y s) (classes_ s) (num_classes s) (booster_dim s) v
    (init_score s) (predict_y_hat s) (encrypter s) (booster_meta s)
    (boosting_model_list s) (history_loss s) (log s) (ctx s).

Definition set_init_score v (s : Self) : Self :=
  mkSelf (task_type s) (boosting_round s) (encrypt_method s) (key_length s)
    (data_bin s) (y s) (classes_ s) (num_classes s) (booster_dim s) (y_hat s)
    v (predict_y_hat s) (encrypter s) (booster_meta s)
    (boosting_model_list s) (history_loss s) (log s) (ctx s).

Definition set_predict_y_hat v (s : Self) : Self :=
  mkSelf (task_type s) (boosting_round s) (encrypt_method s) (key_length s)
    (data_bin s) (y s) (classes_ s) (num_classes s) (booster_dim s) (y_hat s)
    (init_score s) v (encrypter s) (booster_meta s)
    (boosting_model_list s) (history_loss s) (log s) (ctx s).

Definition set_encrypter v (s : Self) : Self :=
  mkSelf (task_type s) (boosting_round s) (encrypt_method s) (key_length s)
    (data_bin s) (y s) (classes_ s) (num_classes s) (booster_dim s) (y_hat s)
    (init_score s) (predict_y_hat s) v (booster_meta s)
    (boosting_model_list s) (history_loss s) (log s) (ctx s).

Definition set_booster_meta v (s : Self) : Self :=
  mkSelf (task_type s) (boosting_round s) (encrypt_method s) (key_length s)
    (data_bin s) (y s) (classes_ s) (num_classes s) (booster_dim s) (y_hat s)
    (init_score s) (predict_y_hat s) (encrypter s) v
    (boosting_model_list s) (history_loss s) (log s) (ctx s).

Definition set_boosting_model_list v (s : Self) : Self :=
  mkSelf (task_type s) (boosting_round s) (encrypt_method s) (key_length s)
    (data_bin s) (y s) (classes_ s) (num_classes s) (booster_dim s) (y_hat s)
    (init_score s) (predict_y_hat s) (encrypter s) (booster_meta s)
    v (history_loss s) (log s) (ctx s).

Definition set_history_loss v (s : Self) : Self :=
  mkSelf (task_type s) (boosting_round s) (encrypt_method s) (key_length s)
    (data_bin s) (y s) (classes_ s) (num_classes s) (booster_dim s) (y_hat s)
    (init_score s) (predict_y_hat s) (encrypter s) (booster_meta s)
    (boosting_model_list s) v (log s) (ctx s).

Definition set_log v (s : Self) : Self :=
  mkSelf (task_type s) (boosting_round s) (encrypt_method s) (key_length s)
    (data_bin s) (y s) (classes_ s) (num_classes s) (booster_dim s) (y_hat s)
    (init_score s) (predict_y_hat s) (encrypter s) (booster_meta s)
    (boosting_model_list s) (history_loss s) v (ctx s).

Definition set_ctx v (s : Self) : Self :=
  mkSelf (task_type s) (boosting_round s) (encrypt_method s) (key_length s)
    (data_bin s) (y s) (classes_ s) (num_classes s) (booster_dim s) (y_hat s)
    (init_score s) (predict_y_hat s) (encrypter s) (booster_meta s)
    (boosting_model_list s) (history_loss s) (log s) v.

(** A call into a collaborator: it reads the whole object and writes
    [ctx] only. *)
Definition call {A} (f : Self -> Result A * Ctx) : M Self A :=
  fun s => let (r, c) := f s in (r, set_ctx c s).

Definition emit (e : Event) : M Self unit :=
  modify (fun s => set_log (log s ++ [e]) s).

End Setters.

(** *** Collaborators

    Everything [hetero_boosting.py] calls and does not define: the
    methods inherited from [Boosting], the abstract methods of the booster
    family, the label checkers, the encryption helpers, the metric
    callbacks, the receiving side of the transfer variables, and the two
    method names of [consts]. *)
Class Collaborators `{Types} : Type := {
  PAILLIER : string;
  ITERATIVEAFFINE : string;
  prepare_data : DTable Instance_ -> Self -> Result DataBin * Ctx;
  get_label : DataBin -> Self -> Result (DTable Label) * Ctx;
  classify_validate_label : DataBin -> Self -> Result (nat * list Label) * Ctx;
  regression_validate_label : DataBin -> Self -> Result unit * Ctx;
  get_loss_function : Self -> Result unit * Ctx;
  get_init_score :
    DTable Label -> nat -> Self -> Result (DTable ScoreRow * ScoreRow) * Ctx;
  generate_key : Encrypter -> nat -> Self -> Result unit * Ctx;
  EncryptModeCalculator : Self -> Result unit * Ctx;
  callback_meta_loss : Self -> Result unit * Ctx;
  init_validation_strategy :
    DTable Instance_ -> option (DTable Instance_) -> Self -> Result unit * Ctx;
  fit_a_booster : nat -> nat -> Self -> Result Booster * Ctx;
  get_model : Booster -> Self -> Result (Meta * Param) * Ctx;
  get_sample_weights : Booster -> Self -> Result Weights * Ctx;
  get_new_predict_score :
    DTable ScoreRow -> Weights -> nat -> Self -> Result (DTable ScoreRow) * Ctx;
  compute_loss : DTable ScoreRow -> DTable Label -> Self -> Result Loss * Ctx;
  callback_metric : nat -> Loss -> Self -> Result unit * Ctx;
  run_validation : nat -> Self -> Result unit * Ctx;
  check_stop_condition : Loss -> Self -> Result bool * Ctx;
  callback_meta_best : list Loss -> Self -> Result unit * Ctx;
  data_alignment : DTable Instance_ -> Self -> Result (DTable Instance_) * Ctx;
  load_booster : Meta -> Param -> nat -> nat -> Self -> Result Booster * Ctx;
  model_predict : Booster -> DTable Instance_ -> Self -> Result Weights * Ctx;
  score_to_predict_result :
    DTable Instance_ -> DTable ScoreRow -> Self -> Result PredictResult * Ctx;
  booster_dim_get : Self -> Result nat * Ctx;
  stop_flag_get : nat -> Self -> Result bool * Ctx
}.

Section Methods.

Context `{Collaborators}.

(** [generate_encrypter], lines 50-61. *)
Definition generate_encrypter : M Self unit :=
  method <- gets encrypt_method ;;
  (if String.eqb (lower method) (lower PAILLIER) then
     modify (set_encrypter (Some PaillierEncrypt)) ;;
     len <- gets key_length ;;
     call (generate_key PaillierEncrypt len)
   else if String.eqb (lower method) (lower ITERATIVEAFFINE) then
     modify (set_encrypter (Some IterativeAffineEncrypt)) ;;
     len <- gets key_length ;;
     call (generate_key IterativeAffineEncrypt len)
   else
     raise (NotImplementedError "encrypt method not supported yes!!!")) ;;
  call EncryptModeCalculator.

(** [check_label], lines 63-93.  The table operation [mapValues] is
    taken as evaluated where it is called.  The mapping of line 87 is
    built from the attributes [self.classes_] and [self.num_classes],
    not from the locals [classes_] and [num_classes]. *)
Definition check_label : M Self (list Label * nat * nat) :=
  task <- gets task_type ;;
  match task with
  | CLASSIFICATION =>
      bin <- gets data_bin ;;
      '(num_classes_0, classes_0) <- call (classify_validate_label bin) ;;
      let booster_dim_0 :=
        if 2 <? num_classes_0 then num_classes_0 else 1 in
      let range_from_zero :=
        range_from_zero_loop classes_0 (List.length classes_0) true in
      classes_1 <- lift (sorted classes_0) ;;
      (if negb range_from_zero then
         self_classes_ <- gets classes_ ;;
         self_num_classes <- gets num_classes ;;
         let class_mapping :=
           dict (zip self_classes_ (range self_num_classes)) in
         labels <- gets y ;;
         labels' <- lift (mapValues_r
                            (fun _class =>
                               match getitem class_mapping _class with
                               | Ok i => Ok (LInt (Z.of_nat i))
                               | Raise e => Raise e
                               end) labels) ;;
         modify (set_y labels')
       else ret tt) ;;
      ret (classes_1, num_classes_0, booster_dim_0)
  | REGRESSION =>
      bin <- gets data_bin ;;
      call (regression_validate_label bin) ;;
      ret ([], 1, 1)
  end.

(** [len(l) // d] *)
Definition floordiv (n d : nat) : Result nat :=
  match d with
  | O => Raise ZeroDivisionError
  | _ => Ok (n / d)
  end.

(** [l[i]] for a non-negative index. *)
Definition list_getitem {A} (l : list A) (i : nat) : Result A :=
  match nth_error l i with
  | Some a => Ok a
  | None => Raise IndexError
  end.

End Methods.

End HeteroBoosting.

Module HeteroBoostingGuest.

Import HeteroBoosting.

Section Methods.

Context `{Collaborators}.

Definition sync_booster_dim : M Self unit :=
  d <- gets booster_dim ;;
  emit (RemoteBoosterDim d).

Definition sync_stop_flag (stop_flag : bool) (num_round : nat)
  : M Self unit :=
  emit (RemoteStopFlag stop_flag num_round).

(** Lines 151-165: one booster of one epoch. *)
Definition fit_class (epoch_idx class_idx : nat) : M Self Ctl :=
  emit (FitABooster epoch_idx class_idx) ;;
  model <- call (fit_a_booster epoch_idx class_idx) ;;
  '(booster_meta_0, booster_param) <- call (get_model model) ;;
  modify (set_booster_meta booster_meta_0) ;;
  modify (fun s =>
            set_boosting_model_list
              (boosting_model_list s ++ [booster_param]) s) ;;
  cur_sample_weights <- call (get_sample_weights model) ;;
  scores <- gets y_hat ;;
  scores' <- call (get_new_predict_score scores cur_sample_weights class_idx) ;;
  modify (set_y_hat scores') ;;
  ret Next.

(** Lines 147-179: the body of the epoch loop. *)
Definition fit_epoch (epoch_idx : nat) : M Self Ctl :=
  d <- gets booster_dim ;;
  for_in (range d) (fit_class epoch_idx) ;;
  scores <- gets y_hat ;;
  labels <- gets y ;;
  loss <- call (compute_loss scores labels) ;;
  modify (fun s => set_history_loss (history_loss s ++ [loss]) s) ;;
  call (callback_metric epoch_idx loss) ;;
  call (run_validation epoch_idx) ;;
  should_stop <- call (check_stop_condition loss) ;;
  sync_stop_flag should_stop epoch_idx ;;
  if should_stop then ret Break else ret Next.

(** Lines 123-133: the data, the labels, the booster dimension and the
    initial score. *)
Definition fit_labels (data_inst : DTable Instance_) : M Self unit :=
  bin <- call (prepare_data data_inst) ;;
  modify (set_data_bin bin) ;;
  labels <- call (get_label bin) ;;
  modify (set_y labels) ;;
  '(classes_0, num_classes_0, booster_dim_0) <- check_label ;;
  modify (set_classes_ classes_0) ;;
  modify (set_num_classes num_classes_0) ;;
  modify (set_booster_dim booster_dim_0) ;;
  call get_loss_function ;;
  sync_booster_dim ;;
  labels1 <- gets y ;;
  '(scores, init) <- call (get_init_score labels1 num_classes_0) ;;
  modify (set_y_hat scores) ;;
  modify (set_init_score init).

(** Lines 123-143: everything [fit] does before the epoch loop. *)
Definition fit_setup (data_inst : DTable Instance_)
           (validate_data : option (DTable Instance_)) : M Self unit :=
  fit_labels data_inst ;;
  generate_encrypter ;;
  call callback_meta_loss ;;
  call (init_validation_strategy data_inst validate_data).

(** Lines 147-179: the epoch loop. *)
Definition fit_loop : M Self unit :=
  rounds <- gets boosting_round ;;
  for_in (range rounds) fit_epoch.

(** Lines 181-185: [min] of an empty history raises. *)
Definition fit_report : M Self unit :=
  losses <- gets history_loss ;;
  match losses with
  | [] => raise ValueError
  | _ => call (callback_meta_best losses)
  end.

Definition fit (data_inst : DTable Instance_)
           (validate_data : option (DTable Instance_)) : M Self unit :=
  fit_setup data_inst validate_data ;;
  fit_loop ;;
  fit_report.

(** Lines 200-205: one stored booster of one round. *)
Definition predict_booster (data_inst : DTable Instance_)
           (idx booster_idx : nat) : M Self Ctl :=
  meta <- gets booster_meta ;;
  models <- gets boosting_model_list ;;
  d <- gets booster_dim ;;
  param <- lift (list_getitem models (idx * d + booster_idx)) ;;
  emit (LoadBooster (idx * d + booster_idx) param idx booster_idx) ;;
  model <- call (load_booster meta param idx booster_idx) ;;
  score <- call (model_predict model data_inst) ;;
  acc <- gets predict_y_hat ;;
  acc' <- call (get_new_predict_score acc score booster_idx) ;;
  modify (set_predict_y_hat acc') ;;
  ret Next.

Definition predict_round (data_inst : DTable Instance_) (idx : nat)
  : M Self Ctl :=
  d <- gets booster_dim ;;
  for_in (range d) (predict_booster data_inst idx) ;;
  ret Next.

(** [predict], lines 189-213. *)
Definition predict (data_inst : DTable Instance_) : M Self PredictResult :=
  data_inst <- call (data_alignment data_inst) ;;
  init_score_0 <- gets init_score ;;
  modify (set_predict_y_hat (mapValues (fun _ => init_score_0) data_inst)) ;;
  models <- gets boosting_model_list ;;
  d <- gets booster_dim ;;
  rounds <- lift (floordiv (List.length models) d) ;;
  for_in (range rounds) (predict_round data_inst) ;;
  acc <- gets predict_y_hat ;;
  call (score_to_predict_result data_inst acc).

End Methods.

End HeteroBoostingGuest.

Module HeteroBoostingHost.

Import HeteroBoosting.

Section Methods.

Context `{Collaborators}.

Definition sync_booster_dim : M Self unit :=
  emit GetBoosterDim ;;
  d <- call booster_dim_get ;;
  modify (set_booster_dim d).

Definition sync_stop_flag (num_round : nat) : M Self bool :=
  emit (GetStopFlag num_round) ;;
  call (stop_flag_get num_round).

Definition fit_class (epoch_idx class_idx : nat) : M Self Ctl :=
  emit (FitABooster epoch_idx class_idx) ;;
  model <- call (fit_a_booster epoch_idx class_idx) ;;
  '(booster_meta_0, booster_param) <- call (get_model model) ;;
  modify (set_booster_meta booster_meta_0) ;;
  modify (fun s =>
            set_boosting_model_list
              (boosting_model_list s ++ [booster_param]) s) ;;
  ret Next.

Definition fit_epoch (epoch_idx : nat) : M Self Ctl :=
  d <- gets booster_dim ;;
  for_in (range d) (fit_class epoch_idx) ;;
  call (run_validation epoch_idx) ;;
  should_stop <- sync_stop_flag epoch_idx ;;
  if should_stop then ret Break else ret Next.

(** Lines 263-264. *)
Definition fit_data (data_inst : DTable Instance_) : M Self unit :=
  bin <- call (prepare_data data_inst) ;;
  modify (set_data_bin bin) ;;
  sync_booster_dim.

(** [fit], lines 259-283. *)
Definition fit (data_inst : DTable Instance_)
           (validate_data : option (DTable Instance_)) : M Self unit :=
  fit_data data_inst ;;
  generate_encrypter ;;
  call (init_validation_strategy data_inst validate_data) ;;
  rounds <- gets boosting_round ;;
  for_in (range rounds) fit_epoch.

Definition predict_booster (data_inst : DTable Instance_)
           (idx booster_idx : nat) : M Self Ctl :=
  meta <- gets booster_meta ;;
  models <- gets boosting_model_list ;;
  d <- gets booster_dim ;;
  param <- lift (list_getitem models (idx * d + booster_idx)) ;;
  emit (LoadBooster (idx * d + booster_idx) param idx booster_idx) ;;
  model <- call (load_booster meta param idx booster_idx) ;;
  call (model_predict model data_inst) ;;
  ret Next.

Definition predict_round (data_inst : DTable Instance_) (idx : nat)
  : M Self Ctl :=
  d <- gets booster_dim ;;
  for_in (range d) (predict_booster data_inst idx) ;;
  ret Next.

(** [predict], lines 285-300. *)
Definition predict (data_inst : DTable Instance_) : M Self unit :=
  data_inst <- call (data_alignment data_inst) ;;
  init_score_0 <- gets init_score ;;
  modify (set_predict_y_hat (mapValues (fun _ => init_score_0) data_inst)) ;;
  models <- gets boosting_model_list ;;
  d <- gets booster_dim ;;
  rounds <- lift (floordiv (List.length models) d) ;;
  for_in (range rounds) (predict_round data_inst).

End Methods.

End HeteroBoostingHost.

(** The guest's prediction replay as the specification words it, to be
    compared with [HeteroBoostingGuest.predict]. *)

Module HeteroBoostingSpec.

Import HeteroBoosting.

(** The (round, dim) pairs of [rounds] rounds of [d] boosters, rounds
    outermost: the nesting order of training. *)
Definition replay_order (rounds d : nat) : list (nat * nat) :=
  flat_map (fun idx => map (pair idx) (range d)) (range rounds).

Section Replay.

Context `{Collaborators}.

(** Reload the booster stored at position [idx * d + booster_idx] as
    booster [(idx, booster_idx)] and add its score to the accumulator
    at dimension [booster_idx]. *)
Definition replay_booster (data_inst : DTable Instance_) (meta : Meta)
           (models : list Param) (d : nat) (pair : nat * nat)
  : M Self Ctl :=
  let (idx, booster_idx) := pair in
  param <- lift (list_getitem models (idx * d + booster_idx)) ;;
  emit (LoadBooster (idx * d + booster_idx) param idx booster_idx) ;;
  model <- call (load_booster meta param idx booster_idx) ;;
  score <- call (model_predict model data_inst) ;;
  acc <- gets predict_y_hat ;;
  acc' <- call (get_new_predict_score acc score booster_idx) ;;
  modify (set_predict_y_hat acc') ;;
  ret Next.

Definition predict (data_inst : DTable Instance_) : M Self PredictResult :=
  data_inst <- call (data_alignment data_inst) ;;
  init_score_0 <- gets init_score ;;
  modify (set_predict_y_hat (mapValues (fun _ => init_score_0) data_inst)) ;;
  meta <- gets booster_meta ;;
  models <- gets boosting_model_list ;;
  d <- gets booster_dim ;;
  rounds <- lift (floordiv (List.length models) d) ;;
  for_in (replay_order rounds d) (replay_booster data_inst meta models d) ;;
  acc <- gets predict_y_hat ;;
  call (score_to_predict_result data_inst acc).

End Replay.

End HeteroBoostingSpec.

(** ** What a run of the boosting orchestrator shows *)

Module BoostingTrace.

Import HeteroBoosting HeteroBoostingSpec.

Section Views.

Context `{Collaborators}.

Fixpoint stop_flags (l : list Event) : list (bool * nat) :=
  match l with
  | [] => []
  | RemoteStopFlag b n :: l' => (b, n) :: stop_flags l'
  | _ :: l' => stop_flags l'
  end.

Fixpoint fitted (l : list Event) : list (nat * nat) :=
  match l with
  | [] => []
  | FitABooster e c :: l' => (e, c) :: fitted l'
  | _ :: l' => fitted l'
  end.

(** What one booster step leaves alone, and what it appends. *)
Record class_step (s s' : Self) : Prop := {
  cs_dim : booster_dim s' = booster_dim s;
  cs_round : boosting_round s' = boosting_round s;
  cs_loss : history_loss s' = history_loss s;
  cs_flags : stop_flags (log s') = stop_flags (log s)
}.

(** The flags a run of the epoch loop broadcasts over rounds [a], [a+1], ...:
    all [false], except that the last one is [true] when the loop stopped
    early. *)
Definition no_stop (a r : nat) : list (bool * nat) :=
  map (pair false) (seq a r).

(** Steps that fit no booster, record no loss and broadcast no flag. *)
Record quiet (s s' : Self) : Prop := {
  q_models : boosting_model_list s' = boosting_model_list s;
  q_loss : history_loss s' = history_loss s;
  q_fitted : fitted (log s') = fitted (log s);
  q_flags : stop_flags (log s') = stop_flags (log s);
  q_round : boosting_round s' = boosting_round s;
  q_method : encrypt_method s' = encrypt_method s
}.

Definition unsupported (method : string) : Prop :=
  lower method <> lower PAILLIER /\ lower method <> lower ITERATIVEAFFINE.

Definition not_supported : Exn :=
  NotImplementedError "encrypt method not supported yes!!!".

(** No booster fitted, no loss recorded, no round closed. *)
Definition no_round_ran (s s' : Self) : Prop :=
  boosting_model_list s' = boosting_model_list s /\
  history_loss s' = history_loss s /\
  fitted (log s') = fitted (log s) /\
  stop_flags (log s') = stop_flags (log s).

(** What the replay loop reads and never writes. *)
Definition stored (meta : Meta) (models : list Param) (d : nat) (s : Self)
  : Prop :=
  booster_meta s = meta /\ boosting_model_list s = models /\ booster_dim s = d.

Record Load : Type := mkLoad {
  load_pos : nat;
  load_param : Param;
  load_idx : nat;
  load_dim : nat
}.

Fixpoint loads (l : list Event) : list Load :=
  match l with
  | [] => []
  | LoadBooster pos p idx b :: l' => mkLoad pos p idx b :: loads l'
  | _ :: l' => loads l'
  end.

(** A load hands [load_booster] the parameter stored at its position,
    under the (round, dim) pair of that position. *)
Definition load_ok (models : list Param) (d : nat) (x : Load) : Prop :=
  nth_error models (load_pos x) = Some (load_param x) /\
  load_pos x = load_idx x * d + load_dim x /\ load_dim x < d.

Definition kept (models : list Param) (d : nat) (s : Self) : Prop :=
  boosting_model_list s = models /\ booster_dim s = d.

(** The loads between two states: consecutive positions from [from] on. *)
Definition loaded_from (models : list Param) (d from : nat) (s s' : Self)
           (L : list Load) : Prop :=
  loads (log s') = loads (log s) ++ L /\
  map load_pos L = seq from (List.length L) /\
  Forall (load_ok models d) L.

(** The number of stored boosters a prediction replays. *)
Definition replayed (s : Self) : nat :=
  (List.length (boosting_model_list s) / booster_dim s) * booster_dim s.

Definition whole_rounds_only {A} (s : Self) (r : Result A) (s' : Self) : Prop :=
  exists L,
    loaded_from (boosting_model_list s) (booster_dim s) 0 s s' L /\
    List.length L <= replayed s /\
    ((exists a, r = Ok a) -> List.length L = replayed s) /\
    (forall pos, replayed s <= pos -> ~ In pos (map load_pos L)).

(** What the epoch loop has added between [s] and [s']: [r] rounds, each
    closed by one stop flag ([false] but for the last, which is [true] when
    the loop stopped before [boosting_round]), each with one loss and with
    one booster per class, fitted in the order of [replay_order]. *)
Definition rounds_accounted (s s' : Self) : Prop :=
  exists r flags,
    r <= boosting_round s /\
    stop_flags (log s') = stop_flags (log s) ++ flags /\
    map snd flags = range r /\
    ((r = boosting_round s /\ flags = no_stop 0 r) \/
     (exists r0, r = S r0 /\ flags = no_stop 0 r0 ++ [(true, r0)])) /\
    fitted (log s') = fitted (log s) ++ replay_order r (booster_dim s') /\
    List.length (boosting_model_list s') =
      List.length (boosting_model_list s) + r * booster_dim s' /\
    List.length (history_loss s') = List.length (history_loss s) + r /\
    (boosting_model_list s = [] -> history_loss s = [] ->
     List.length (boosting_model_list s') = r * booster_dim s' /\
     List.length (history_loss s') = r).

(** A [fit] (its whole body [fit_], and the part of it that comes before
    [generate_encrypter], [before]) that can only raise, with no round
    run; and that raises [not_supported], leaving the object as [before]
    left it, when [before] returns. *)
Definition raises_before_any_round (fit_ before : M Self unit) (s : Self)
  : Prop :=
  forall res s',
    fit_ s = (res, s') ->
    (exists e, res = Raise e) /\ no_round_ran s s' /\
    (boosting_model_list s = [] -> history_loss s = [] ->
     boosting_model_list s' = [] /\ history_loss s' = []) /\
    (forall s1, before s = (Ok tt, s1) -> res = Raise not_supported /\ s' = s1).

End Views.

End BoostingTrace.

(** ** Hetero FTL, decentralized encryption scheme: [hetero_ftl_guest.py] *)

Module HeteroFTLGuest.

(** The transfer variables the guest of the decentralized scheme uses. *)

Module transfer_variable.

Inductive t : Type :=
| guest_sample_indexes
| host_sample_indexes
| guest_public_key
| host_public_key
| guest_component_list
| host_component_list
| masked_enc_guest_gradients
| masked_enc_loss
| masked_enc_host_gradients
| masked_dec_host_gradients
| masked_dec_guest_gradients
| masked_dec_loss
| is_decentralized_enc_ftl_stopped.

End transfer_variable.

Definition TransferVariable : Type := transfer_variable.t.

(** Which of the two masking helpers drew a mask. *)
Inductive MaskKind : Type := GradientsMasks | LossMask.

(** The collaborators: the conversion helpers of [common_data_util], the
    local model [guest_model], the convergence function, the decryption
    helpers, and [Env], the world outside the process (what the host
    sends back, the key generator).  A random mask is known by its
    number in the order of drawing; [mask v m] is [v] under mask [m]. *)
Class Collaborators : Type := {
  Val : Type;
  Model : Type;
  Conv : Type;
  Env : Type;
  convert_instance_table_to_dict : Val -> Result (Val * Val * Val);
  overlapping_samples_converter :
    Val -> Val -> Val -> Val -> Result (Val * Val * Val * Val);
  transfer_get : TransferVariable -> option nat -> Env -> Result Val * Env;
  generate_encryption_key_pair : Env -> Result (Val * Val) * Env;
  set_batch : Val -> Val -> Val -> Val -> Model -> Result unit * Model;
  set_public_key : option Val -> Model -> Result unit * Model;
  set_host_public_key : option Val -> Model -> Result unit * Model;
  set_private_key : option Val -> Model -> Result unit * Model;
  send_components : Model -> Result Val * Model;
  receive_components : Val -> Model -> Result unit * Model;
  compute_gradients : Model -> Result unit * Model;
  send_gradients : Model -> Result Val * Model;
  send_loss : Model -> Result Val * Model;
  receive_gradients : Val -> nat -> Model -> Result unit * Model;
  compute_components : Model -> Result unit * Model;
  is_converge : option Val -> Conv -> Result bool * Conv;
  decrypt_gradients : option Val -> Val -> Result Val;
  mask_list : Val -> nat -> Val;
  mask : Val -> nat -> Val;
  unmask_list : Val -> nat -> Val;
  unmask : Val -> nat -> Val
}.

Inductive Payload `{Collaborators} : Type :=
| PVal (v : Val)
| PBool (b : bool).

(** What the guest does to the outside and to its masks, in order. *)
Inductive Event `{Collaborators} : Type :=
| Remote (name : TransferVariable) (tag : option nat) (payload : Payload)
| Get (name : TransferVariable) (tag : option nat) (v : Val)
| AddMask (kind : MaskKind) (m : nat)
| RemoveMask (kind : MaskKind) (m : nat) (masked : Val)
| IsConverge (loss : option Val).

Record Self `{Collaborators} : Type := mkSelf {
  max_iter : nat;
  local_iterations : nat;
  n_iter_ : nat;
  guest_model : Model;
  converge_func : Conv;
  public_key : option Val;
  private_key : option Val;
  host_public_key : option Val;
  env : Env;
  drawn : nat;
  trace : list Event
}.

Section Methods.

Context `{Collaborators}.

Definition set_n_iter_ v (s : Self) : Self :=
  mkSelf (max_iter s) (local_iterations s) v (guest_model s)
    (converge_func s) (public_key s) (private_key s) (host_public_key s)
    (env s) (drawn s) (trace s).

Definition set_guest_model v (s : Self) : Self :=
  mkSelf (max_iter s) (local_iterations s) (n_iter_ s) v
    (converge_func s) (public_key s) (private_key s) (host_public_key s)
    (env s) (drawn s) (trace s).

Definition set_converge_func v (s : Self) : Self :=
  mkSelf (max_iter s) (local_iterations s) (n_iter_ s) (guest_model s)
    v (public_key s) (private_key s) (host_public_key s)
    (env s) (drawn s) (trace s).

Definition set_keys pub priv (s : Self) : Self :=
  mkSelf (max_iter s) (local_iterations s) (n_iter_ s) (guest_model s)
    (converge_func s) pub priv (host_public_key s)
    (env s) (drawn s) (trace s).

Definition set_host_key v (s : Self) : Self :=
  mkSelf (max_iter s) (local_iterations s) (n_iter_ s) (guest_model s)
    (converge_func s) (public_key s) (private_key s) v
    (env s) (drawn s) (trace s).

Definition set_env v (s : Self) : Self :=
  mkSelf (max_iter s) (local_iterations s) (n_iter_ s) (guest_model s)
    (converge_func s) (public_key s) (private_key s) (host_public_key s)
    v (drawn s) (trace s).

Definition set_drawn v (s : Self) : Self :=
  mkSelf (max_iter s) (local_iterations s) (n_iter_ s) (guest_model s)
    (converge_func s) (public_key s) (private_key s) (host_public_key s)
    (env s) v (trace s).

Definition set_trace v (s : Self) : Self :=
  mkSelf (max_iter s) (local_iterations s) (n_iter_ s) (guest_model s)
    (converge_func s) (public_key s) (private_key s) (host_public_key s)
    (env s) (drawn s) v.

Definition emit (e : Event) : M Self unit :=
  modify (fun s => set_trace (trace s ++ [e]) s).

(** A method of [self.guest_model]. *)
Definition on_model {A} (f : Model -> Result A * Model) : M Self A :=
  fun s => let (r, m) := f (guest_model s) in (r, set_guest_model m s).

(** [self._do_remote(value, name=..., tag=generate_transferid(name, n),
    role=consts.HOST, idx=-1)] *)
Definition _do_remote (payload : Payload) (name : TransferVariable)
           (tag : option nat) : M Self unit :=
  emit (Remote name tag payload).

(** [self._do_get(name=..., tag=generate_transferid(name, n), idx=-1)[0]] *)
Definition _do_get (name : TransferVariable) (tag : option nat)
  : M Self Val :=
  fun s =>
    match transfer_get name tag (env s) with
    | (Ok v, e) => (Ok v, set_trace (trace s ++ [Get name tag v]) (set_env e s))
    | (Raise x, e) => (Raise x, set_env e s)
    end.

(** The four masking helpers.  Drawing takes the next mask number. *)
Definition add_random_mask_for_list_of_values (values : Val)
  : M Self (Val * nat) :=
  m <- gets drawn ;;
  modify (set_drawn (S m)) ;;
  emit (AddMask GradientsMasks m) ;;
  ret (mask_list values m, m).

Definition add_random_mask (value : Val) : M Self (Val * nat) :=
  m <- gets drawn ;;
  modify (set_drawn (S m)) ;;
  emit (AddMask LossMask m) ;;
  ret (mask value m, m).

Definition remove_random_mask_from_list_of_values (masked : Val) (m : nat)
  : M Self Val :=
  emit (RemoveMask GradientsMasks m masked) ;;
  ret (unmask_list masked m).

Definition remove_random_mask (masked : Val) (m : nat) : M Self Val :=
  emit (RemoveMask LossMask m masked) ;;
  ret (unmask masked m).

(** [__decrypt_gradients], lines 464-466. *)
Definition __decrypt_gradients (encrypt_gradients : Val) : M Self Val :=
  key <- gets private_key ;;
  lift (decrypt_gradients key encrypt_gradients).

(** [prepare_encryption_key_pair], lines 268-281. *)
Definition prepare_encryption_key_pair : M Self unit :=
  '(pub, priv) <- (fun s => let (r, e) := generate_encryption_key_pair (env s)
                            in (r, set_env e s)) ;;
  modify (set_keys (Some pub) (Some priv)) ;;
  n <- gets n_iter_ ;;
  _do_remote (PVal pub) transfer_variable.guest_public_key (Some n) ;;
  host_key <- _do_get transfer_variable.host_public_key (Some n) ;;
  modify (set_host_key (Some host_key)).

(** [prepare_data], lines 55-73. *)
Definition prepare_data (guest_data : Val)
  : M Self (Val * Val * Val * Val) :=
  '(features_dict, label_dict, sample_indexes) <-
     lift (convert_instance_table_to_dict guest_data) ;;
  _do_remote (PVal sample_indexes)
             transfer_variable.guest_sample_indexes None ;;
  host_indexes <- _do_get transfer_variable.host_sample_indexes None ;;
  lift (overlapping_samples_converter
          features_dict sample_indexes host_indexes label_dict).

(** Lines 346-437: one pass of the local-iteration loop.  [loss] is
    the local variable of that name: what it holds on entry, and on
    exit.  Nothing in the pass assigns [self.n_iter_], which is read
    once for all the tags. *)
Definition local_iteration (local_iter : nat) (loss : option Val)
  : M Self (option Val) :=
  on_model compute_gradients ;;
  encrypt_guest_gradients <- on_model send_gradients ;;
  encrypt_loss <- on_model send_loss ;;
  '(masked_gradients, gradients_masks) <-
     add_random_mask_for_list_of_values encrypt_guest_gradients ;;
  '(masked_loss, loss_mask) <- add_random_mask encrypt_loss ;;
  n <- gets n_iter_ ;;
  _do_remote (PVal masked_gradients)
             transfer_variable.masked_enc_guest_gradients (Some n) ;;
  (if local_iter =? 0
   then _do_remote (PVal masked_loss) transfer_variable.masked_enc_loss (Some n)
   else ret tt) ;;
  host_gradients <-
    _do_get transfer_variable.masked_enc_host_gradients (Some n) ;;
  dec_host_gradients <- __decrypt_gradients host_gradients ;;
  _do_remote (PVal dec_host_gradients)
             transfer_variable.masked_dec_host_gradients (Some n) ;;
  dec_guest_gradients <-
    _do_get transfer_variable.masked_dec_guest_gradients (Some n) ;;
  cleared_dec_guest_gradients <-
    remove_random_mask_from_list_of_values dec_guest_gradients
                                           gradients_masks ;;
  on_model (receive_gradients cleared_dec_guest_gradients n) ;;
  loss' <- (if local_iter =? 0
            then dec_loss <-
                   _do_get transfer_variable.masked_dec_loss (Some n) ;;
                 cleared <- remove_random_mask dec_loss loss_mask ;;
                 ret (Some cleared)
            else ret loss) ;;
  total <- gets local_iterations ;;
  (if negb (local_iter =? total - 1)
   then on_model compute_components
   else ret tt) ;;
  ret loss'.

(** [for local_iter in range(self.local_iterations)], threading the
    local variable [loss]. *)
Fixpoint local_loop (iters : list nat) (loss : option Val)
  : M Self (option Val) :=
  match iters with
  | [] => ret loss
  | local_iter :: rest =>
      loss' <- local_iteration local_iter loss ;;
      local_loop rest loss'
  end.

(** Lines 304-457: one pass of the outer loop, from the value of
    [is_stop] on entry to its value on exit. *)
Definition fit_round (is_stop : bool) : M Self bool :=
  guest_comp <- on_model send_components ;;
  n <- gets n_iter_ ;;
  _do_remote (PVal guest_comp)
             transfer_variable.guest_component_list (Some n) ;;
  host_comp <- _do_get transfer_variable.host_component_list (Some n) ;;
  on_model (receive_components host_comp) ;;
  total <- gets local_iterations ;;
  loss <- local_loop (range total) None ;;
  emit (IsConverge loss) ;;
  converged <- (fun s => let (r, c) := is_converge loss (converge_func s)
                         in (r, set_converge_func c s)) ;;
  let is_stop' := if converged : bool then true else is_stop in
  n' <- gets n_iter_ ;;
  _do_remote (PBool is_stop')
             transfer_variable.is_decentralized_enc_ftl_stopped (Some n') ;;
  modify (fun s => set_n_iter_ (n_iter_ s + 1) s) ;;
  ret is_stop'.

(** Lines 303-459: [while self.n_iter_ < self.max_iter], at most
    [fuel] passes. *)
Fixpoint fit_rounds (fuel : nat) (is_stop : bool) : M Self unit :=
  n <- gets n_iter_ ;;
  bound <- gets max_iter ;;
  if n <? bound then
    match fuel with
    | O => raise OutOfFuel
    | S fuel' =>
        is_stop' <- fit_round is_stop ;;
        if is_stop' : bool then ret tt else fit_rounds fuel' is_stop'
    end
  else ret tt.

(** [fit], lines 283-462. *)
Definition fit (guest_data : Val) : M Self unit :=
  prepare_encryption_key_pair ;;
  '(guest_x, overlap_indexes, non_overlap_indexes, guest_y) <-
     prepare_data guest_data ;;
  on_model (set_batch guest_x guest_y non_overlap_indexes overlap_indexes) ;;
  pub <- gets public_key ;;
  on_model (set_public_key pub) ;;
  host_key <- gets host_public_key ;;
  on_model (set_host_public_key host_key) ;;
  priv <- gets private_key ;;
  on_model (set_private_key priv) ;;
  n <- gets n_iter_ ;;
  bound <- gets max_iter ;;
  fit_rounds (bound - n) false.

End Methods.

End HeteroFTLGuest.

(** ** What a trace of the FTL guest shows *)

Module FTLTrace.

Import HeteroFTLGuest.

Module tv := HeteroFTLGuest.transfer_variable.

Section Views.

Context `{Collaborators}.

Definition Mask : Type := MaskKind * nat.

(** The masks drawn, and the masks removed, in order. *)
Fixpoint adds (T : list Event) : list Mask :=
  match T with
  | [] => []
  | AddMask kind m :: T' => (kind, m) :: adds T'
  | _ :: T' => adds T'
  end.

Fixpoint removes (T : list Event) : list Mask :=
  match T with
  | [] => []
  | RemoveMask kind m _ :: T' => (kind, m) :: removes T'
  | _ :: T' => removes T'
  end.

Definition mask_eq_dec (a b : Mask) : {a = b} + {a <> b}.
Proof. repeat decide equality. Defined.

Definition times_removed (a : Mask) (T : list Event) : nat :=
  count_occ mask_eq_dec (removes T) a.

(** The claim on masks, on a trace: whatever was drawn is removed
    exactly once. *)
Definition every_mask_removed_once (T : list Event) : Prop :=
  forall a, In a (adds T) -> times_removed a T = 1.

(** The loss on the wire and at its unmasking. *)
Definition is_loss_traffic (e : Event) : bool :=
  match e with
  | Remote transfer_variable.masked_enc_loss _ _ => true
  | Get transfer_variable.masked_dec_loss _ _ => true
  | RemoveMask LossMask _ _ => true
  | _ => false
  end.

Definition loss_traffic (T : list Event) : list Event :=
  filter is_loss_traffic T.

(** The life of the masks: drawing, sending the masked values, their
    return from the host, unmasking. *)
Definition is_mask_life (e : Event) : bool :=
  match e with
  | AddMask _ _ => true
  | RemoveMask _ _ _ => true
  | Remote transfer_variable.masked_enc_guest_gradients _ _ => true
  | Remote transfer_variable.masked_enc_loss _ _ => true
  | Get transfer_variable.masked_dec_guest_gradients _ _ => true
  | Get transfer_variable.masked_dec_loss _ _ => true
  | _ => false
  end.

Definition mask_life (T : list Event) : list Event :=
  filter is_mask_life T.

(** The arguments of the calls of [is_converge]. *)
Fixpoint converge_args (T : list Event) : list (option Val) :=
  match T with
  | [] => []
  | IsConverge loss :: T' => loss :: converge_args T'
  | _ :: T' => converge_args T'
  end.

(** Masks of a stretch of trace all drawn in it, with numbers from
    [lo] up to [hi], none removed twice, and every gradients mask
    removed. *)
Record disciplined (lo hi : nat) (T : list Event) : Prop := {
  d_range : forall a, In a (adds T) -> lo <= snd a < hi;
  d_drawn_here : forall a, In a (removes T) -> In a (adds T);
  d_removed_once : NoDup (removes T);
  d_gradients :
    forall m, In (GradientsMasks, m) (adds T) ->
              In (GradientsMasks, m) (removes T)
}.

(** What a step of [fit] never changes. *)
Definition same_bounds (s s' : Self) : Prop :=
  max_iter s' = max_iter s /\ local_iterations s' = local_iterations s.

(** The whole of one local iteration that returns. *)
Definition local_events (local_iter n g : nat) (grads loss_ hg dg : Val)
           (dec_hg : Val) (dl : Val) : list Event :=
  [AddMask GradientsMasks g; AddMask LossMask (S g);
   Remote tv.masked_enc_guest_gradients (Some n) (PVal (mask_list grads g))]
  ++ (if local_iter =? 0
      then [Remote tv.masked_enc_loss (Some n) (PVal (mask loss_ (S g)))]
      else [])
  ++ [Get tv.masked_enc_host_gradients (Some n) hg;
      Remote tv.masked_dec_host_gradients (Some n) (PVal dec_hg);
      Get tv.masked_dec_guest_gradients (Some n) dg;
      RemoveMask GradientsMasks g dg]
  ++ (if local_iter =? 0
      then [Get tv.masked_dec_loss (Some n) dl; RemoveMask LossMask (S g) dl]
      else []).

(** The loss of a round that ran its local iterations: sent, returned
    and unmasked once, under the second mask drawn in the round. *)
Definition round_loss_traffic (n g : nat) (loss_ dl : Val) : list Event :=
  [Remote tv.masked_enc_loss (Some n) (PVal (mask loss_ (S g)));
   Get tv.masked_dec_loss (Some n) dl;
   RemoveMask LossMask (S g) dl].

End Views.

End FTLTrace.

(** ** Hetero k-means: [hetero_kmeans_arbiter.py], [hetero_kmeans_client.py] *)

Module HeteroKmeans.

Module transfer_variable.

Inductive t : Type :=
| guest_dist
| host_dist
| cluster_result
| guest_tol
| host_tol
| arbiter_tol.

End transfer_variable.

Definition TransferVariable : Type := transfer_variable.t.

Inductive Role : Type := GUEST | HOST | ARBITER.

(** The [suffix=] argument of a transfer: an int (the arbiter writes
    [suffix=self.n_iter_]) or a tuple (the clients write
    [suffix=(self.n_iter_,)]). *)
Inductive Suffix : Type :=
| SInt (n : nat)
| STuple (t : list nat).

(** Whether a call's [suffix] names round [r]; [None] is a call without
    the keyword. *)
Definition carries_round (r : nat) (suffix : option Suffix) : bool :=
  match suffix with
  | Some (SInt n) => n =? r
  | Some (STuple [n]) => n =? r
  | _ => false
  end.

(** A tolerance is a Python float: a binary64 number, with the
    processor's [+], [<], [>] and [==], [inf] and NaN included. *)
Definition float : Set := PrimFloat.float.

(** The collaborators: the distributed tables, the transport ([Env] is
    what the other parties will send), the hooks [centroid_assign] and
    [get_centroid] (their bodies in these two files are [pass]; they are
    left open for the classes that override them), and the expressions
    of the client whose operators belong to the table library: the
    distances of lines 78-79 ([dist_all]) and the mean of line 67
    ([cluster_mean]). *)
Class Collaborators : Type := {
  Data : Type;
  Table : Type;
  Assign : Type;
  Centroid : Type;
  Centroids : Type;
  TolValue : Type;
  Env : Type;
  get_table :
    TransferVariable -> Z -> option Suffix -> Env -> Result Table * Env;
  get_number :
    TransferVariable -> Z -> option Suffix -> Env -> Result float * Env;
  get_assign :
    TransferVariable -> Z -> option Suffix -> Env -> Result Assign * Env;
  join_add : Table -> Table -> Result Table;
  centroid_assign : Table -> Result Assign;
  _abnormal_detection : Data -> Result unit;
  get_centroid : Result Centroids;
  dist_all : Data -> Centroids -> Env -> Result Table * Env;
  cluster_mean : Assign -> Data -> nat -> Result Centroid
}.

(** A Python value a client may receive on [arbiter_tol]. *)
Inductive Signal : Type :=
| SigBool (b : bool)
| SigNumber (n : float)
| SigNone.

(** [tol_tag == 1] *)
Definition eq_one (tol_tag : Signal) : bool :=
  match tol_tag with
  | SigBool b => b
  | SigNumber n => PrimFloat.eqb n PrimFloat.one
  | SigNone => false
  end.

(** What [centroid_cal] keeps in its local [centroid_list]: a list, or
    [None]. *)
Inductive PyList `{Collaborators} : Type :=
| List_ (l : list Centroid)
| None_.

Inductive Payload `{Collaborators} : Type :=
| PTable (t : Table)
| PAssign (a : Assign)
| PNumber (n : float)
| PTol (v : TolValue).

(** What a [get] handed over. *)
Inductive Received `{Collaborators} : Type :=
| RTable (t : Table)
| RAssign (a : Assign)
| RNumber (n : float)
| RSignal (tol_tag : Signal).

(** The transfers of a party, in order: what it sent, and what it asked
    for and was given. *)
Inductive Event `{Collaborators} : Type :=
| Remote (name : TransferVariable) (payload : Payload) (role : Role)
         (idx : Z) (suffix : option Suffix)
| Get (name : TransferVariable) (received : Received) (idx : Z)
      (suffix : option Suffix).

End HeteroKmeans.

Module HeteroKmenasArbiter.

Import HeteroKmeans.
Import transfer_variable.

(** [inf], the first value of [n]. *)
Definition inf : float := PrimFloat.infinity.

(** [n > tol] and [n < tol] *)
Definition gt (n tol : float) : bool := PrimFloat.ltb tol n.

Definition lt (n tol : float) : bool := PrimFloat.ltb n tol.

Record Self `{Collaborators} : Type := mkSelf {
  n_iter_ : nat;
  max_iter : nat;
  tol : float;
  env : Env;
  sent : list Event
}.

Section Methods.

Context `{Collaborators}.

Definition set_n_iter_ v (s : Self) : Self :=
  mkSelf v (max_iter s) (tol s) (env s) (sent s).

Definition set_env v (s : Self) : Self :=
  mkSelf (n_iter_ s) (max_iter s) (tol s) v (sent s).

Definition set_sent v (s : Self) : Self :=
  mkSelf (n_iter_ s) (max_iter s) (tol s) (env s) v.

Definition remote (name : TransferVariable) (payload : Payload)
           (role : Role) (idx : Z) (suffix : option Suffix) : M Self unit :=
  modify (fun s => set_sent (sent s ++ [Remote name payload role idx suffix]) s).

(** [name.get(idx=..., suffix=...)]: what the transport hands over is
    returned, and recorded as [wrap] shows it. *)
Definition get {A} (wrap : A -> Received)
           (recv : TransferVariable -> Z -> option Suffix -> Env ->
                   Result A * Env)
           (name : TransferVariable) (idx : Z) (suffix : option Suffix)
  : M Self A :=
  fun s =>
    match recv name idx suffix (env s) with
    | (Ok v, e) =>
        (Ok v, set_sent (sent s ++ [Get name (wrap v) idx suffix]) (set_env e s))
    | (Raise x, e) => (Raise x, set_env e s)
    end.

(** Lines 38-52: one pass of the loop; the new [n], and whether the
    pass ended in [break]. *)
Definition fit_round : M Self (float * Ctl) :=
  r <- gets n_iter_ ;;
  p1 <- get RTable get_table guest_dist 0 (Some (SInt r)) ;;
  p2 <- get RTable get_table host_dist (-1) (Some (SInt r)) ;;
  dist_sum <- lift (join_add p1 p2) ;;
  new_centroid <- lift (centroid_assign dist_sum) ;;
  remote cluster_result (PAssign new_centroid) GUEST (-1) (Some (SInt r)) ;;
  remote cluster_result (PAssign new_centroid) HOST (-1) (Some (SInt r)) ;;
  tol1 <- get RNumber get_number guest_tol 0 (Some (SInt r)) ;;
  tol2 <- get RNumber get_number host_tol 0 (Some (SInt r)) ;;
  let n := PrimFloat.add tol1 tol2 in
  remote arbiter_tol (PNumber n) HOST (-1) None ;;
  remote arbiter_tol (PNumber n) GUEST (-1) None ;;
  bound <- gets tol ;;
  if lt n bound then ret (n, Break)
  else
    modify (fun s => set_n_iter_ (n_iter_ s + 1) s) ;;
    ret (n, Next).

(** Lines 37-52: [while self.n_iter_ < self.max_iter and n > self.tol],
    at most [fuel] passes. *)
Fixpoint fit_rounds (fuel : nat) (n : float) : M Self unit :=
  r <- gets n_iter_ ;;
  rounds <- gets max_iter ;;
  bound <- gets tol ;;
  if (r <? rounds) && gt n bound then
    match fuel with
    | O => raise OutOfFuel
    | S fuel' =>
        '(n', ctl) <- fit_round ;;
        match ctl with
        | Break => ret tt
        | Next => fit_rounds fuel' n'
        end
    end
  else ret tt.

(** [fit], lines 34-52. *)
Definition fit : M Self unit :=
  r <- gets n_iter_ ;;
  rounds <- gets max_iter ;;
  fit_rounds (rounds - r) inf.

End Methods.

End HeteroKmenasArbiter.

Module HeteroKmeansClient.

Import HeteroKmeans.
Import transfer_variable.

(** [HeteroKmeansGuest] and [HeteroKmeansHost] differ in the two
    transfer variables they bind. *)
Inductive Binding : Type := HeteroKmeansGuest | HeteroKmeansHost.

Definition client_dist (b : Binding) : TransferVariable :=
  match b with
  | HeteroKmeansGuest => guest_dist
  | HeteroKmeansHost => host_dist
  end.

Definition client_tol (b : Binding) : TransferVariable :=
  match b with
  | HeteroKmeansGuest => guest_tol
  | HeteroKmeansHost => host_tol
  end.

Record Self `{Collaborators} : Type := mkSelf {
  binding : Binding;
  k : nat;
  n_iter_ : nat;
  max_iter : nat;
  centroid_list : PyList;
  cluster_result_ : option Assign;
  env : Env;
  sent : list Event
}.

(** Line 83 as the file has it: the module binds the names of
    [from numpy import *], and [np] is none of them, so the expression
    [np.sum((centroids - centroid_new)**2, axis=1)] raises before any
    of its operands is looked at. *)
Definition squared_movement_of_the_file `{Collaborators}
           (_ : Centroids) (_ : PyList) : Result TolValue :=
  Raise NameError.

Section Methods.

Context `{Collaborators}.

(** Line 83, [np.sum((centroids - centroid_new)**2, axis=1)], on the
    centroids of [get_centroid] and the value [centroid_cal] returned.
    The methods below take the expression as given, so that what they
    do after it is stated for a module in which [np] is bound as well;
    [squared_movement_of_the_file] is the expression of this file. *)
Variable squared_movement : Centroids -> PyList -> Result TolValue.

(** What the transport hands over for [arbiter_tol]. *)
Variable get_signal :
  TransferVariable -> Z -> option Suffix -> Env -> Result Signal * Env.

Definition set_n_iter_ v (s : Self) : Self :=
  mkSelf (binding s) (k s) v (max_iter s) (centroid_list s)
    (cluster_result_ s) (env s) (sent s).

Definition set_centroid_list v (s : Self) : Self :=
  mkSelf (binding s) (k s) (n_iter_ s) (max_iter s) v
    (cluster_result_ s) (env s) (sent s).

Definition set_cluster_result v (s : Self) : Self :=
  mkSelf (binding s) (k s) (n_iter_ s) (max_iter s) (centroid_list s)
    v (env s) (sent s).

Definition set_env v (s : Self) : Self :=
  mkSelf (binding s) (k s) (n_iter_ s) (max_iter s) (centroid_list s)
    (cluster_result_ s) v (sent s).

Definition set_sent v (s : Self) : Self :=
  mkSelf (binding s) (k s) (n_iter_ s) (max_iter s) (centroid_list s)
    (cluster_result_ s) (env s) v.

Definition remote (name : TransferVariable) (payload : Payload)
           (role : Role) (idx : Z) (suffix : option Suffix) : M Self unit :=
  modify (fun s => set_sent (sent s ++ [Remote name payload role idx suffix]) s).

Definition get {A} (wrap : A -> Received)
           (recv : TransferVariable -> Z -> option Suffix -> Env ->
                   Result A * Env)
           (name : TransferVariable) (idx : Z) (suffix : option Suffix)
  : M Self A :=
  fun s =>
    match recv name idx suffix (env s) with
    | (Ok v, e) =>
        (Ok v, set_sent (sent s ++ [Get name (wrap v) idx suffix]) (set_env e s))
    | (Raise x, e) => (Raise x, set_env e s)
    end.

(** [centroid_list.append(centroid_k)] as an expression: the method of
    a list returns [None]; [None] has no such method. *)
Definition append (centroid_list : PyList) (centroid_k : Centroid)
  : Result PyList :=
  match centroid_list with
  | List_ _ => Ok None_
  | None_ => Raise AttributeError
  end.

(** Lines 65-68: the loop over [kk], on the values of [kk] still to
    visit. *)
Fixpoint centroid_cal_loop (kks : list nat) (cluster_result : Assign)
         (data_instances : Data) (centroid_list : PyList)
  : Result PyList :=
  match kks with
  | [] => Ok centroid_list
  | kk :: rest =>
      match cluster_mean cluster_result data_instances kk with
      | Raise e => Raise e
      | Ok centroid_k =>
          match append centroid_list centroid_k with
          | Raise e => Raise e
          | Ok centroid_list' =>
              centroid_cal_loop rest cluster_result data_instances
                                centroid_list'
          end
      end
  end.

(** [centroid_cal], lines 62-69. *)
Definition centroid_cal (cluster_result : Assign) (data_instances : Data)
           (centroids : Centroids) : M Self PyList :=
  clusters <- gets k ;;
  lift (centroid_cal_loop (seq 0 clusters) cluster_result data_instances
                          (List_ [])).

(** Lines 78-90: one pass of the loop. *)
Definition fit_round (data_instances : Data) (centroids : Centroids)
  : M Self Ctl :=
  table <- (fun s => let (r, e) := dist_all data_instances centroids (env s)
                     in (r, set_env e s)) ;;
  b <- gets binding ;;
  r <- gets n_iter_ ;;
  remote (client_dist b) (PTable table) ARBITER 0 (Some (STuple [r])) ;;
  cluster_result <- get RAssign get_assign cluster_result 0
                        (Some (STuple [r])) ;;
  centroid_new <- centroid_cal cluster_result data_instances centroids ;;
  tolerance <- lift (squared_movement centroids centroid_new) ;;
  modify (set_centroid_list centroid_new) ;;
  modify (set_cluster_result (Some cluster_result)) ;;
  remote (client_tol b) (PTol tolerance) ARBITER 0 (Some (STuple [r])) ;;
  tol_tag <- get RSignal get_signal arbiter_tol 0 (Some (STuple [r])) ;;
  modify (fun s => set_n_iter_ (n_iter_ s + 1) s) ;;
  if eq_one tol_tag then ret Break else ret Next.

(** Lines 77-90: [while self.n_iter_ < self.max_iter], at most [fuel]
    passes. *)
Fixpoint fit_rounds (fuel : nat) (data_instances : Data)
         (centroids : Centroids) : M Self unit :=
  r <- gets n_iter_ ;;
  rounds <- gets max_iter ;;
  if r <? rounds then
    match fuel with
    | O => raise OutOfFuel
    | S fuel' =>
        ctl <- fit_round data_instances centroids ;;
        match ctl with
        | Break => ret tt
        | Next => fit_rounds fuel' data_instances centroids
        end
    end
  else ret tt.

(** [fit], lines 71-90. *)
Definition fit (data_instances : Data) : M Self unit :=
  lift (_abnormal_detection data_instances) ;;
  centroids <- lift get_centroid ;;
  r <- gets n_iter_ ;;
  rounds <- gets max_iter ;;
  fit_rounds (rounds - r) data_instances centroids.

End Methods.

End HeteroKmeansClient.

(** ** What the messages of a k-means party show *)

Module KmeansTrace.

Import HeteroKmeans.

Section Views.

Context `{Collaborators}.

Definition name_of (e : Event) : TransferVariable :=
  match e with
  | Remote name _ _ _ _ => name
  | Get name _ _ _ => name
  end.

Definition suffix_of (e : Event) : option Suffix :=
  match e with
  | Remote _ _ _ _ suffix => suffix
  | Get _ _ _ suffix => suffix
  end.

Definition is_arbiter_tol (e : Event) : bool :=
  match name_of e with
  | transfer_variable.arbiter_tol => true
  | _ => false
  end.

Definition is_client_tol (e : Event) : bool :=
  match name_of e with
  | transfer_variable.guest_tol => true
  | transfer_variable.host_tol => true
  | _ => false
  end.

(** What a client reads off a payload put on [arbiter_tol]. *)
Definition signal_of (p : Payload) : Signal :=
  match p with
  | PNumber n => SigNumber n
  | _ => SigNone
  end.

(** The payloads sent on [arbiter_tol], as the clients read them. *)
Fixpoint arbiter_tol_signals (l : list Event) : list Signal :=
  match l with
  | [] => []
  | Remote transfer_variable.arbiter_tol p _ _ _ :: l' =>
      signal_of p :: arbiter_tol_signals l'
  | _ :: l' => arbiter_tol_signals l'
  end.

(** What a client was given on [arbiter_tol], in order. *)
Fixpoint received_signals (l : list Event) : list Signal :=
  match l with
  | [] => []
  | Get transfer_variable.arbiter_tol (RSignal tol_tag) _ _ :: l' =>
      tol_tag :: received_signals l'
  | _ :: l' => received_signals l'
  end.

(** The one transfer of a client round on [arbiter_tol]: the value the
    client was given under the suffix of round [r]. *)
Definition asked (r : nat) (tol_tag : Signal) : Event :=
  Get transfer_variable.arbiter_tol (RSignal tol_tag) 0 (Some (STuple [r])).

(** How the loop of a client ends, on the values [sigs] it was given on
    [arbiter_tol]: it leaves on the first that equals 1, and returns;
    with none that does, it returns only when its budget is used up. *)
Definition exit_on_signal (sigs : list Signal) (r : Result unit)
           (budget_used_up : Prop) : Prop :=
  (exists sigs0 tol_tag,
      sigs = sigs0 ++ [tol_tag] /\
      Forall (fun t => eq_one t = false) sigs0 /\
      eq_one tol_tag = true /\ r = Ok tt) \/
  (Forall (fun t => eq_one t = false) sigs /\
   (r = Ok tt -> budget_used_up)).

(** The messages of one arbiter round that runs to its end: round [r],
    the two tables of distances [p1] and [p2], the assignment [a] and
    the two tolerances [tol1] and [tol2] it was given; what goes out on
    [arbiter_tol] is their sum. *)
Definition arbiter_round_events (r : nat) (p1 p2 : Table) (a : Assign)
           (tol1 tol2 : float) : list Event :=
  [Get transfer_variable.guest_dist (RTable p1) 0 (Some (SInt r));
   Get transfer_variable.host_dist (RTable p2) (-1) (Some (SInt r));
   Remote transfer_variable.cluster_result (PAssign a) GUEST (-1)
          (Some (SInt r));
   Remote transfer_variable.cluster_result (PAssign a) HOST (-1)
          (Some (SInt r));
   Get transfer_variable.guest_tol (RNumber tol1) 0 (Some (SInt r));
   Get transfer_variable.host_tol (RNumber tol2) 0 (Some (SInt r));
   Remote transfer_variable.arbiter_tol (PNumber (PrimFloat.add tol1 tol2))
          HOST (-1) None;
   Remote transfer_variable.arbiter_tol (PNumber (PrimFloat.add tol1 tol2))
          GUEST (-1) None].

End Views.

End KmeansTrace.

(** ** Concrete runs

Small collaborators on which the methods above compute. *)

Module Scenario.

Module Boosting.

Import HeteroBoosting.

(** An instance is its label; a booster parameter records the (epoch,
    class) pair it was fitted for; scores are counters. *)
#[export] Instance demo_types : Types := {|
  Instance_ := Label;
  DataBin := DTable Label;
  ScoreRow := nat;
  Weights := nat;
  Loss := nat;
  Meta := unit;
  Param := nat * nat;
  Booster := nat * nat;
  PredictResult := DTable nat;
  Ctx := unit
|}.

(** The distinct labels of a table, in order of first appearance. *)
Definition classes_of (bin : DTable Label) : list Label :=
  fold_left (fun acc kv =>
               if existsb (py_eq (snd kv)) acc then acc
               else acc ++ [snd kv]) bin [].

#[export] Instance demo : Collaborators := {|
  PAILLIER := "Paillier";
  ITERATIVEAFFINE := "IterativeAffine";
  prepare_data := fun data _ => (Ok data, tt);
  get_label := fun bin _ => (Ok bin, tt);
  classify_validate_label :=
    fun bin _ => (Ok (List.length (classes_of bin), classes_of bin), tt);
  regression_validate_label := fun _ _ => (Ok tt, tt);
  get_loss_function := fun _ => (Ok tt, tt);
  get_init_score := fun labels _ _ => (Ok (mapValues (fun _ => 0) labels, 0), tt);
  generate_key := fun _ _ _ => (Ok tt, tt);
  EncryptModeCalculator := fun _ => (Ok tt, tt);
  callback_meta_loss := fun _ => (Ok tt, tt);
  init_validation_strategy := fun _ _ _ => (Ok tt, tt);
  fit_a_booster := fun epoch_idx class_idx _ => (Ok (epoch_idx, class_idx), tt);
  get_model := fun model _ => (Ok (tt, model), tt);
  get_sample_weights := fun _ _ => (Ok 1, tt);
  get_new_predict_score :=
    fun acc w _ _ => (Ok (mapValues (fun v => v + w) acc), tt);
  compute_loss := fun scores _ _ => (Ok (List.length scores), tt);
  callback_metric := fun _ _ _ => (Ok tt, tt);
  run_validation := fun _ _ => (Ok tt, tt);
  check_stop_condition := fun _ _ => (Ok false, tt);
  callback_meta_best := fun _ _ => (Ok tt, tt);
  data_alignment := fun data _ => (Ok data, tt);
  load_booster := fun _ param _ _ _ => (Ok param, tt);
  model_predict := fun _ _ _ => (Ok 1, tt);
  score_to_predict_result := fun _ acc _ => (Ok acc, tt);
  booster_dim_get := fun _ => (Ok 1, tt);
  stop_flag_get := fun _ _ => (Ok false, tt)
|}.

(** An object on which nothing has run yet, set up for two rounds of
    classification. *)
Definition fresh (method : string) : Self :=
  mkSelf CLASSIFICATION 2 method 1024 [] [] [] 1 1 [] 0 [] None tt [] [] [] tt.

(** Labels {0, 1}. *)
Definition binary_data : DTable Label :=
  [(0, LInt 0); (1, LInt 1); (2, LInt 1)].

(** Labels {1, 2}: not a range from zero. *)
Definition shifted_data : DTable Label :=
  [(0, LInt 1); (1, LInt 2); (2, LInt 2)].

(** [shifted_data] loaded, at the point where [fit] calls
    [check_label]. *)
Definition shifted_loaded : Self :=
  set_y shifted_data (set_data_bin shifted_data (fresh "Paillier")).

(** The same, on an object whose [classes_] and [num_classes] hold the
    classes 1 and 2 and their number. *)
Definition shifted_refit : Self :=
  set_num_classes 2 (set_classes_ [LInt 1; LInt 2] shifted_loaded).

(** Five stored boosters with [booster_dim] 2. *)
Definition five_stored : Self :=
  set_booster_dim 2
    (set_boosting_model_list [(0, 0); (0, 1); (1, 0); (1, 1); (2, 0)]
                             (fresh "Paillier")).

End Boosting.

Module FTL.

Import HeteroFTLGuest.

#[export] Instance demo : Collaborators := {|
  Val := nat;
  Model := unit;
  Conv := unit;
  Env := unit;
  convert_instance_table_to_dict := fun v => Ok (v, v, v);
  overlapping_samples_converter := fun a b c d => Ok (a, b, c, d);
  transfer_get := fun _ _ _ => (Ok 100, tt);
  generate_encryption_key_pair := fun _ => (Ok (1, 2), tt);
  set_batch := fun _ _ _ _ _ => (Ok tt, tt);
  set_public_key := fun _ _ => (Ok tt, tt);
  set_host_public_key := fun _ _ => (Ok tt, tt);
  set_private_key := fun _ _ => (Ok tt, tt);
  send_components := fun _ => (Ok 10, tt);
  receive_components := fun _ _ => (Ok tt, tt);
  compute_gradients := fun _ => (Ok tt, tt);
  send_gradients := fun _ => (Ok 20, tt);
  send_loss := fun _ => (Ok 30, tt);
  receive_gradients := fun _ _ _ => (Ok tt, tt);
  compute_components := fun _ => (Ok tt, tt);
  is_converge := fun _ _ => (Ok false, tt);
  decrypt_gradients := fun _ v => Ok v;
  mask_list := fun v m => v + S m;
  mask := fun v m => v + S m;
  unmask_list := fun v m => v - S m;
  unmask := fun v m => v - S m
|}.

(** One outer round of two local iterations. *)
Definition two_local_iterations : Self :=
  mkSelf 1 2 0 tt tt None None None tt 0 [].

End FTL.

Module Kmeans.

Import HeteroKmeans.

(** Both clients report tolerance 0 and every mean exists. *)
#[export] Instance demo : Collaborators := {|
  Data := unit;
  Table := unit;
  Assign := unit;
  Centroid := unit;
  Centroids := unit;
  TolValue := unit;
  Env := unit;
  get_table := fun _ _ _ _ => (Ok tt, tt);
  get_number := fun _ _ _ _ => (Ok PrimFloat.zero, tt);
  get_assign := fun _ _ _ _ => (Ok tt, tt);
  join_add := fun _ _ => Ok tt;
  centroid_assign := fun _ => Ok tt;
  _abnormal_detection := fun _ => Ok tt;
  get_centroid := Ok tt;
  dist_all := fun _ _ _ => (Ok tt, tt);
  cluster_mean := fun _ _ _ => Ok tt
|}.

(** Line 83 of the client, as the file has it. *)
Definition squared_movement : Centroids -> PyList -> Result TolValue :=
  HeteroKmeansClient.squared_movement_of_the_file.

(** The tolerance 2 ** -10. *)
Module tolerance.

Import PrimFloat.

Definition small : float := 0.0009765625%float.

End tolerance.

Definition small : float := tolerance.small.

(** An arbiter with two rounds to go. *)
Definition arbiter : HeteroKmenasArbiter.Self :=
  HeteroKmenasArbiter.mkSelf 0 2 small tt [].

(** A transport that has nothing but [None] for a client that asks for
    [arbiter_tol]. *)
Definition get_signal (_ : TransferVariable) (_ : Z) (_ : option Suffix)
           (_ : Env) : Result Signal * Env :=
  (Ok SigNone, tt).

(** A guest client with [k] clusters and two rounds to go. *)
Definition client (k : nat) : HeteroKmeansClient.Self :=
  HeteroKmeansClient.mkSelf HeteroKmeansClient.HeteroKmeansGuest k 0 2
                            (List_ []) None tt [].

End Kmeans.

End Scenario.

(** The scenarios, run. *)

Module Runs.

Import HeteroKmeans.

Definition arbiter_run :=
  Eval vm_compute in
    HeteroKmenasArbiter.fit (H := Scenario.Kmeans.demo) Scenario.Kmeans.arbiter.

Definition client_run (k : nat) :=
  HeteroKmeansClient.fit (H := Scenario.Kmeans.demo)
    Scenario.Kmeans.squared_movement Scenario.Kmeans.get_signal tt
    (Scenario.Kmeans.client k).

Definition client_run_1 := Eval vm_compute in client_run 1.

Definition client_run_2 := Eval vm_compute in client_run 2.

Definition two_local_run :=
  Eval vm_compute in
    HeteroFTLGuest.fit (H := Scenario.FTL.demo) 5 Scenario.FTL.two_local_iterations.

(** The three stages of the guest's [fit] on labels {0, 1}. *)
Definition binary_setup :=
  Eval vm_compute in
    @HeteroBoostingGuest.fit_setup _ Scenario.Boosting.demo
      Scenario.Boosting.binary_data None (Scenario.Boosting.fresh "Paillier").

Definition binary_loop :=
  Eval vm_compute in
    @HeteroBoostingGuest.fit_loop _ Scenario.Boosting.demo (snd binary_setup).

Definition binary_report :=
  Eval vm_compute in
    @HeteroBoostingGuest.fit_report _ Scenario.Boosting.demo (snd binary_loop).

(** The guest's [fit] on labels {1, 2}. *)
Definition shifted_fit :=
  Eval vm_compute in
    @HeteroBoostingGuest.fit _ Scenario.Boosting.demo
      Scenario.Boosting.shifted_data None (Scenario.Boosting.fresh "Paillier").

(** [check_label] on labels {1, 2}, when the attributes already hold the
    classes. *)
Definition shifted_refit_check :=
  Eval vm_compute in
    @HeteroBoosting.check_label _ Scenario.Boosting.demo
      Scenario.Boosting.shifted_refit.

(** The guest's [predict] on five stored boosters of dimension 2. *)
Definition five_stored_predict :=
  Eval vm_compute in
    @HeteroBoostingGuest.predict _ Scenario.Boosting.demo
      Scenario.Boosting.binary_data Scenario.Boosting.five_stored.

End Runs.

(** ** What a run of the boosting host shows, and what the two parties
    show together *)

Module BoostingRounds.

Import HeteroBoosting HeteroBoostingSpec BoostingTrace.

Section Views.

Context `{Collaborators}.

(** The rounds whose stop flag the host asked for, in order. *)
Fixpoint got_flags (l : list Event) : list nat :=
  match l with
  | [] => []
  | GetStopFlag n :: l' => n :: got_flags l'
  | _ :: l' => got_flags l'
  end.

(** The booster dimensions the guest sent, in order. *)
Fixpoint sent_dims (l : list Event) : list nat :=
  match l with
  | [] => []
  | RemoteBoosterDim d :: l' => d :: sent_dims l'
  | _ :: l' => sent_dims l'
  end.

(** The transfer variable can hand the host flag [b] for round [e]. *)
Definition received (e : nat) (b : bool) : Prop :=
  exists st c, stop_flag_get e st = (Ok b, c).

(** The flags of a run of the host's epoch loop that started at round
    [a]: [false] in every round but the last, which is [true] unless the
    loop used up its [n] rounds. *)
Definition flags_of_run (a n : nat) (bs : list bool) : Prop :=
  (forall i b, nth_error bs i = Some b -> received (a + i) b) /\
  (bs = repeat false n \/ exists r0, bs = repeat false r0 ++ [true]).

(** What the host's [fit] has added between [s] and [s']: [r] rounds,
    one stop flag asked for per round, one booster per class and round
    in the order of [replay_order], and no loss. *)
Definition host_rounds_accounted (s s' : Self) : Prop :=
  exists bs,
    let r := List.length bs in
    r <= boosting_round s /\
    flags_of_run 0 (boosting_round s) bs /\
    got_flags (log s') = got_flags (log s) ++ range r /\
    fitted (log s') = fitted (log s) ++ replay_order r (booster_dim s') /\
    List.length (boosting_model_list s') =
      List.length (boosting_model_list s) + r * booster_dim s' /\
    history_loss s' = history_loss s /\
    y_hat s' = y_hat s /\
    exists st c, booster_dim_get st = (Ok (booster_dim s'), c).

(** What [predict] reads and must find again afterwards. *)
Record same_model (s s' : Self) : Prop := {
  sm_models : boosting_model_list s' = boosting_model_list s;
  sm_dim : booster_dim s' = booster_dim s;
  sm_meta : booster_meta s' = booster_meta s;
  sm_init : init_score s' = init_score s;
  sm_loss : history_loss s' = history_loss s;
  sm_classes : classes_ s' = classes_ s;
  sm_y : y s' = y s;
  sm_y_hat : y_hat s' = y_hat s;
  sm_round : boosting_round s' = boosting_round s
}.

(** A class that is an int of [range(n)]. *)
Definition int_below (n : nat) (c : Label) : bool :=
  match c with
  | LInt z => (0 <=? z)%Z && (z <? Z.of_nat n)%Z
  | _ => false
  end.

Definition is_str (c : Label) : bool :=
  match c with
  | LStr _ => true
  | _ => false
  end.

End Views.

End BoostingRounds.


(** Further objects and runs of the boosting demo. *)

Module BoostingCases.

Import HeteroBoosting Scenario.Boosting.

(** An object asked for no round. *)
Definition no_round : Self :=
  mkSelf CLASSIFICATION 0 "Paillier" 1024 [] [] [] 1 1 [] 0 [] None tt [] [] [] tt.

(** Five stored boosters and a booster dimension of 0. *)
Definition zero_dim : Self := set_booster_dim 0 five_stored.

(** Labels {0, 1} loaded, at the point where [fit] calls [check_label]. *)
Definition binary_loaded : Self :=
  set_y binary_data (set_data_bin binary_data (fresh "Paillier")).

(** A label table with an int and a string. *)
Definition mixed_data : DTable Label := [(0, LInt 1); (1, LStr "a")].

Definition mixed_loaded : Self :=
  set_y mixed_data (set_data_bin mixed_data (fresh "Paillier")).

Definition binary_fit :=
  Eval vm_compute in
    @HeteroBoostingGuest.fit _ demo binary_data None (fresh "Paillier").

Definition host_fit :=
  Eval vm_compute in
    @HeteroBoostingHost.fit _ demo binary_data None (fresh "Paillier").

Definition no_round_setup :=
  Eval vm_compute in
    @HeteroBoostingGuest.fit_setup _ demo binary_data None no_round.

Definition upper_case_encrypter :=
  Eval vm_compute in @generate_encrypter _ demo (fresh "PAILLIER").

End BoostingCases.

(** ** Hetero FTL: the base guest, the plain and the centrally encrypted
    schemes, and the factory ([hetero_ftl_guest.py], lines 39-248 and
    469-491) *)

Module HeteroFTL.

(** The transfer variables these classes use. *)

Module transfer_variable.

Inductive t : Type :=
| guest_sample_indexes
| host_sample_indexes
| host_prob
| pred_prob
| guest_component_list
| host_component_list
| is_stopped
| paillier_pubkey
| encrypt_guest_gradient
| decrypt_guest_gradient
| encrypt_loss
| is_encrypted_ftl_stopped.

End transfer_variable.

Definition TransferVariable : Type := transfer_variable.t.

(** [consts.HOST] and [consts.ARBITER] *)
Inductive Role : Type := HOST | ARBITER.

(** The collaborators: the conversion helpers of [common_data_util],
    the numpy calls, the local model (its methods take the keyword
    arguments the call sites give), the convergence function, the
    transport, and the truth value Python gives a received object. *)
Class Collaborators : Type := {
  Val : Type;
  Model : Type;
  Conv : Type;
  Env : Type;
  convert_instance_table_to_dict : Val -> Result (Val * Val * Val);
  convert_instance_table_to_array : Val -> Result (Val * Val * Val);
  np_array : Val -> Result Val;
  np_squeeze : Val -> Result Val;
  np_expand_dims : Val -> nat -> Result Val;
  overlapping_samples_converter :
    Val -> Val -> Val -> Val -> Result (Val * Val * Val * Val);
  transfer_get : TransferVariable -> option nat -> Env -> Result Val * Env;
  set_batch : Val -> Val -> option (Val * Val) -> Model -> Result unit * Model;
  set_public_key : Val -> Model -> Result unit * Model;
  send_components : Model -> Result Val * Model;
  receive_components : Val -> option nat -> Model -> Result unit * Model;
  send_gradients : Model -> Result Val * Model;
  receive_gradients : Val -> nat -> Model -> Result unit * Model;
  send_loss : Model -> Result Val * Model;
  model_predict : Val -> Model -> Result Val * Model;
  is_converge : Val -> Conv -> Result bool * Conv;
  truth : Val -> bool
}.

Inductive Payload `{Collaborators} : Type :=
| PVal (v : Val)
| PBool (b : bool).

(** What the guest does to the outside, in order. *)
Inductive Event `{Collaborators} : Type :=
| Remote (name : TransferVariable) (tag : option nat) (payload : Payload)
         (role : Role)
| Get (name : TransferVariable) (tag : option nat) (v : Val)
| IsConverge (loss : Val).

Record Self `{Collaborators} : Type := mkSelf {
  max_iter : nat;
  local_iterations : nat;
  n_iter_ : nat;
  guest_model : Model;
  converge_func : Conv;
  env : Env;
  trace : list Event
}.

Section Methods.

Context `{Collaborators}.

Definition set_n_iter_ v (s : Self) : Self :=
  mkSelf (max_iter s) (local_iterations s) v (guest_model s)
    (converge_func s) (env s) (trace s).

Definition set_guest_model v (s : Self) : Self :=
  mkSelf (max_iter s) (local_iterations s) (n_iter_ s) v
    (converge_func s) (env s) (trace s).

Definition set_converge_func v (s : Self) : Self :=
  mkSelf (max_iter s) (local_iterations s) (n_iter_ s) (guest_model s)
    v (env s) (trace s).

Definition set_env v (s : Self) : Self :=
  mkSelf (max_iter s) (local_iterations s) (n_iter_ s) (guest_model s)
    (converge_func s) v (trace s).

Definition set_trace v (s : Self) : Self :=
  mkSelf (max_iter s) (local_iterations s) (n_iter_ s) (guest_model s)
    (converge_func s) (env s) v.

Definition emit (e : Event) : M Self unit :=
  modify (fun s => set_trace (trace s ++ [e]) s).

(** A method of [self.guest_model]. *)
Definition on_model {A} (f : Model -> Result A * Model) : M Self A :=
  fun s => let (r, m) := f (guest_model s) in (r, set_guest_model m s).

(** [self.converge_func.is_converge(loss)] *)
Definition converged (loss : Val) : M Self bool :=
  emit (IsConverge loss) ;;
  (fun s => let (r, c) := is_converge loss (converge_func s)
            in (r, set_converge_func c s)).

(** [self._do_remote(value, name=..., tag=..., role=..., idx=-1)] *)
Definition _do_remote (payload : Payload) (name : TransferVariable)
           (tag : option nat) (role : Role) : M Self unit :=
  emit (Remote name tag payload role).

(** [self._do_get(name=..., tag=..., idx=-1)[0]] *)
Definition _do_get (name : TransferVariable) (tag : option nat)
  : M Self Val :=
  fun s =>
    match transfer_get name tag (env s) with
    | (Ok v, e) => (Ok v, set_trace (trace s ++ [Get name tag v]) (set_env e s))
    | (Raise x, e) => (Raise x, set_env e s)
    end.

(** [set_converge_function], lines 52-53. *)
Definition set_converge_function (converge_func : Conv) : M Self unit :=
  modify (set_converge_func converge_func).

(** [prepare_data], lines 55-73. *)
Definition prepare_data (guest_data : Val)
  : M Self (Val * Val * Val * Val) :=
  '(guest_features_dict, guest_label_dict, guest_sample_indexes) <-
     lift (convert_instance_table_to_dict guest_data) ;;
  guest_sample_indexes <- lift (np_array guest_sample_indexes) ;;
  _do_remote (PVal guest_sample_indexes)
             transfer_variable.guest_sample_indexes None HOST ;;
  host_sample_indexes <- _do_get transfer_variable.host_sample_indexes None ;;
  lift (overlapping_samples_converter
          guest_features_dict guest_sample_indexes host_sample_indexes
          guest_label_dict).

(** [predict], lines 75-95: returns [None]. *)
Definition predict (guest_data : Val) : M Self unit :=
  '(features, labels, instances_indexes) <-
     lift (convert_instance_table_to_array guest_data) ;;
  guest_x <- lift (np_squeeze features) ;;
  guest_y <- lift (np_expand_dims labels 1) ;;
  host_prob <- _do_get transfer_variable.host_prob None ;;
  on_model (set_batch guest_x guest_y None) ;;
  pred_prob <- on_model (model_predict host_prob) ;;
  _do_remote (PVal pred_prob) transfer_variable.pred_prob None HOST.

End Methods.

End HeteroFTL.

Module HeteroPlainFTLGuest.

Import HeteroFTL.

Section Methods.

Context `{Collaborators}.

(** Lines 128-158: one pass of the loop, from the value of [is_stop] on
    entry to its value on exit. *)
Definition fit_round (is_stop : bool) : M Self bool :=
  guest_comp <- on_model send_components ;;
  n <- gets n_iter_ ;;
  _do_remote (PVal guest_comp) transfer_variable.guest_component_list
             (Some n) HOST ;;
  host_comp <- _do_get transfer_variable.host_component_list (Some n) ;;
  on_model (receive_components host_comp (Some n)) ;;
  loss <- on_model send_loss ;;
  stop <- converged loss ;;
  let is_stop' := if stop : bool then true else is_stop in
  n' <- gets n_iter_ ;;
  _do_remote (PBool is_stop') transfer_variable.is_stopped (Some n') HOST ;;
  modify (fun s => set_n_iter_ (n_iter_ s + 1) s) ;;
  ret is_stop'.

(** Lines 127-158: [while self.n_iter_ < self.max_iter], at most [fuel]
    passes. *)
Fixpoint fit_rounds (fuel : nat) (is_stop : bool) : M Self unit :=
  n <- gets n_iter_ ;;
  bound <- gets max_iter ;;
  if n <? bound then
    match fuel with
    | O => raise OutOfFuel
    | S fuel' =>
        is_stop' <- fit_round is_stop ;;
        if is_stop' : bool then ret tt else fit_rounds fuel' is_stop'
    end
  else ret tt.

(** [fit], lines 113-161. *)
Definition fit (guest_data : Val) : M Self unit :=
  '(guest_x, overlap_indexes, non_overlap_indexes, guest_y) <-
     prepare_data guest_data ;;
  on_model (set_batch guest_x guest_y
                      (Some (non_overlap_indexes, overlap_indexes))) ;;
  n <- gets n_iter_ ;;
  bound <- gets max_iter ;;
  fit_rounds (bound - n) false.

End Methods.

End HeteroPlainFTLGuest.

Module HeteroEncryptFTLGuest.

Import HeteroFTL.

Section Methods.

Context `{Collaborators}.

(** Lines 198-245: one pass of the loop; the value received as
    [is_stop]. *)
Definition fit_round : M Self Val :=
  guest_comp <- on_model send_components ;;
  n <- gets n_iter_ ;;
  _do_remote (PVal guest_comp) transfer_variable.guest_component_list
             (Some n) HOST ;;
  host_comp <- _do_get transfer_variable.host_component_list (Some n) ;;
  on_model (receive_components host_comp None) ;;
  encrypt_guest_gradients <- on_model send_gradients ;;
  _do_remote (PVal encrypt_guest_gradients)
             transfer_variable.encrypt_guest_gradient (Some n) ARBITER ;;
  decrypt_guest_gradients <-
    _do_get transfer_variable.decrypt_guest_gradient (Some n) ;;
  on_model (receive_gradients decrypt_guest_gradients n) ;;
  encrypt_loss <- on_model send_loss ;;
  _do_remote (PVal encrypt_loss) transfer_variable.encrypt_loss
             (Some n) ARBITER ;;
  is_stop <- _do_get transfer_variable.is_encrypted_ftl_stopped (Some n) ;;
  modify (fun s => set_n_iter_ (n_iter_ s + 1) s) ;;
  ret is_stop.

(** Lines 196-245: [while self.n_iter_ < self.max_iter], at most [fuel]
    passes. *)
Fixpoint fit_rounds (fuel : nat) : M Self unit :=
  n <- gets n_iter_ ;;
  bound <- gets max_iter ;;
  if n <? bound then
    match fuel with
    | O => raise OutOfFuel
    | S fuel' =>
        is_stop <- fit_round ;;
        if truth is_stop then ret tt else fit_rounds fuel'
    end
  else ret tt.

(** [fit], lines 178-248. *)
Definition fit (guest_data : Val) : M Self unit :=
  public_key <- _do_get transfer_variable.paillier_pubkey None ;;
  '(guest_x, overlap_indexes, non_overlap_indexes, guest_y) <-
     prepare_data guest_data ;;
  on_model (set_batch guest_x guest_y
                      (Some (non_overlap_indexes, overlap_indexes))) ;;
  on_model (set_public_key public_key) ;;
  n <- gets n_iter_ ;;
  bound <- gets max_iter ;;
  fit_rounds (bound - n).

End Methods.

End HeteroEncryptFTLGuest.

Module GuestFactory.

(** The three guest classes and the two model classes the factory
    chooses between. *)
Inductive GuestClass : Type :=
| HeteroPlainFTLGuest
| HeteroEncryptFTLGuest
| HeteroDecentralizedEncryptFTLGuest.

Inductive ModelClass : Type :=
| PlainFTLGuestModel
| EncryptedFTLGuestModel.

Section Create.

(** The local model handed in, the guest model built around it, the
    convergence function, and the field [eps] of the parameters. *)
Variables LocalModel GuestModel Conv Eps : Type.

Record FTLModelParam : Type := mkParam {
  is_encrypt : bool;
  enc_ftl : string;
  max_iter : nat;
  local_iterations : nat;
  eps : Eps
}.

(** The constructors of the two model classes and [DiffConverge(eps=...)]. *)
Variable new_model :
  ModelClass -> LocalModel -> FTLModelParam -> Result GuestModel.
Variable DiffConverge : Eps -> Result Conv.

(** A guest as its constructor leaves it. *)
Record Guest : Type := mkGuest {
  class_ : GuestClass;
  guest_model : GuestModel;
  model_param : FTLModelParam;
  g_max_iter : nat;
  g_local_iterations : nat;
  n_iter_ : nat;
  converge_func : Conv
}.

(** [HeteroFTLGuest.__init__], lines 41-50, which the three classes
    share. *)
Definition __init__ (cls : GuestClass) (guest : GuestModel)
           (model_param : FTLModelParam) : Result Guest :=
  match DiffConverge (eps model_param) with
  | Raise e => Raise e
  | Ok conv =>
      Ok (mkGuest cls guest model_param (max_iter model_param)
                  (local_iterations model_param) 0 conv)
  end.

Definition not_supported (name : string) : Exn :=
  Exception (name ++ " is not a supported ftl model,").

(** [GuestFactory.create], lines 471-491. *)
Definition create (ftl_model_param : FTLModelParam)
           (ftl_local_model : LocalModel) : Result Guest :=
  if is_encrypt ftl_model_param then
    if String.eqb (enc_ftl ftl_model_param) "dct_enc_ftl" then
      match new_model EncryptedFTLGuestModel ftl_local_model ftl_model_param with
      | Raise e => Raise e
      | Ok guest_model =>
          __init__ HeteroDecentralizedEncryptFTLGuest guest_model
                   ftl_model_param
      end
    else if String.eqb (enc_ftl ftl_model_param) "enc_ftl" then
      match new_model EncryptedFTLGuestModel ftl_local_model ftl_model_param with
      | Raise e => Raise e
      | Ok guest_model =>
          __init__ HeteroEncryptFTLGuest guest_model ftl_model_param
      end
    else Raise (not_supported (enc_ftl ftl_model_param))
  else
    match new_model PlainFTLGuestModel ftl_local_model ftl_model_param with
    | Raise e => Raise e
    | Ok guest_model =>
        __init__ HeteroPlainFTLGuest guest_model ftl_model_param
    end.

End Create.

End GuestFactory.

(** ** What a trace of these guests shows *)

Module FTLRounds.

Import HeteroFTL.

Module tv := HeteroFTL.transfer_variable.

Section Views.

Context `{Collaborators}.

(** The stop flags the plain guest sent, with their tags. *)
Fixpoint stops (T : list Event) : list (option nat * bool) :=
  match T with
  | [] => []
  | Remote transfer_variable.is_stopped tag (PBool b) _ :: T' =>
      (tag, b) :: stops T'
  | _ :: T' => stops T'
  end.

(** The stop signals the centrally encrypted guest received. *)
Fixpoint stop_signals (T : list Event) : list (option nat * Val) :=
  match T with
  | [] => []
  | Get transfer_variable.is_encrypted_ftl_stopped tag v :: T' =>
      (tag, v) :: stop_signals T'
  | _ :: T' => stop_signals T'
  end.

(** The losses [is_converge] was called on. *)
Fixpoint converge_calls (T : list Event) : list Val :=
  match T with
  | [] => []
  | IsConverge loss :: T' => loss :: converge_calls T'
  | _ :: T' => converge_calls T'
  end.

(** Rounds [a], [a + 1], ..., [a + m - 1], none of which stopped. *)
Definition going (a m : nat) : list (option nat * bool) :=
  map (fun n => (Some n, false)) (seq a m).

(** Everything the plain guest may do to the outside: sample indexes,
    components and the stop flag go to the host; sample indexes and
    components come back. *)
Definition plain_event (e : Event) : bool :=
  match e with
  | Remote transfer_variable.guest_sample_indexes None (PVal _) HOST => true
  | Remote transfer_variable.guest_component_list (Some _) (PVal _) HOST => true
  | Remote transfer_variable.is_stopped (Some _) (PBool _) HOST => true
  | Get transfer_variable.host_sample_indexes None _ => true
  | Get transfer_variable.host_component_list (Some _) _ => true
  | IsConverge _ => true
  | _ => false
  end.

(** A stretch of trace of the plain guest, read with the round counter
    at [n]: the sample indexes are untagged; components go to the host
    and come back under the number of the round, and so does the stop
    flag to the host, after which the counter is one up.  Nothing else
    is sent or received. *)
Fixpoint plain_trace (n : nat) (T : list Event) : bool :=
  match T with
  | [] => true
  | Remote transfer_variable.guest_sample_indexes None (PVal _) HOST :: T' =>
      plain_trace n T'
  | Get transfer_variable.host_sample_indexes None _ :: T' => plain_trace n T'
  | Remote transfer_variable.guest_component_list (Some t) (PVal _) HOST
    :: T' => (t =? n) && plain_trace n T'
  | Get transfer_variable.host_component_list (Some t) _ :: T' =>
      (t =? n) && plain_trace n T'
  | IsConverge _ :: T' => plain_trace n T'
  | Remote transfer_variable.is_stopped (Some t) (PBool _) HOST :: T' =>
      (t =? n) && plain_trace (S n) T'
  | _ => false
  end.

(** What a step of the plain guest adds to the trace, read with the
    round counter: the counter is up by the number of stop flags sent,
    and the round budget is as it was. *)
Definition counted (s s' : Self) (T : list Event) : Prop :=
  trace s' = trace s ++ T /\ plain_trace (n_iter_ s) T = true /\
  n_iter_ s' = n_iter_ s + List.length (stops T) /\
  max_iter s' = max_iter s.

(** Everything the centrally encrypted guest may do to the outside:
    sample indexes and components go to the host, gradients and loss to
    the arbiter, and the guest does not test convergence itself. *)
Definition encrypt_event (e : Event) : bool :=
  match e with
  | Remote transfer_variable.guest_sample_indexes None (PVal _) HOST => true
  | Remote transfer_variable.guest_component_list (Some _) (PVal _) HOST => true
  | Remote transfer_variable.encrypt_guest_gradient (Some _) (PVal _) ARBITER =>
      true
  | Remote transfer_variable.encrypt_loss (Some _) (PVal _) ARBITER => true
  | Get transfer_variable.paillier_pubkey None _ => true
  | Get transfer_variable.host_sample_indexes None _ => true
  | Get transfer_variable.host_component_list (Some _) _ => true
  | Get transfer_variable.decrypt_guest_gradient (Some _) _ => true
  | Get transfer_variable.is_encrypted_ftl_stopped (Some _) _ => true
  | _ => false
  end.

(** The signals of rounds [a], [a + 1], ...: each under its round, and
    none but the last one true. *)
Fixpoint signals_from (a : nat) (l : list (option nat * Val)) : Prop :=
  match l with
  | [] => True
  | (tag, v) :: l' =>
      tag = Some a /\ (l' <> [] -> truth v = false) /\ signals_from (S a) l'
  end.

End Views.

End FTLRounds.


(** ** Concrete runs of the plain and the centrally encrypted guests *)

Module FTLCases.

Import HeteroFTL.

(** A host that answers every request with 7; an arbiter whose stop
    signal is 0 in round 0 and 1 from round 1 on; a model whose loss is
    30; a convergence function that says yes from its third call on. *)
#[export] Instance demo : Collaborators := {|
  Val := nat;
  Model := unit;
  Conv := nat;
  Env := unit;
  convert_instance_table_to_dict := fun v => Ok (v, v, v);
  convert_instance_table_to_array := fun v => Ok (v, v, v);
  np_array := fun v => Ok v;
  np_squeeze := fun v => Ok v;
  np_expand_dims := fun v _ => Ok v;
  overlapping_samples_converter := fun a b c d => Ok (a, b, c, d);
  transfer_get :=
    fun name tag _ =>
      match name, tag with
      | transfer_variable.is_encrypted_ftl_stopped, Some n =>
          (Ok (if 1 <=? n then 1 else 0), tt)
      | _, _ => (Ok 7, tt)
      end;
  set_batch := fun _ _ _ _ => (Ok tt, tt);
  set_public_key := fun _ _ => (Ok tt, tt);
  send_components := fun _ => (Ok 10, tt);
  receive_components := fun _ _ _ => (Ok tt, tt);
  send_gradients := fun _ => (Ok 20, tt);
  receive_gradients := fun _ _ _ => (Ok tt, tt);
  send_loss := fun _ => (Ok 30, tt);
  model_predict := fun v _ => (Ok v, tt);
  is_converge := fun _ calls => (Ok (2 <=? calls), S calls);
  truth := fun v => negb (v =? 0)
|}.

(** A guest with five rounds to go. *)
Definition five_rounds : Self := mkSelf 5 1 0 tt 0 tt [].

Definition plain_run :=
  Eval vm_compute in HeteroPlainFTLGuest.fit (H := demo) 5 five_rounds.

Definition encrypt_run :=
  Eval vm_compute in HeteroEncryptFTLGuest.fit (H := demo) 5 five_rounds.

End FTLCases.

(** ** The rounds of the decentralized FTL guest *)

Module DctRounds.

Import HeteroFTLGuest.

Section Views.

Context `{Collaborators}.

(** The stop flags the guest sent, with their tags. *)
Fixpoint stops (T : list Event) : list (option nat * bool) :=
  match T with
  | [] => []
  | Remote transfer_variable.is_decentralized_enc_ftl_stopped tag (PBool b)
    :: T' => (tag, b) :: stops T'
  | _ :: T' => stops T'
  end.

(** The exchange of public keys. *)
Definition is_key_traffic (e : Event) : bool :=
  match e with
  | Remote transfer_variable.guest_public_key _ _ => true
  | Get transfer_variable.host_public_key _ _ => true
  | _ => false
  end.

Definition key_traffic (T : list Event) : list Event :=
  filter is_key_traffic T.

(** Rounds [a], [a + 1], ..., [a + m - 1], none of which stopped. *)
Definition going (a m : nat) : list (option nat * bool) :=
  map (fun n => (Some n, false)) (seq a m).

(** What [fit] does before its loop: the two public keys cross under the
    tag of the round counter, then the two lists of sample indexes,
    untagged. *)
Definition preparation (n : nat) (pub hk idx hidx : Val) : list Event :=
  [Remote transfer_variable.guest_public_key (Some n) (PVal pub);
   Get transfer_variable.host_public_key (Some n) hk;
   Remote transfer_variable.guest_sample_indexes None (PVal idx);
   Get transfer_variable.host_sample_indexes None hidx].

End Views.

End DctRounds.

(** A decentralized guest with five rounds of one local iteration to go,
    and a convergence function that says yes from its third call on. *)

Module DctCases.

Import HeteroFTLGuest.

#[export] Instance demo : Collaborators := {|
  Val := nat;
  Model := unit;
  Conv := nat;
  Env := unit;
  convert_instance_table_to_dict := fun v => Ok (v, v, v);
  overlapping_samples_converter := fun a b c d => Ok (a, b, c, d);
  transfer_get := fun _ _ _ => (Ok 100, tt);
  generate_encryption_key_pair := fun _ => (Ok (1, 2), tt);
  set_batch := fun _ _ _ _ _ => (Ok tt, tt);
  set_public_key := fun _ _ => (Ok tt, tt);
  set_host_public_key := fun _ _ => (Ok tt, tt);
  set_private_key := fun _ _ => (Ok tt, tt);
  send_components := fun _ => (Ok 10, tt);
  receive_components := fun _ _ => (Ok tt, tt);
  compute_gradients := fun _ => (Ok tt, tt);
  send_gradients := fun _ => (Ok 20, tt);
  send_loss := fun _ => (Ok 30, tt);
  receive_gradients := fun _ _ _ => (Ok tt, tt);
  compute_components := fun _ => (Ok tt, tt);
  is_converge := fun _ calls => (Ok (2 <=? calls), S calls);
  decrypt_gradients := fun _ v => Ok v;
  mask_list := fun v m => v + S m;
  mask := fun v m => v + S m;
  unmask_list := fun v m => v - S m;
  unmask := fun v m => v - S m
|}.

Definition five_rounds : Self := mkSelf 5 1 0 tt 0 None None None tt 0 [].

Definition run := Eval vm_compute in fit (H := demo) 5 five_rounds.

(** The same guest once more, on the object the first [fit] left. *)
Definition second_run := Eval vm_compute in fit (H := demo) 5 (snd run).

End DctCases.

(** ** The rounds of the k-means arbiter, and the two clients side by
    side *)

Module KmeansRounds.

Import HeteroKmeans KmeansTrace.

Section Views.

Context `{Collaborators}.

(** What an arbiter round that ran to its end was given, and the
    assignment it sent. *)
Record Round : Type := mkRound {
  guest_distances : Table;
  host_distances : Table;
  assignment : Assign;
  guest_tolerance : float;
  host_tolerance : float
}.

(** The assignment of a round is [centroid_assign] of the two tables of
    distances, joined. *)
Definition assigned (x : Round) : Prop :=
  exists dist_sum,
    join_add (guest_distances x) (host_distances x) = Ok dist_sum /\
    centroid_assign dist_sum = Ok (assignment x).

(** [n = tol1 + tol2] *)
Definition combined (x : Round) : float :=
  PrimFloat.add (guest_tolerance x) (host_tolerance x).

Definition round_events (r : nat) (x : Round) : list Event :=
  arbiter_round_events r (guest_distances x) (host_distances x)
                       (assignment x) (guest_tolerance x) (host_tolerance x).

(** The messages of consecutive arbiter rounds from round [r] on. *)
Fixpoint rounds_events (r : nat) (l : list Round) : list Event :=
  match l with
  | [] => []
  | x :: l' => round_events r x ++ rounds_events (S r) l'
  end.

(** A message of the guest client, as the host client sends it. *)
Definition to_host (e : Event) : Event :=
  match e with
  | Remote transfer_variable.guest_dist p role idx suffix =>
      Remote transfer_variable.host_dist p role idx suffix
  | Remote transfer_variable.guest_tol p role idx suffix =>
      Remote transfer_variable.host_tol p role idx suffix
  | _ => e
  end.

(** The host client that stands where a guest client stands: the other
    binding, and the messages sent so far on the host's channels. *)
Definition as_host (g : HeteroKmeansClient.Self) : HeteroKmeansClient.Self :=
  HeteroKmeansClient.mkSelf
    HeteroKmeansClient.HeteroKmeansHost
    (HeteroKmeansClient.k g) (HeteroKmeansClient.n_iter_ g)
    (HeteroKmeansClient.max_iter g) (HeteroKmeansClient.centroid_list g)
    (HeteroKmeansClient.cluster_result_ g) (HeteroKmeansClient.env g)
    (map to_host (HeteroKmeansClient.sent g)).

End Views.

End KmeansRounds.

(** ** The static helpers of the k-means client
    ([hetero_kmeans_client.py], lines 48-60) *)

Module HeteroKmeansClientHelpers.

(** [l[i]] for a non-negative index. *)
Definition getitem {A} (l : list A) (i : nat) : Result A :=
  match nth_error l i with
  | Some a => Ok a
  | None => Raise IndexError
  end.

Section TolCal.

(** The numbers in the centroids, with [+] and [power(a - b, 2)]. *)
Variable Num : Type.
Variable zero : Num.
Variable add : Num -> Num -> Num.
Variable power_diff_2 : Num -> Num -> Num.

(** Lines 52-53: the loop over [j], on the values of [j] still to visit,
    [diffs] being the sum so far. *)
Fixpoint tol_cal_row (js : list nat) (i : nat) (clu1 clu2 : list (list Num))
         (diffs : Num) : Result Num :=
  match js with
  | [] => Ok diffs
  | j :: rest =>
      match getitem clu1 i with
      | Raise e => Raise e
      | Ok row1 =>
          match getitem row1 j with
          | Raise e => Raise e
          | Ok a =>
              match getitem clu2 i with
              | Raise e => Raise e
              | Ok row2 =>
                  match getitem row2 j with
                  | Raise e => Raise e
                  | Ok b =>
                      tol_cal_row rest i clu1 clu2
                                  (add diffs (power_diff_2 a b))
                  end
              end
          end
      end
  end.

(** Lines 51-53: the loop over [i]; [range(0, len(clu1[1]))] is
    evaluated anew in every pass. *)
Fixpoint tol_cal_rows (rows : list nat) (clu1 clu2 : list (list Num))
         (diffs : Num) : Result Num :=
  match rows with
  | [] => Ok diffs
  | i :: rest =>
      match getitem clu1 1 with
      | Raise e => Raise e
      | Ok second =>
          match tol_cal_row (seq 0 (List.length second)) i clu1 clu2 diffs with
          | Raise e => Raise e
          | Ok diffs' => tol_cal_rows rest clu1 clu2 diffs'
          end
      end
  end.

(** [tol_cal], lines 48-54. *)
Definition tol_cal (clu1 clu2 : list (list Num)) : Result Num :=
  tol_cal_rows (seq 0 (List.length clu1)) clu1 clu2 zero.

(** The entry at row [i], column [j]. *)
Definition at_ (clu : list (list Num)) (i j : nat) : Num :=
  nth j (nth i clu []) zero.

(** The squared differences of the first [w] columns of the first [h]
    rows, row by row. *)
Definition squared_differences (h w : nat) (clu1 clu2 : list (list Num))
  : list Num :=
  flat_map (fun i => map (fun j => power_diff_2 (at_ clu1 i j) (at_ clu2 i j))
                         (seq 0 w))
           (seq 0 h).

(** Row [i] of [clu] exists and has at least [w] entries. *)
Definition wide (w : nat) (clu : list (list Num)) (i : nat) : Prop :=
  exists row, nth_error clu i = Some row /\ w <= List.length row.

End TolCal.

Section GetSum.

(** A [dict]: its keys in insertion order, each with its value.  [x1] is
    updated in place, so a call leaves a store behind whether it returns
    or raises. *)
Variable K V : Type.
Variable eqb : K -> K -> bool.
Variable add : V -> V -> V.

Definition Dict : Type := list (K * V).

Fixpoint lookup (d : Dict) (k : K) : Result V :=
  match d with
  | [] => Raise KeyError
  | (k', v) :: d' => if eqb k' k then Ok v else lookup d' k
  end.

(** [d[k] = v] for a key [d] holds. *)
Fixpoint store (d : Dict) (k : K) (v : V) : Dict :=
  match d with
  | [] => []
  | (k', v') :: d' =>
      if eqb k' k then (k', v) :: d' else (k', v') :: store d' k v
  end.

(** Lines 58-59, on the keys still to visit. *)
Fixpoint get_sum_loop (keys : list K) (x1 x2 : Dict) : Result unit * Dict :=
  match keys with
  | [] => (Ok tt, x1)
  | items :: rest =>
      match lookup x1 items with
      | Raise e => (Raise e, x1)
      | Ok a =>
          match lookup x2 items with
          | Raise e => (Raise e, x1)
          | Ok b => get_sum_loop rest (store x1 items (add a b)) x2
          end
      end
  end.

(** [get_sum], lines 56-60, on two dicts: what it returns, and [x1] as
    it leaves it. *)
Definition get_sum (x1 x2 : Dict) : Result Dict * Dict :=
  match get_sum_loop (map fst x1) x1 x2 with
  | (Ok _, x1') => (Ok x1', x1')
  | (Raise e, x1') => (Raise e, x1')
  end.

(** [x1] with the value of [x2] added at each of its keys. *)
Fixpoint summed (x1 x2 : Dict) : Dict :=
  match x1 with
  | [] => []
  | (k, a) :: x1' =>
      match lookup x2 k with
      | Ok b => (k, add a b) :: summed x1' x2
      | Raise _ => (k, a) :: x1'
      end
  end.

(** The keys of [x1] up to the first one [x2] does not hold. *)
Fixpoint has_all (x1 x2 : Dict) : bool :=
  match x1 with
  | [] => true
  | (k, _) :: x1' =>
      match lookup x2 k with
      | Ok _ => has_all x1' x2
      | Raise _ => false
      end
  end.

End GetSum.

End HeteroKmeansClientHelpers.

(** ** The class mapping of [check_label] *)

Module ClassMapping.

Import HeteroBoosting.

(** The place of the first class equal to [c] (with Python's [==]). *)
Fixpoint position (cs : list Label) (c : Label) : option nat :=
  match cs with
  | [] => None
  | k :: cs' => if py_eq k c then Some 0 else option_map S (position cs' c)
  end.

(** Classes of which no two are equal. *)
Definition distinct (cs : list Label) : Prop :=
  ForallOrdPairs (fun a b => py_eq a b = false) cs.

(** What the remap of line 88 makes of a label, by the classes the
    mapping was built from. *)
Definition remapped (cs : list Label) (c : Label) : Result Label :=
  match position cs c with
  | Some i => Ok (LInt (Z.of_nat i))
  | None => Raise KeyError
  end.

(** A label of [y] and what stands in its place after the remap: the same
    key, and the place of the label's class. *)
Definition placed (cs : list Label) (kv kv' : nat * Label) : Prop :=
  fst kv' = fst kv /\
  exists i, position cs (snd kv) = Some i /\ snd kv' = LInt (Z.of_nat i).

End ClassMapping.

(** A guest fitted on the labels {0, 1, 2} and then given a table with
    the labels {1, 2}. *)

Module ClassMappingCases.

Import HeteroBoosting Scenario.Boosting.

Definition three_class_data : DTable Label :=
  [(0, LInt 0); (1, LInt 1); (2, LInt 2)].

Definition three_class_fit :=
  Eval vm_compute in
    @HeteroBoostingGuest.fit _ demo three_class_data None (fresh "Paillier").

(** The object that [fit] leaves, with [shifted_data] loaded by lines
    123-124 of a second [fit], at the point where it calls
    [check_label]. *)
Definition refit_loaded : Self :=
  set_y shifted_data (set_data_bin shifted_data (snd three_class_fit)).

End ClassMappingCases.

(** ** The tags of the decentralized FTL guest *)

Module DctTags.

Import HeteroFTLGuest.

Definition name_eq_dec (a b : TransferVariable) : {a = b} + {a <> b}.
Proof. decide equality. Defined.

Section Views.

Context `{Collaborators}.

(** The tags of all the messages of a trace, sent or received. *)
Fixpoint tags (T : list Event) : list (option nat) :=
  match T with
  | [] => []
  | Remote _ tag _ :: T' => tag :: tags T'
  | Get _ tag _ :: T' => tag :: tags T'
  | _ :: T' => tags T'
  end.

(** The tags under which one transfer variable was used. *)
Fixpoint uses (name : TransferVariable) (T : list Event)
  : list (option nat) :=
  match T with
  | [] => []
  | Remote name' tag _ :: T' =>
      if name_eq_dec name' name then tag :: uses name T' else uses name T'
  | Get name' tag _ :: T' =>
      if name_eq_dec name' name then tag :: uses name T' else uses name T'
  | _ :: T' => uses name T'
  end.

(** The four transfer variables of the gradients, used in every local
    iteration. *)
Definition gradient_variables : list TransferVariable :=
  [transfer_variable.masked_enc_guest_gradients;
   transfer_variable.masked_enc_host_gradients;
   transfer_variable.masked_dec_host_gradients;
   transfer_variable.masked_dec_guest_gradients].

End Views.

End DctTags.

(** A decentralized guest with two local iterations in a round. *)

Module DctTagCases.

Import HeteroFTLGuest DctCases.

Definition two_local_iterations : Self :=
  mkSelf 5 2 0 tt 0 None None None tt 0 [].

Definition round :=
  Eval vm_compute in fit_round (H := demo) false two_local_iterations.

End DctTagCases.

(** ** The running prediction score *)

Module BoostingScores.

Import HeteroBoosting HeteroBoostingSpec.

Section Scores.

(** The numbers of a score, and their [+]. *)
Variable Num : Type.
Variable add : Num -> Num -> Num.

(** Modelled from the spec: adding to a row at index [dim], the step of
    [get_new_predict_score] on one sample.  A row holds the scores of a
    sample by dimension ("dimension-indexed for multi-class"). *)
Fixpoint add_at (dim : nat) (row : list Num) (w : Num) : list Num :=
  match row, dim with
  | [], _ => []
  | x :: row', O => add x w :: row'
  | x :: row', S dim' => x :: add_at dim' row' w
  end.

(** Modelled from the spec: the update of the running prediction score,
    [get_new_predict_score] of the base class [Boosting], which is not
    among the sources.  The spec: the score is an "accumulator updated
    additively after each booster is fit/loaded", a booster's
    contribution being accumulated "into the output at index [dim]".
    The contribution of a booster gives every sample, by its key, one
    number. *)
Definition new_predict_score (y_hat : DTable (list Num))
           (cur_sample_weights : nat -> Num) (dim : nat)
  : DTable (list Num) :=
  map (fun kv => (fst kv, add_at dim (snd kv) (cur_sample_weights (fst kv))))
      y_hat.

(** The types of an orchestrator whose scores are such rows. *)
Definition scored (T : Types) : Types := {|
  Instance_ := @Instance_ T;
  DataBin := @DataBin T;
  ScoreRow := list Num;
  Weights := nat -> Num;
  Loss := @Loss T;
  Meta := @Meta T;
  Param := @Param T;
  Booster := @Booster T;
  PredictResult := @PredictResult T;
  Ctx := @Ctx T
|}.

(** The stored parameters a replay reads, each with its (round, dim)
    pair: the one at position [idx * d + booster_idx] for every pair of
    [pairs], in order. *)
Definition stored_boosters {Param : Type} (models : list Param) (d : nat)
           (pairs : list (nat * nat)) : list (nat * nat * Param) :=
  flat_map (fun p =>
              match nth_error models (fst p * d + snd p) with
              | Some param => [(fst p, snd p, param)]
              | None => []
              end) pairs.

(** The score of a stored booster, reloaded as the booster of its
    (round, dim) pair, added to the accumulator at its dimension. *)
Definition add_score {Meta Param Booster Data : Type}
           (booster : Meta -> Param -> nat -> nat -> Booster)
           (score : Booster -> Data -> nat -> Num)
           (data : Data) (meta : Meta)
           (acc : DTable (list Num)) (x : nat * nat * Param)
  : DTable (list Num) :=
  new_predict_score acc
    (score (booster meta (snd x) (fst (fst x)) (snd (fst x))) data)
    (snd (fst x)).

End Scores.

(** The load of a stored booster. *)
Definition load_of `{Types} (d : nat) (x : nat * nat * Param) : Event :=
  LoadBooster (fst (fst x) * d + snd (fst x)) (snd x) (fst (fst x))
              (snd (fst x)).

End BoostingScores.

(** A guest with five stored boosters of dimension 2 and rows of two
    numbers: the booster fitted for (epoch, class) scores sample [key]
    with [100 * epoch + 10 * class + key]. *)

Module ScoresCases.

Import HeteroBoosting BoostingScores.

Definition base : Types := {|
  Instance_ := Label;
  DataBin := DTable Label;
  ScoreRow := unit;
  Weights := unit;
  Loss := nat;
  Meta := unit;
  Param := nat * nat;
  Booster := nat * nat;
  PredictResult := DTable (list nat);
  Ctx := unit
|}.

#[export] Instance types : Types := scored nat base.

Definition score (model : nat * nat) (_ : DTable Label) (key : nat) : nat :=
  100 * fst model + 10 * snd model + key.

#[export] Instance demo : @Collaborators types := {|
  PAILLIER := "Paillier";
  ITERATIVEAFFINE := "IterativeAffine";
  prepare_data := fun data _ => (Ok data, tt);
  get_label := fun bin _ => (Ok bin, tt);
  classify_validate_label := fun _ _ => (Ok (2, [LInt 0; LInt 1]), tt);
  regression_validate_label := fun _ _ => (Ok tt, tt);
  get_loss_function := fun _ => (Ok tt, tt);
  get_init_score :=
    fun labels _ _ => (Ok (mapValues (fun _ => [0; 0]) labels, [0; 0]), tt);
  generate_key := fun _ _ _ => (Ok tt, tt);
  EncryptModeCalculator := fun _ => (Ok tt, tt);
  callback_meta_loss := fun _ => (Ok tt, tt);
  init_validation_strategy := fun _ _ _ => (Ok tt, tt);
  fit_a_booster := fun epoch_idx class_idx _ => (Ok (epoch_idx, class_idx), tt);
  get_model := fun model _ => (Ok (tt, model), tt);
  get_sample_weights := fun model _ => (Ok (score model []), tt);
  get_new_predict_score :=
    fun acc w dim _ => (Ok (new_predict_score Nat.add acc w dim), tt);
  compute_loss := fun scores _ _ => (Ok (List.length scores), tt);
  callback_metric := fun _ _ _ => (Ok tt, tt);
  run_validation := fun _ _ => (Ok tt, tt);
  check_stop_condition := fun _ _ => (Ok false, tt);
  callback_meta_best := fun _ _ => (Ok tt, tt);
  data_alignment := fun data _ => (Ok data, tt);
  load_booster := fun _ param _ _ _ => (Ok param, tt);
  model_predict := fun model data _ => (Ok (score model data), tt);
  score_to_predict_result := fun _ acc _ => (Ok acc, tt);
  booster_dim_get := fun _ => (Ok 1, tt);
  stop_flag_get := fun _ _ => (Ok false, tt)
|}.

(** Three samples. *)
Definition samples : DTable Label := [(0, LInt 0); (1, LInt 1); (2, LInt 1)].

(** Five stored boosters with [booster_dim] 2 and initial score
    [1000, 2000]. *)
Definition five_stored : Self :=
  mkSelf CLASSIFICATION 2 "Paillier" 1024 [] [] [] 2 2 [] [1000; 2000] [] None
         tt [(0, 0); (0, 1); (1, 0); (1, 1); (2, 0)] [] [] tt.

Definition prediction :=
  Eval vm_compute in HeteroBoostingGuest.predict (H0 := demo) samples five_stored.

End ScoresCases.

(** * Properties *)

Unset Implicit Arguments.

(** Stepping through a method body: name the result of the next call it
    waits on. *)

Ltac destr_scrut H :=
  match type of H with
  | context [match ?x with _ => _ end] =>
      lazymatch x with
      | match _ with _ => _ end => fail
      | ?f _ =>
          lazymatch f with
          | match _ with _ => _ end => fail
          | _ => destruct x eqn:?
          end
      | _ => destruct x eqn:?
      end
  end.

Ltac run H :=
  cbv beta delta [bind ret raise gets modify lift HeteroBoosting.call HeteroBoosting.emit] in H;
  repeat (cbn beta iota zeta in H; destr_scrut H);
  cbn beta iota zeta in H.

Ltac ftl_fields H :=
  cbn [HeteroFTLGuest.max_iter HeteroFTLGuest.local_iterations
       HeteroFTLGuest.n_iter_ HeteroFTLGuest.guest_model
       HeteroFTLGuest.converge_func HeteroFTLGuest.public_key
       HeteroFTLGuest.private_key HeteroFTLGuest.host_public_key
       HeteroFTLGuest.env HeteroFTLGuest.drawn HeteroFTLGuest.trace
       HeteroFTLGuest.set_n_iter_ HeteroFTLGuest.set_guest_model
       HeteroFTLGuest.set_converge_func HeteroFTLGuest.set_keys
       HeteroFTLGuest.set_host_key HeteroFTLGuest.set_env
       HeteroFTLGuest.set_drawn HeteroFTLGuest.set_trace] in H.

Ltac run_ftl H :=
  cbv beta delta [bind ret raise gets modify lift
                  HeteroFTLGuest.emit HeteroFTLGuest.on_model
                  HeteroFTLGuest._do_remote HeteroFTLGuest._do_get
                  HeteroFTLGuest.add_random_mask_for_list_of_values
                  HeteroFTLGuest.add_random_mask
                  HeteroFTLGuest.remove_random_mask_from_list_of_values
                  HeteroFTLGuest.remove_random_mask
                  HeteroFTLGuest.__decrypt_gradients] in H;
  repeat (cbn beta iota zeta in H; ftl_fields H; destr_scrut H);
  cbn beta iota zeta in H; ftl_fields H.

Ltac kmeans_fields H :=
  cbn [HeteroKmenasArbiter.n_iter_ HeteroKmenasArbiter.max_iter
       HeteroKmenasArbiter.tol HeteroKmenasArbiter.env
       HeteroKmenasArbiter.sent HeteroKmenasArbiter.set_n_iter_
       HeteroKmenasArbiter.set_env HeteroKmenasArbiter.set_sent
       HeteroKmeansClient.binding HeteroKmeansClient.k
       HeteroKmeansClient.n_iter_ HeteroKmeansClient.max_iter
       HeteroKmeansClient.centroid_list HeteroKmeansClient.cluster_result_
       HeteroKmeansClient.env HeteroKmeansClient.sent
       HeteroKmeansClient.set_n_iter_ HeteroKmeansClient.set_centroid_list
       HeteroKmeansClient.set_cluster_result HeteroKmeansClient.set_env
       HeteroKmeansClient.set_sent] in H.

Ltac run_kmeans H :=
  cbv beta delta [bind ret raise gets modify lift
                  HeteroKmenasArbiter.remote HeteroKmenasArbiter.get
                  HeteroKmeansClient.remote HeteroKmeansClient.get
                  HeteroKmeansClient.centroid_cal] in H;
  repeat (cbn beta iota zeta in H; kmeans_fields H; destr_scrut H);
  cbn beta iota zeta in H; kmeans_fields H.

(** ** Loops *)

Module PyFacts.

Section ForIn.

Context {S : Type}.

Lemma for_in_app {X} (body : X -> M S Ctl) xs ys s :
  never_breaks body ->
  for_in (xs ++ ys) body s = bind (for_in xs body) (fun _ => for_in ys body) s.
Proof.
  intros Hnb. revert s. induction xs as [|x xs IH]; intros s; [reflexivity|].
  cbn [app for_in]. unfold bind.
  destruct (body x s) as [[[|]|e] s1] eqn:E.
  - rewrite IH. reflexivity.
  - exfalso. exact (Hnb _ _ _ E).
  - reflexivity.
Qed.

Lemma for_in_map {X Y} (g : X -> Y) (body : Y -> M S Ctl) xs s :
  for_in (map g xs) body s = for_in xs (fun x => body (g x)) s.
Proof.
  revert s. induction xs as [|x xs IH]; intros s; [reflexivity|].
  cbn [map for_in]. unfold bind.
  destruct (body (g x) s) as [[[|]|e] s1]; auto.
Qed.

(** Two bodies that agree on the states of an invariant they keep. *)
Lemma for_in_ext {X} (I : S -> Prop) (body1 body2 : X -> M S Ctl) xs :
  (forall x s, In x xs -> I s -> body1 x s = body2 x s) ->
  (forall x s c s', In x xs -> I s -> body2 x s = (Ok c, s') -> I s') ->
  forall s, I s -> for_in xs body1 s = for_in xs body2 s.
Proof.
  induction xs as [|x xs IH]; intros Heq Hinv s Hs; [reflexivity|].
  cbn [for_in]. unfold bind. rewrite (Heq x s (or_introl eq_refl) Hs).
  destruct (body2 x s) as [[[|]|e] s1] eqn:E; try reflexivity.
  apply IH.
  - intros y t Hy. apply Heq. right. exact Hy.
  - intros y t c t' Hy. apply Hinv. right. exact Hy.
  - eapply Hinv; [left; reflexivity | exact Hs | exact E].
Qed.

(** A loop that keeps an invariant and never asks to stop early. *)
Lemma for_in_inv {X} (I : S -> Prop) (body : X -> M S Ctl) xs :
  (forall x s r s', I s -> body x s = (r, s') -> I s') ->
  forall s r s', I s -> for_in xs body s = (r, s') -> I s'.
Proof.
  intros Hinv. induction xs as [|x xs IH]; intros s r s' Hs Hr.
  - inversion Hr; subst. exact Hs.
  - cbn [for_in] in Hr. unfold bind in Hr.
    destruct (body x s) as [[[|]|e] s1] eqn:E.
    + eapply IH; [|exact Hr]. eapply Hinv; eassumption.
    + inversion Hr; subst. eapply Hinv; eassumption.
    + inversion Hr; subst. eapply Hinv; eassumption.
Qed.

End ForIn.

End PyFacts.

(** ** Hetero boosting *)

Module BoostingFacts.

Import HeteroBoosting HeteroBoostingSpec BoostingTrace PyFacts.

Module G := HeteroBoostingGuest.

Module Hst := HeteroBoostingHost.

Section Facts.

Context `{Collaborators}.

Lemma stop_flags_app l1 l2 : stop_flags (l1 ++ l2) = stop_flags l1 ++ stop_flags l2.
Proof.
  induction l1 as [|ev l1 IH]; cbn; [reflexivity|].
  destruct ev; cbn; rewrite IH; reflexivity.
Qed.

Lemma fitted_app l1 l2 : fitted (l1 ++ l2) = fitted l1 ++ fitted l2.
Proof.
  induction l1 as [|ev l1 IH]; cbn; [reflexivity|].
  destruct ev; cbn; rewrite IH; reflexivity.
Qed.

Lemma fit_class_spec e c s r s' :
  G.fit_class e c s = (r, s') ->
  class_step s s' /\
  (forall k, r = Ok k ->
     k = Next /\ fitted (log s') = fitted (log s) ++ [(e, c)] /\
     exists p, boosting_model_list s' = boosting_model_list s ++ [p]).
Proof.
  unfold G.fit_class. intros Hr. run Hr.
  all: inversion Hr; subst; clear Hr; cbn.
  all: split; [constructor; cbn; rewrite ?stop_flags_app; cbn; rewrite ?app_nil_r; reflexivity|].
  all: intros k Hk; try discriminate.
  inversion Hk; subst. rewrite fitted_app. cbn. eauto.
Qed.

Lemma fit_classes_spec e n : forall a s r s',
  for_in (seq a n) (G.fit_class e) s = (r, s') ->
  class_step s s' /\
  (r = Ok tt ->
     fitted (log s') = fitted (log s) ++ map (pair e) (seq a n) /\
     exists ps, List.length ps = n /\
                boosting_model_list s' = boosting_model_list s ++ ps).
Proof.
  induction n as [|n IH]; intros a s r s' Hr.
  - cbn in Hr. inversion Hr; subst. split; [constructor; reflexivity|].
    intros _. cbn. rewrite app_nil_r. split; [reflexivity|].
    exists []. rewrite app_nil_r. auto.
  - cbn [seq for_in] in Hr. unfold bind in Hr.
    destruct (G.fit_class e a s) as [[k|ex] s1] eqn:E1.
    + destruct (fit_class_spec _ _ _ _ _ E1) as [F1 G1].
      destruct (G1 k eq_refl) as (-> & Hf & p & Hp).
      apply IH in Hr. destruct Hr as [F2 G2].
      split.
      * destruct F1, F2. constructor; congruence.
      * intros ->. destruct (G2 eq_refl) as (Hf2 & ps & Hl & Hps).
        split.
        -- rewrite Hf2, Hf. cbn. rewrite <- app_assoc. reflexivity.
        -- exists (p :: ps). cbn. split; [lia|].
           rewrite Hps, Hp, <- app_assoc. reflexivity.
    + inversion Hr; subst. destruct (fit_class_spec _ _ _ _ _ E1) as [F1 _].
      split; [destruct F1; constructor; congruence | discriminate].
Qed.

Lemma fit_epoch_spec e s k s' :
  G.fit_epoch e s = (Ok k, s') ->
  booster_dim s' = booster_dim s /\
  boosting_round s' = boosting_round s /\
  (exists ps, List.length ps = booster_dim s /\
              boosting_model_list s' = boosting_model_list s ++ ps) /\
  (exists loss, history_loss s' = history_loss s ++ [loss]) /\
  fitted (log s') = fitted (log s) ++ map (pair e) (range (booster_dim s)) /\
  exists b, stop_flags (log s') = stop_flags (log s) ++ [(b, e)] /\
            k = if b then Break else Next.
Proof.
  unfold G.fit_epoch, G.sync_stop_flag. intros Hr. run Hr.
  all: inversion Hr; subst; clear Hr; cbn.
  all: match goal with
       | E : for_in _ _ _ = _ |- _ =>
           apply fit_classes_spec in E; destruct E as [[F1 F2 F3 F4] G];
           match type of G with Ok ?u = _ -> _ => destruct u end;
           destruct (G eq_refl) as (Hf & ps & Hl & Hps)
       end.
  all: rewrite ?stop_flags_app, ?fitted_app, ?F3, ?F4, ?Hf; cbn; rewrite ?app_nil_r.
  all: repeat split; eauto; try congruence.
  all: eexists; split; reflexivity.
Qed.

Lemma fit_epochs_spec n : forall a s s',
  for_in (seq a n) G.fit_epoch s = (Ok tt, s') ->
  exists r,
    r <= n /\
    booster_dim s' = booster_dim s /\
    (exists flags,
        stop_flags (log s') = stop_flags (log s) ++ flags /\
        map snd flags = seq a r /\
        ((r = n /\ flags = no_stop a n) \/
         exists r0, r = S r0 /\ flags = no_stop a r0 ++ [(true, a + r0)])) /\
    fitted (log s') =
      fitted (log s) ++
      flat_map (fun e => map (pair e) (range (booster_dim s))) (seq a r) /\
    List.length (boosting_model_list s') =
      List.length (boosting_model_list s) + r * booster_dim s /\
    List.length (history_loss s') = List.length (history_loss s) + r.
Proof.
  induction n as [|n IH]; intros a s s' Hr.
  - cbn in Hr. inversion Hr; subst. exists 0. cbn.
    repeat split; try lia.
    + exists []. rewrite app_nil_r. auto.
    + rewrite app_nil_r. reflexivity.
  - cbn [seq for_in] in Hr. unfold bind in Hr.
    destruct (G.fit_epoch a s) as [[k|ex] s1] eqn:E1; [|discriminate].
    apply fit_epoch_spec in E1.
    destruct E1 as (Hd & _ & (ps & Hl & Hps) & (loss & Hloss) & Hfit & b & Hb & ->).
    destruct b.
    + inversion Hr; subst s1. exists 1. cbn.
      repeat split; try lia; try assumption.
      * exists [(true, a)]. repeat split; [assumption|].
        right. exists 0. rewrite Nat.add_0_r. auto.
      * rewrite app_nil_r. exact Hfit.
      * rewrite Hps, length_app. lia.
      * rewrite Hloss, length_app. cbn. lia.
    + apply IH in Hr.
      destruct Hr as (r & Hle & Hd' & (flags & Hfl & Hsnd & Hcase) & Hfit' & Hlen & Hlen').
      exists (S r). repeat split; try lia; try congruence.
      * exists ((false, a) :: flags). repeat split.
        -- rewrite Hfl, Hb, <- app_assoc. reflexivity.
        -- cbn. rewrite Hsnd. reflexivity.
        -- destruct Hcase as [[-> ->] | (r0 & -> & ->)]; [left; split; reflexivity|].
           right. exists (S r0). split; [reflexivity|].
           cbn. rewrite Nat.add_succ_r. reflexivity.
      * rewrite Hfit', Hfit, Hd, <- app_assoc. reflexivity.
      * rewrite Hlen, Hps, length_app, Hd. lia.
      * rewrite Hlen', Hloss, length_app. cbn. lia.
Qed.

Lemma quiet_refl s : quiet s s.
Proof. constructor; reflexivity. Qed.

Lemma quiet_trans s1 s2 s3 : quiet s1 s2 -> quiet s2 s3 -> quiet s1 s3.
Proof. intros [] []. constructor; congruence. Qed.

Ltac quiet_leaf H :=
  inversion H; subst; clear H;
  constructor; cbn; rewrite ?stop_flags_app, ?fitted_app; cbn;
  rewrite ?app_nil_r; reflexivity.

Lemma check_label_quiet s r s' : check_label s = (r, s') -> quiet s s'.
Proof. unfold check_label. intros Hr. run Hr. all: quiet_leaf Hr. Qed.

Lemma generate_encrypter_quiet s r s' :
  generate_encrypter s = (r, s') -> quiet s s'.
Proof. unfold generate_encrypter. intros Hr. run Hr. all: quiet_leaf Hr. Qed.

Lemma fit_labels_quiet data s r s' : G.fit_labels data s = (r, s') -> quiet s s'.
Proof.
  unfold G.fit_labels, G.sync_booster_dim. intros Hr. run Hr.
  all: try match goal with
       | E : check_label _ = _ |- _ => apply check_label_quiet in E; destruct E
       end.
  all: inversion Hr; subst; clear Hr; cbn in *.
  all: constructor; cbn; rewrite ?stop_flags_app, ?fitted_app; cbn;
    rewrite ?app_nil_r; first [assumption | reflexivity].
Qed.

Lemma fit_setup_quiet data v s r s' : G.fit_setup data v s = (r, s') -> quiet s s'.
Proof.
  unfold G.fit_setup. intros Hr. run Hr.
  all: repeat match goal with
       | E : G.fit_labels _ _ = _ |- _ => apply fit_labels_quiet in E
       | E : generate_encrypter _ = _ |- _ => apply generate_encrypter_quiet in E
       end.
  all: inversion Hr; subst; clear Hr.
  all: try assumption.
  all: try (eapply quiet_trans; [eassumption|]).
  all: try (eapply quiet_trans; [eassumption|]).
  all: try (constructor; reflexivity).
Qed.

Lemma fit_report_quiet s r s' : G.fit_report s = (r, s') -> quiet s s'.
Proof. unfold G.fit_report. intros Hr. run Hr. all: quiet_leaf Hr. Qed.

(** C1. When the guest's [fit] has run its setup and its epoch loop to
    their ends, whatever the final report does, the object it leaves has
    grown by [r] rounds, [r] being the number of stop flags broadcast: one
    booster parameter per (epoch, class) pair, so [r * booster_dim] of them,
    and one loss per round.  From empty lists, the lengths are
    [r * booster_dim] and [r]. *)
Theorem fit_one_booster_per_epoch_class_one_loss_per_round
        data v s s1 s2 res s3 :
  G.fit_setup data v s = (Ok tt, s1) ->
  G.fit_loop s1 = (Ok tt, s2) ->
  G.fit_report s2 = (res, s3) ->
  G.fit data v s = (res, s3) /\ rounds_accounted s s3.
Proof.
  intros Hsetup Hloop Hreport. split.
  { unfold G.fit, bind. rewrite Hsetup, Hloop. exact Hreport. }
  apply fit_setup_quiet in Hsetup. destruct Hsetup as [A1 A2 A3 A4 A5 _].
  assert (Hd3 : booster_dim s3 = booster_dim s2).
  { unfold G.fit_report in Hreport. run Hreport.
    all: inversion Hreport; subst; reflexivity. }
  apply fit_report_quiet in Hreport. destruct Hreport as [B1 B2 B3 B4 _ _].
  unfold G.fit_loop in Hloop. run Hloop.
  apply fit_epochs_spec in Hloop.
  destruct Hloop as (r & Hle & Hd & (flags & Hfl & Hsnd & Hcase) & Hfit & Hlen & Hlen').
  unfold rounds_accounted. exists r, flags.
  rewrite B1, B2, B3, B4, Hd3, Hd, Hfl, Hfit, Hlen, Hlen', A1, A2, A3, A4.
  rewrite A5 in Hle, Hcase.
  repeat split; try assumption.
  - destruct Hcase as [[-> ->] | (r0 & -> & ->)]; [left; auto|].
    right. exists r0. auto.
  - match goal with E : boosting_model_list s = [] |- _ => rewrite E end.
    reflexivity.
  - match goal with E : history_loss s = [] |- _ => rewrite E end.
    reflexivity.
Qed.

Lemma generate_encrypter_unsupported s :
  unsupported (encrypt_method s) ->
  generate_encrypter s = (Raise not_supported, s).
Proof.
  intros [H1 H2]. unfold generate_encrypter, bind, gets.
  destruct (String.eqb_spec (lower (encrypt_method s)) (lower PAILLIER));
    [contradiction|].
  destruct (String.eqb_spec (lower (encrypt_method s)) (lower ITERATIVEAFFINE));
    [contradiction|].
  reflexivity.
Qed.

Lemma host_fit_data_quiet data s r s' :
  Hst.fit_data data s = (r, s') -> quiet s s'.
Proof.
  unfold Hst.fit_data, Hst.sync_booster_dim. intros Hr. run Hr.
  all: quiet_leaf Hr.
Qed.

Lemma quiet_no_round s s' : quiet s s' -> no_round_ran s s'.
Proof. intros []. repeat split; assumption. Qed.

(** C9. With an encryption method that, lowercased, is neither [PAILLIER]
    nor [ITERATIVEAFFINE] lowercased, [fit] of the guest and of the host
    cannot return: they raise with no booster fitted, no stop flag sent and
    both lists as they were (empty when they were empty); and when the steps
    before [generate_encrypter] return, the exception is the
    [NotImplementedError] of [generate_encrypter], raised on the object as
    these steps left it. *)
Theorem unsupported_encrypt_method_raises_before_any_round data v s :
  unsupported (encrypt_method s) ->
  raises_before_any_round (G.fit data v) (G.fit_labels data) s /\
  raises_before_any_round (Hst.fit data v) (Hst.fit_data data) s.
Proof.
  intros Hu. split; unfold raises_before_any_round; intros res s' Hfit.
  - unfold G.fit, G.fit_setup, bind in Hfit.
    destruct (G.fit_labels data s) as [[u|e] s1] eqn:E.
    + pose proof (fit_labels_quiet _ _ _ _ E) as Q.
      rewrite generate_encrypter_unsupported in Hfit
        by (rewrite (q_method Q); exact Hu).
      inversion Hfit; subst. destruct (quiet_no_round _ _ Q) as (Q1 & Q2 & Q3 & Q4).
      split; [eauto|]. split; [repeat split; assumption|]. split.
      * intros E1 E2. rewrite Q1, Q2. auto.
      * intros s0 E0. inversion E0. auto.
    + inversion Hfit; subst.
      pose proof (fit_labels_quiet _ _ _ _ E) as Q.
      destruct (quiet_no_round _ _ Q) as (Q1 & Q2 & Q3 & Q4).
      split; [eauto|]. split; [repeat split; assumption|]. split.
      * intros E1 E2. rewrite Q1, Q2. auto.
      * intros s0 E0. discriminate.
  - unfold Hst.fit, bind in Hfit.
    destruct (Hst.fit_data data s) as [[u|e] s1] eqn:E.
    + pose proof (host_fit_data_quiet _ _ _ _ E) as Q.
      rewrite generate_encrypter_unsupported in Hfit
        by (rewrite (q_method Q); exact Hu).
      inversion Hfit; subst. destruct (quiet_no_round _ _ Q) as (Q1 & Q2 & Q3 & Q4).
      split; [eauto|]. split; [repeat split; assumption|]. split.
      * intros E1 E2. rewrite Q1, Q2. auto.
      * intros s0 E0. inversion E0. auto.
    + inversion Hfit; subst.
      pose proof (host_fit_data_quiet _ _ _ _ E) as Q.
      destruct (quiet_no_round _ _ Q) as (Q1 & Q2 & Q3 & Q4).
      split; [eauto|]. split; [repeat split; assumption|]. split.
      * intros E1 E2. rewrite Q1, Q2. auto.
      * intros s0 E0. discriminate.
Qed.

Lemma predict_booster_eq data meta models d idx b s :
  stored meta models d s ->
  G.predict_booster data idx b s = replay_booster data meta models d (idx, b) s.
Proof.
  intros (Hmeta & Hmodels & Hd).
  unfold G.predict_booster, replay_booster, bind, gets.
  rewrite Hmeta, Hmodels, Hd. reflexivity.
Qed.

Lemma replay_booster_stored data meta models d p s r s' :
  stored meta models d s ->
  replay_booster data meta models d p s = (r, s') ->
  stored meta models d s' /\ r <> Ok Break.
Proof.
  intros Hs Hr. destruct p as [idx b]. unfold replay_booster in Hr. run Hr.
  all: inversion Hr; subst; clear Hr; split; [exact Hs | discriminate].
Qed.

Lemma replay_never_breaks data meta models d :
  never_breaks (replay_booster data meta models d).
Proof.
  intros p s s' Hr. destruct p as [idx b]. unfold replay_booster in Hr. run Hr.
  all: discriminate.
Qed.

Lemma replay_loop_stored data meta models d ps s r s' :
  stored meta models d s ->
  for_in ps (replay_booster data meta models d) s = (r, s') ->
  stored meta models d s'.
Proof.
  apply for_in_inv. intros p t r0 t' Ht Hr.
  exact (proj1 (replay_booster_stored _ _ _ _ _ _ _ _ Ht Hr)).
Qed.

Lemma predict_round_eq data meta models d idx s :
  stored meta models d s ->
  G.predict_round data idx s =
  bind (for_in (map (pair idx) (range d)) (replay_booster data meta models d))
       (fun _ => ret Next) s.
Proof.
  intros Hs. unfold G.predict_round. unfold bind at 1. unfold gets.
  destruct Hs as (Hmeta & Hmodels & Hd). rewrite Hd.
  unfold bind. rewrite for_in_map.
  rewrite (for_in_ext (stored meta models d) _
             (fun b => replay_booster data meta models d (idx, b)));
    [reflexivity| | |repeat split; assumption].
  - intros b t _ Ht. apply predict_booster_eq. exact Ht.
  - intros b t c t' _ Ht Hr.
    exact (proj1 (replay_booster_stored _ _ _ _ _ _ _ _ Ht Hr)).
Qed.

Lemma predict_rounds_eq data meta models d n : forall a s,
  stored meta models d s ->
  for_in (seq a n) (G.predict_round data) s =
  for_in (flat_map (fun idx => map (pair idx) (range d)) (seq a n))
         (replay_booster data meta models d) s.
Proof.
  induction n as [|n IH]; intros a s Hs; [reflexivity|].
  cbn [seq flat_map for_in].
  rewrite for_in_app by apply replay_never_breaks.
  unfold bind. rewrite (predict_round_eq _ _ _ _ _ _ Hs). unfold bind.
  destruct (for_in (map (pair a) (range d)) (replay_booster data meta models d) s)
    as [[u|e] s1] eqn:E; [|reflexivity].
  cbn. apply IH. eapply replay_loop_stored; eassumption.
Qed.

(** The guest's [predict], with its two loops written as one loop over
    the pairs of [replay_order]. *)
Lemma guest_predict_is_the_flat_replay data s :
  G.predict data s = HeteroBoostingSpec.predict data s.
Proof.
  unfold G.predict, HeteroBoostingSpec.predict.
  cbv beta delta [bind gets modify lift]. cbn beta iota zeta.
  destruct (call (data_alignment data) s) as [[d1|e] s1]; [|reflexivity].
  cbn [boosting_model_list booster_dim booster_meta set_predict_y_hat].
  destruct (floordiv _ _) as [rounds|e]; [|reflexivity].
  unfold replay_order, range at 1 3.
  rewrite (predict_rounds_eq d1 (booster_meta s1) (boosting_model_list s1)
             (booster_dim s1) rounds 0);
    [reflexivity | repeat split].
Qed.

(** *** Which stored boosters a prediction loads *)

Lemma loads_app l1 l2 : loads (l1 ++ l2) = loads l1 ++ loads l2.
Proof.
  induction l1 as [|ev l1 IH]; cbn; [reflexivity|].
  destruct ev; cbn; rewrite IH; reflexivity.
Qed.

Section Nested.

Variable body : nat -> nat -> M Self Ctl.
Variable models : list Param.
Variable d : nat.

Hypothesis body_loads : forall idx b s r s',
  kept models d s -> b < d -> body idx b s = (r, s') ->
  kept models d s' /\ r <> Ok Break /\
  ((exists param,
       nth_error models (idx * d + b) = Some param /\
       loads (log s') = loads (log s) ++ [mkLoad (idx * d + b) param idx b]) \/
   (loads (log s') = loads (log s) /\ exists e, r = Raise e)).

Lemma inner_loads idx n : forall b s r s',
  kept models d s -> b + n <= d ->
  for_in (seq b n) (body idx) s = (r, s') ->
  kept models d s' /\
  exists L, loaded_from models d (idx * d + b) s s' L /\
            List.length L <= n /\ (r = Ok tt -> List.length L = n).
Proof.
  induction n as [|n IH]; intros b s r s' Hs Hb Hr.
  - inversion Hr; subst. split; [exact Hs|]. exists [].
    repeat split; cbn; auto. rewrite app_nil_r. reflexivity.
  - cbn [seq for_in] in Hr. unfold bind in Hr.
    destruct (body idx b s) as [[k|e] s1] eqn:E.
    + destruct (body_loads idx b s _ _ Hs ltac:(lia) E)
        as (Hs1 & Hnb & [(param & Hnth & Hl) | (_ & e & He)]);
        [|discriminate].
      destruct k; [|congruence].
      destruct (IH (S b) s1 r s' Hs1 ltac:(lia) Hr)
        as (Hs' & L & (HL & Hpos & Hok) & Hlen & Hfull).
      split; [exact Hs'|].
      exists (mkLoad (idx * d + b) param idx b :: L).
      repeat split.
      * rewrite HL, Hl, <- app_assoc. reflexivity.
      * cbn. rewrite Hpos. rewrite Nat.add_succ_r. reflexivity.
      * constructor; [|exact Hok]. repeat split; cbn; auto. lia.
      * cbn. lia.
      * intros Hr'. cbn. rewrite (Hfull Hr'). reflexivity.
    + inversion Hr; subst.
      destruct (body_loads idx b s _ _ Hs ltac:(lia) E)
        as (Hs1 & _ & [(param & Hnth & Hl) | (Hl & _)]).
      * split; [exact Hs1|].
        exists [mkLoad (idx * d + b) param idx b].
        repeat split; cbn; auto; try lia; try discriminate.
        constructor; [|constructor]. repeat split; cbn; auto. lia.
      * split; [exact Hs1|]. exists [].
        repeat split; cbn; auto; try lia; try discriminate.
        rewrite app_nil_r. exact Hl.
Qed.

Lemma outer_loads n : forall a s r s',
  kept models d s ->
  for_in (seq a n)
         (fun idx => d0 <- gets booster_dim ;;
                     for_in (range d0) (body idx) ;;
                     ret Next) s = (r, s') ->
  kept models d s' /\
  exists L, loaded_from models d (a * d) s s' L /\
            List.length L <= n * d /\ (r = Ok tt -> List.length L = n * d).
Proof.
  induction n as [|n IH]; intros a s r s' Hs Hr.
  - inversion Hr; subst. split; [exact Hs|]. exists [].
    repeat split; cbn; auto. rewrite app_nil_r. reflexivity.
  - cbn [seq for_in] in Hr. unfold bind at 1 in Hr.
    unfold bind at 1 in Hr. unfold gets in Hr.
    rewrite (proj2 Hs) in Hr. unfold bind at 1 in Hr.
    destruct (for_in (range d) (body a) s) as [[u|e] s1] eqn:E.
    + destruct (inner_loads a d 0 s _ _ Hs ltac:(lia) E)
        as (Hs1 & L1 & (HL1 & Hpos1 & Hok1) & Hlen1 & Hfull1).
      cbn [ret] in Hr. destruct u. specialize (Hfull1 eq_refl).
      destruct (IH (S a) s1 r s' Hs1 Hr)
        as (Hs' & L & (HL & Hpos & Hok) & Hlen & Hfull).
      split; [exact Hs'|]. exists (L1 ++ L).
      repeat split.
      * rewrite HL, HL1, <- app_assoc. reflexivity.
      * rewrite map_app, length_app, seq_app, Hpos1, Hpos, Hfull1.
        rewrite Nat.add_0_r. f_equal. f_equal. cbn. lia.
      * apply Forall_app. split; assumption.
      * rewrite length_app. cbn. lia.
      * intros Hr'. rewrite length_app, (Hfull Hr'), Hfull1. cbn. lia.
    + inversion Hr; subst.
      destruct (inner_loads a d 0 s _ _ Hs ltac:(lia) E)
        as (Hs1 & L1 & (HL1 & Hpos1 & Hok1) & Hlen1 & _).
      split; [exact Hs1|]. exists L1. rewrite Nat.add_0_r in *.
      repeat split; auto; try discriminate. cbn. lia.
Qed.

End Nested.

Lemma guest_predict_booster_loads data models d idx b s r s' :
  kept models d s -> b < d -> G.predict_booster data idx b s = (r, s') ->
  kept models d s' /\ r <> Ok Break /\
  ((exists param,
       nth_error models (idx * d + b) = Some param /\
       loads (log s') = loads (log s) ++ [mkLoad (idx * d + b) param idx b]) \/
   (loads (log s') = loads (log s) /\ exists e, r = Raise e)).
Proof.
  intros [Hm Hd] Hb Hr. unfold G.predict_booster, list_getitem in Hr.
  rewrite <- Hm, <- Hd. run Hr.
  all: inversion Hr; subst; clear Hr; cbn.
  all: split; [split; reflexivity|]; split; [discriminate|].
  all: rewrite ?loads_app; cbn; eauto.
Qed.

Lemma host_predict_booster_loads data models d idx b s r s' :
  kept models d s -> b < d -> Hst.predict_booster data idx b s = (r, s') ->
  kept models d s' /\ r <> Ok Break /\
  ((exists param,
       nth_error models (idx * d + b) = Some param /\
       loads (log s') = loads (log s) ++ [mkLoad (idx * d + b) param idx b]) \/
   (loads (log s') = loads (log s) /\ exists e, r = Raise e)).
Proof.
  intros [Hm Hd] Hb Hr. unfold Hst.predict_booster, list_getitem in Hr.
  rewrite <- Hm, <- Hd. run Hr.
  all: inversion Hr; subst; clear Hr; cbn.
  all: split; [split; reflexivity|]; split; [discriminate|].
  all: rewrite ?loads_app; cbn; eauto.
Qed.

Lemma whole_rounds_intro {A} s (r : Result A) s' L :
  loaded_from (boosting_model_list s) (booster_dim s) 0 s s' L ->
  List.length L <= replayed s ->
  ((exists a, r = Ok a) -> List.length L = replayed s) ->
  whole_rounds_only s r s'.
Proof.
  intros HL Hlen Hfull. exists L. repeat split; try assumption.
  - apply HL.
  - apply HL.
  - apply HL.
  - intros pos Hpos Hin. destruct HL as (_ & Hp & _).
    rewrite Hp in Hin. apply in_seq in Hin. lia.
Qed.

Lemma whole_rounds_none {A} s (r : Result A) s' :
  loads (log s') = loads (log s) -> (forall a, r <> Ok a) ->
  whole_rounds_only s r s'.
Proof.
  intros Hl Hr. apply whole_rounds_intro with (L := []).
  - repeat split; cbn; auto. rewrite app_nil_r. exact Hl.
  - cbn. lia.
  - intros [a Ha]. destruct (Hr a Ha).
Qed.


(** *** [check_label] *)

Lemma range_from_zero_loop_cleared cs n : range_from_zero_loop cs n false = false.
Proof.
  induction cs as [|c cs IH]; cbn; [reflexivity|].
  destruct (in_range_int c n) as [[|]|e]; auto.
Qed.

(** The loop of lines 75-83 leaves its flag set exactly when every class is
    an int of [range(n)]. *)
Lemma range_from_zero_loop_spec cs n :
  range_from_zero_loop cs n true =
  forallb (fun c => match c with
                    | LInt z => (0 <=? z)%Z && (z <? Z.of_nat n)%Z
                    | _ => false
                    end) cs.
Proof.
  induction cs as [|c cs IH]; cbn [range_from_zero_loop forallb]; [reflexivity|].
  destruct c as [z|q|str]; unfold in_range_int; cbn [py_le py_lt num isinstance_int].
  - unfold Qle_bool. cbn [Qnum Qden inject_Z]. rewrite !Z.mul_1_r.
    change (0 * 1)%Z with 0%Z.
    destruct (0 <=? z)%Z; cbn [andb]; [|reflexivity].
    rewrite <- Z.ltb_antisym.
    destruct (z <? Z.of_nat n)%Z; cbn [andb]; [exact IH | reflexivity].
  - destruct (Qle_bool (inject_Z 0) q); [|reflexivity].
    destruct (negb (Qle_bool (inject_Z (Z.of_nat n)) q)); reflexivity.
  - apply range_from_zero_loop_cleared.
Qed.

(** Labels that are a range from zero: the table of labels is left as it
    is, and the sorted classes, their count and the booster dimension are
    returned. *)
Lemma check_label_keeps_range_from_zero_labels s c n cs cs' :
  task_type s = CLASSIFICATION ->
  classify_validate_label (data_bin s) s = (Ok (n, cs), c) ->
  range_from_zero_loop cs (List.length cs) true = true ->
  sorted cs = Ok cs' ->
  check_label s = (Ok (cs', n, if 2 <? n then n else 1), set_ctx c s).
Proof.
  intros Ht Hv Hr Hs. unfold check_label, bind, gets, call, lift.
  rewrite Ht, Hv. cbn. rewrite Hs, Hr. reflexivity.
Qed.

(** Other labels: the mapping the labels go through is built from the
    attributes [classes_] and [num_classes] the object holds when
    [check_label] is called, not from the classes just validated. *)
Lemma check_label_remaps_through_the_attributes s c n cs cs' :
  task_type s = CLASSIFICATION ->
  classify_validate_label (data_bin s) s = (Ok (n, cs), c) ->
  range_from_zero_loop cs (List.length cs) true = false ->
  sorted cs = Ok cs' ->
  check_label s =
  match mapValues_r
          (fun _class =>
             match getitem (dict (zip (classes_ s) (range (num_classes s))))
                           _class with
             | Ok i => Ok (LInt (Z.of_nat i))
             | Raise e => Raise e
             end) (y s) with
  | Ok labels' =>
      (Ok (cs', n, if 2 <? n then n else 1), set_y labels' (set_ctx c s))
  | Raise e => (Raise e, set_ctx c s)
  end.
Proof.
  intros Ht Hv Hr Hs. unfold check_label, bind, gets, call, lift, modify, ret.
  rewrite Ht, Hv. cbn. rewrite Hs, Hr. cbn.
  destruct (mapValues_r _ (y s)); reflexivity.
Qed.

(** So on an object whose [classes_] is still empty, labels that are not a
    range from zero end in [KeyError]. *)
Lemma check_label_key_error_on_empty_attribute s c n cs cs' kv rest :
  task_type s = CLASSIFICATION ->
  classify_validate_label (data_bin s) s = (Ok (n, cs), c) ->
  range_from_zero_loop cs (List.length cs) true = false ->
  sorted cs = Ok cs' ->
  classes_ s = [] ->
  y s = kv :: rest ->
  check_label s = (Raise KeyError, set_ctx c s).
Proof.
  intros Ht Hv Hr Hs Hc Hy.
  rewrite (check_label_remaps_through_the_attributes s c n cs cs' Ht Hv Hr Hs).
  rewrite Hc, Hy. destruct kv as [key label]. reflexivity.
Qed.

End Facts.

Import Scenario.Boosting Runs.

(** A two-round binary-classification run with [booster_dim] 1 and no early
    stop: both lists end with length 2, and the stop flag goes out as
    [false] after round 0 and after round 1. *)
Lemma two_round_binary_fit :
  G.fit_setup binary_data None (fresh "Paillier") = (Ok tt, snd binary_setup) /\
  G.fit_loop (snd binary_setup) = (Ok tt, snd binary_loop) /\
  G.fit_report (snd binary_loop) = (Ok tt, snd binary_report) /\
  (G.fit binary_data None (fresh "Paillier") = (Ok tt, snd binary_report) /\
   rounds_accounted (fresh "Paillier") (snd binary_report)) /\
  booster_dim (snd binary_report) = 1 /\
  List.length (boosting_model_list (snd binary_report)) = 2 /\
  List.length (history_loss (snd binary_report)) = 2 /\
  stop_flags (log (snd binary_report)) = [(false, 0); (false, 1)].
Proof.
  assert (H1 : G.fit_setup binary_data None (fresh "Paillier") =
               (Ok tt, snd binary_setup)) by (vm_compute; reflexivity).
  assert (H2 : G.fit_loop (snd binary_setup) = (Ok tt, snd binary_loop))
    by (vm_compute; reflexivity).
  assert (H3 : G.fit_report (snd binary_loop) = (Ok tt, snd binary_report))
    by (vm_compute; reflexivity).
  split; [exact H1|]. split; [exact H2|]. split; [exact H3|].
  split.
  - exact (fit_one_booster_per_epoch_class_one_loss_per_round
             binary_data None (fresh "Paillier") _ _ _ _ H1 H2 H3).
  - repeat split; reflexivity.
Defined.

(** The method name RSA is refused before any round. *)
Lemma rsa_is_refused_before_any_round :
  unsupported (encrypt_method (fresh "RSA")) /\
  raises_before_any_round (G.fit binary_data None) (G.fit_labels binary_data)
                          (fresh "RSA") /\
  raises_before_any_round (Hst.fit binary_data None) (Hst.fit_data binary_data)
                          (fresh "RSA").
Proof.
  assert (Hu : unsupported (encrypt_method (fresh "RSA"))).
  { split; intros E; cbv in E; discriminate E. }
  split; [exact Hu|].
  exact (unsupported_encrypt_method_raises_before_any_round
           binary_data None (fresh "RSA") Hu).
Defined.


(** C7, on the code.  Labels {1, 2} on an object that has not been fitted
    before: [check_label] raises [KeyError], and so does [fit], with the
    labels left as they were, because the mapping of line 87 is built from
    [self.classes_] and [self.num_classes], which [fit] assigns only from
    what [check_label] returns (line 127).  On an object whose attributes
    already hold the classes {1, 2}, the same call remaps the labels onto
    0 and 1 and returns the class list, the class count and the booster
    dimension. *)
Theorem check_label_remaps_through_stale_attributes :
  check_label shifted_loaded = (Raise KeyError, shifted_loaded) /\
  G.fit shifted_data None (fresh "Paillier") = shifted_fit /\
  fst shifted_fit = Raise KeyError /\
  y (snd shifted_fit) = shifted_data /\
  check_label shifted_refit = shifted_refit_check /\
  fst shifted_refit_check = Ok ([LInt 1; LInt 2], 2, 1) /\
  y (snd shifted_refit_check) = [(0, LInt 0); (1, LInt 1); (2, LInt 1)].
Proof.
  repeat split; vm_compute; reflexivity.
Qed.

End BoostingFacts.

(** ** What a prediction of the guest returns *)

Module BoostingScoresFacts.

Import HeteroBoosting HeteroBoostingSpec BoostingTrace BoostingScores PyFacts.

Module G := HeteroBoostingGuest.

Section Replay.

Variable Num : Type.
Variable add : Num -> Num -> Num.
Variable T0 : Types.

#[local] Instance scored_types : Types := scored Num T0.

Context {C : @Collaborators scored_types}.

(** What the collaborators of a prediction return, as functions of what
    they are called on. *)
Variable align : DTable Instance_ -> DTable Instance_.
Variable booster : Meta -> Param -> nat -> nat -> Booster.
Variable score : Booster -> DTable Instance_ -> nat -> Num.
Variable to_result : DTable Instance_ -> DTable (list Num) -> PredictResult.

Hypothesis data_alignment_returns : forall data s r c,
  data_alignment data s = (Ok r, c) -> r = align data.

Hypothesis load_booster_returns : forall meta param idx b s r c,
  load_booster meta param idx b s = (Ok r, c) -> r = booster meta param idx b.

Hypothesis model_predict_returns : forall model data s r c,
  model_predict model data s = (Ok r, c) -> r = score model data.

(** The inherited [get_new_predict_score] is the additive update of the
    spec. *)
Hypothesis get_new_predict_score_adds : forall acc w dim s r c,
  get_new_predict_score acc w dim s = (Ok r, c) ->
  r = new_predict_score add acc w dim.

Hypothesis score_to_predict_result_returns : forall data acc s r c,
  score_to_predict_result data acc s = (Ok r, c) -> r = to_result data acc.

Lemma replay_loop_scores data meta models d ps : forall s s',
  for_in ps (replay_booster data meta models d) s = (Ok tt, s') ->
  List.length (stored_boosters models d ps) = List.length ps /\
  log s' = log s ++ map (load_of d) (stored_boosters models d ps) /\
  predict_y_hat s' =
    fold_left (add_score add booster score data meta) (stored_boosters models d ps)
              (predict_y_hat s).
Proof.
  induction ps as [|[idx b] ps IH]; intros s s' Hr.
  - inversion Hr; subst. cbn. rewrite app_nil_r. auto.
  - cbn [for_in] in Hr. unfold bind in Hr.
    destruct (replay_booster data meta models d (idx, b) s) as [[ctl|e] s1] eqn:E;
      [|discriminate].
    destruct ctl; [|exfalso; exact (BoostingFacts.replay_never_breaks _ _ _ _ _ _ _ E)].
    apply IH in Hr. destruct Hr as (Hlen & Hlog & Hacc).
    unfold replay_booster in E. run E.
    all: try discriminate.
    inversion E; subst; clear E.
    match goal with
    | Hg : list_getitem _ _ = Ok ?p |- _ =>
        unfold list_getitem in Hg;
        destruct (nth_error models (idx * d + b)) as [p'|] eqn:Hnth;
        [|discriminate]; inversion Hg; subst p'
    end.
    repeat match goal with
           | Hl : load_booster _ _ _ _ _ = (Ok _, _) |- _ =>
               apply load_booster_returns in Hl; subst
           | Hp : model_predict _ _ _ = (Ok _, _) |- _ =>
               apply model_predict_returns in Hp; subst
           | Hn : get_new_predict_score _ _ _ _ = (Ok _, _) |- _ =>
               apply get_new_predict_score_adds in Hn; subst
           end.
    unfold stored_boosters in *. cbn [flat_map fst snd]. rewrite Hnth.
    cbn [app List.length map fold_left].
    cbn in Hlog, Hacc.
    split; [rewrite Hlen; reflexivity|].
    split; [rewrite Hlog, <- app_assoc; reflexivity|].
    exact Hacc.
Qed.

Lemma replay_order_length rounds d :
  List.length (replay_order rounds d) = rounds * d.
Proof.
  unfold replay_order, range. generalize 0 at 2.
  induction rounds as [|rounds IH]; intros a; cbn [seq flat_map];
    [reflexivity|].
  rewrite length_app, length_map, length_seq, IH. reflexivity.
Qed.

(** C2.  A prediction of the guest that returns, when what its
    collaborators return is a function of what they are called on and the
    inherited [get_new_predict_score] is the additive update of the spec:
    [booster_dim] is not 0; with [rounds = len(boosting_model_list) //
    booster_dim], the pairs (idx, booster_idx) of [rounds] rounds of
    [booster_dim] boosters are gone through rounds outermost, the order of
    training, and for each the parameter stored at position
    [idx * booster_dim + booster_idx] is handed to
    [load_booster(booster_meta, param, idx, booster_idx)], none being
    skipped; the accumulator starts as every aligned sample mapped to
    [init_score], and the score of each reloaded booster on the aligned data
    is added to it at dimension [booster_idx], in that order; the result is
    [score_to_predict_result] of the aligned data and that accumulator. *)
Theorem predict_accumulates_the_stored_boosters_in_training_order
        data s res s' :
  G.predict data s = (Ok res, s') ->
  let d := booster_dim s in
  let rounds := List.length (boosting_model_list s) / d in
  let replayed :=
    stored_boosters (boosting_model_list s) d (replay_order rounds d) in
  d <> 0 /\
  List.length replayed = rounds * d /\
  log s' = log s ++ map (load_of d) replayed /\
  predict_y_hat s' =
    fold_left (add_score add booster score (align data) (booster_meta s)) replayed
              (map (fun kv => (fst kv, init_score s)) (align data)) /\
  res = to_result (align data) (predict_y_hat s').
Proof.
  intros Hr. rewrite BoostingFacts.guest_predict_is_the_flat_replay in Hr.
  unfold HeteroBoostingSpec.predict in Hr.
  cbv beta delta [bind gets modify lift] in Hr. cbn beta iota zeta in Hr.
  destruct (call (data_alignment data) s) as [[aligned|e] s1] eqn:Ea;
    [|discriminate].
  unfold call in Ea.
  destruct (data_alignment data s) as [r0 c0] eqn:Ea0.
  inversion Ea; subst r0 s1; clear Ea.
  apply data_alignment_returns in Ea0. subst aligned.
  cbn [boosting_model_list booster_dim booster_meta set_predict_y_hat
       set_ctx predict_y_hat init_score log] in Hr.
  unfold floordiv in Hr.
  destruct (booster_dim s) as [|d'] eqn:Hd; [discriminate|].
  cbn beta iota zeta in Hr.
  match type of Hr with
  | context [for_in ?ps ?body ?s0] =>
      destruct (for_in ps body s0) as [[u|e] s2] eqn:El; [|discriminate]
  end.
  destruct u. apply replay_loop_scores in El.
  destruct El as (Hlen & Hlog & Hacc).
  cbn [log predict_y_hat set_predict_y_hat set_ctx] in Hlog, Hacc.
  unfold call in Hr.
  destruct (score_to_predict_result _ _ s2) as [r1 c1] eqn:Es.
  inversion Hr; subst r1 s'; clear Hr.
  apply score_to_predict_result_returns in Es.
  cbn [log predict_y_hat set_ctx].
  split; [discriminate|].
  split; [rewrite Hlen; apply replay_order_length|].
  split; [exact Hlog|].
  split; [exact Hacc | exact Es].
Qed.

End Replay.

Import ScoresCases.

(** Five stored boosters of dimension 2: two rounds are replayed, the
    fifth booster is left out, and sample [key] ends with
    [1000 + (0 + key) + (100 + key)] and
    [2000 + (10 + key) + (110 + key)]. *)
Lemma five_stored_prediction :
  G.predict samples five_stored =
    (Ok [(0, [1100; 2120]); (1, [1102; 2122]); (2, [1104; 2124])],
     snd prediction) /\
  2 <> 0 /\
  List.length (stored_boosters (boosting_model_list five_stored) 2
                               (replay_order 2 2)) = 2 * 2 /\
  log (snd prediction) =
    log five_stored ++
    [LoadBooster 0 (0, 0) 0 0; LoadBooster 1 (0, 1) 0 1;
     LoadBooster 2 (1, 0) 1 0; LoadBooster 3 (1, 1) 1 1] /\
  predict_y_hat (snd prediction) =
    fold_left (add_score Nat.add (fun _ param _ _ => param) score samples tt)
              [(0, 0, (0, 0)); (0, 1, (0, 1)); (1, 0, (1, 0)); (1, 1, (1, 1))]
              [(0, [1000; 2000]); (1, [1000; 2000]); (2, [1000; 2000])] /\
  [(0, [1100; 2120]); (1, [1102; 2122]); (2, [1104; 2124])] =
    predict_y_hat (snd prediction).
Proof.
  assert (H1 : G.predict samples five_stored =
               (Ok [(0, [1100; 2120]); (1, [1102; 2122]); (2, [1104; 2124])],
                snd prediction)) by (vm_compute; reflexivity).
  split; [exact H1|].
  refine (@predict_accumulates_the_stored_boosters_in_training_order
            nat Nat.add base demo
            (fun data => data) (fun _ param _ _ => param) score
            (fun _ acc => acc) _ _ _ _ _ samples five_stored _
            (snd prediction) H1).
  - intros data s r c E. inversion E. reflexivity.
  - intros meta param idx b s r c E. inversion E. reflexivity.
  - intros model data s r c E. inversion E. reflexivity.
  - intros acc w dim s r c E. inversion E. reflexivity.
  - intros data acc s r c E. inversion E. reflexivity.
Defined.

End BoostingScoresFacts.

(** ** Hetero FTL *)

Module FTLFacts.

Import HeteroFTLGuest FTLTrace Runs.

Section Facts.

Context `{Collaborators}.

Lemma adds_app T1 T2 : adds (T1 ++ T2) = adds T1 ++ adds T2.
Proof.
  induction T1 as [|e T1 IH]; cbn; [reflexivity|].
  destruct e; cbn; rewrite IH; reflexivity.
Qed.

Lemma removes_app T1 T2 : removes (T1 ++ T2) = removes T1 ++ removes T2.
Proof.
  induction T1 as [|e T1 IH]; cbn; [reflexivity|].
  destruct e; cbn; rewrite IH; reflexivity.
Qed.

Lemma converge_args_app T1 T2 :
  converge_args (T1 ++ T2) = converge_args T1 ++ converge_args T2.
Proof.
  induction T1 as [|e T1 IH]; cbn; [reflexivity|].
  destruct e; cbn; rewrite IH; reflexivity.
Qed.

Lemma loss_traffic_app T1 T2 :
  loss_traffic (T1 ++ T2) = loss_traffic T1 ++ loss_traffic T2.
Proof. apply filter_app. Qed.

Lemma local_iteration_events local_iter loss s l s' :
  local_iteration local_iter loss s = (Ok l, s') ->
  exists grads loss_ hg dg dec_hg dl,
    trace s' = trace s ++
               local_events local_iter (n_iter_ s) (drawn s)
                            grads loss_ hg dg dec_hg dl /\
    l = (if local_iter =? 0 then Some (unmask dl (S (drawn s))) else loss) /\
    drawn s' = drawn s + 2 /\ n_iter_ s' = n_iter_ s /\ same_bounds s s'.
Proof.
  unfold local_iteration. intros Hr. run_ftl Hr.
  all: inversion Hr; subst; clear Hr; cbn.
  all: unfold local_events; rewrite ?Heqb; cbn.
  all: rewrite <- ?app_assoc; cbn.
  all: unfold same_bounds; cbn.
  all: match goal with
       | Hg : send_gradients _ = (Ok ?g, _),
         Hl : send_loss _ = (Ok ?l, _),
         Hh : transfer_get tv.masked_enc_host_gradients _ _ = (Ok ?hg, _),
         Hd : decrypt_gradients _ _ = Ok ?dh,
         Hr : transfer_get tv.masked_dec_guest_gradients _ _ = (Ok ?dg, _)
         |- _ =>
           exists g, l, hg, dg, dh;
           first [ match goal with
                   | Hl' : transfer_get tv.masked_dec_loss _ _ = (Ok ?dl, _)
                     |- _ => exists dl
                   end
                 | exists l ]
       end.
  all: repeat split; try reflexivity; lia.
Qed.

Lemma local_events_adds li n g grads loss_ hg dg dec_hg dl :
  adds (local_events li n g grads loss_ hg dg dec_hg dl) =
  [(GradientsMasks, g); (LossMask, S g)].
Proof. unfold local_events. destruct (li =? 0); reflexivity. Qed.

Lemma local_events_removes li n g grads loss_ hg dg dec_hg dl :
  removes (local_events li n g grads loss_ hg dg dec_hg dl) =
  (GradientsMasks, g) :: (if li =? 0 then [(LossMask, S g)] else []).
Proof. unfold local_events. destruct (li =? 0); reflexivity. Qed.

Lemma local_events_loss_traffic li n g grads loss_ hg dg dec_hg dl :
  loss_traffic (local_events li n g grads loss_ hg dg dec_hg dl) =
  if li =? 0
  then [Remote tv.masked_enc_loss (Some n) (PVal (mask loss_ (S g)));
        Get tv.masked_dec_loss (Some n) dl;
        RemoveMask LossMask (S g) dl]
  else [].
Proof. unfold local_events. destruct (li =? 0); reflexivity. Qed.

Lemma local_events_converge_args li n g grads loss_ hg dg dec_hg dl :
  converge_args (local_events li n g grads loss_ hg dg dec_hg dl) = [].
Proof. unfold local_events. destruct (li =? 0); reflexivity. Qed.

Lemma local_events_mask_life li n g grads loss_ hg dg dec_hg dl :
  mask_life (local_events li n g grads loss_ hg dg dec_hg dl) =
  [AddMask GradientsMasks g; AddMask LossMask (S g);
   Remote tv.masked_enc_guest_gradients (Some n) (PVal (mask_list grads g))]
  ++ (if li =? 0
      then [Remote tv.masked_enc_loss (Some n) (PVal (mask loss_ (S g)))]
      else [])
  ++ [Get tv.masked_dec_guest_gradients (Some n) dg;
      RemoveMask GradientsMasks g dg]
  ++ (if li =? 0
      then [Get tv.masked_dec_loss (Some n) dl; RemoveMask LossMask (S g) dl]
      else []).
Proof. unfold local_events. destruct (li =? 0); reflexivity. Qed.

(** *** Mask discipline *)

Lemma disciplined_quiet lo hi T :
  adds T = [] -> removes T = [] -> disciplined lo hi T.
Proof.
  intros Ha Hr. constructor; rewrite ?Ha, ?Hr; cbn; try tauto. constructor.
Qed.

Lemma disciplined_app lo mid hi T1 T2 :
  disciplined lo mid T1 -> disciplined mid hi T2 -> lo <= mid -> mid <= hi ->
  disciplined lo hi (T1 ++ T2).
Proof.
  intros [R1 D1 N1 G1] [R2 D2 N2 G2] Hlo Hhi.
  constructor; rewrite ?adds_app, ?removes_app.
  - intros a Ha. apply in_app_or in Ha. destruct Ha as [Ha | Ha].
    + specialize (R1 a Ha). lia.
    + specialize (R2 a Ha). lia.
  - intros a Ha. apply in_or_app. apply in_app_or in Ha.
    destruct Ha as [Ha | Ha]; [left; auto | right; auto].
  - apply NoDup_app; try assumption.
    intros a Ha1 Ha2. specialize (R1 a (D1 a Ha1)). specialize (R2 a (D2 a Ha2)).
    lia.
  - intros m Hm. apply in_or_app. apply in_app_or in Hm.
    destruct Hm as [Hm | Hm]; [left; auto | right; auto].
Qed.

Lemma local_events_disciplined li n g grads loss_ hg dg dec_hg dl :
  disciplined g (g + 2) (local_events li n g grads loss_ hg dg dec_hg dl).
Proof.
  constructor; rewrite ?local_events_adds, ?local_events_removes.
  - intros a [<- | [<- | []]]; cbn; lia.
  - intros a Ha. destruct (li =? 0); cbn in *; tauto.
  - destruct (li =? 0).
    + constructor; [cbn; intros [E | []]; discriminate|].
      constructor; [cbn; tauto | constructor].
    + constructor; [cbn; tauto | constructor].
  - intros m [E | [E | []]]; [|discriminate]. left. exact E.
Qed.

(** Extending a stretch by events that touch no mask. *)
Lemma disciplined_snoc lo hi T e :
  disciplined lo hi T -> adds [e] = [] -> removes [e] = [] -> lo <= hi ->
  disciplined lo hi (T ++ [e]).
Proof.
  intros D Ha Hr Hle. apply disciplined_app with (mid := hi); auto.
  apply disciplined_quiet; assumption.
Qed.

Lemma local_loop_ok iters : forall loss s l s',
  local_loop iters loss s = (Ok l, s') ->
  exists T,
    trace s' = trace s ++ T /\
    disciplined (drawn s) (drawn s') T /\ drawn s <= drawn s' /\
    n_iter_ s' = n_iter_ s /\ same_bounds s s' /\
    converge_args T = [] /\
    (Forall (fun li => li <> 0) iters -> loss_traffic T = [] /\ l = loss).
Proof.
  induction iters as [|li iters IH]; intros loss s l s' Hr.
  - inversion Hr; subst. exists []. rewrite app_nil_r.
    split; [reflexivity|].
    split; [apply disciplined_quiet; reflexivity|].
    repeat split; auto.
  - cbn [local_loop] in Hr. unfold bind in Hr.
    destruct (local_iteration li loss s) as [[l1|e] s1] eqn:E1; [|discriminate].
    apply local_iteration_events in E1.
    destruct E1 as (grads & loss_ & hg & dg & dec_hg & dl & Ht & Hl & Hd & Hn & Hb1 & Hb2).
    apply IH in Hr.
    destruct Hr as (T & Ht' & HD & Hle & Hn' & (Hb1' & Hb2') & Hc & Hlater).
    eexists. split; [rewrite Ht', Ht, <- app_assoc; reflexivity|].
    split.
    { apply disciplined_app with (mid := drawn s1); try lia; [|exact HD].
      rewrite Hd. apply local_events_disciplined. }
    split; [lia|]. split; [congruence|]. split; [split; congruence|].
    split.
    { rewrite converge_args_app, local_events_converge_args, Hc. reflexivity. }
    intros HF. inversion HF as [|x xs Hli HF']; subst x xs.
    destruct (Hlater HF') as [Hlt ->].
    rewrite loss_traffic_app, local_events_loss_traffic, Hlt.
    apply Nat.eqb_neq in Hli. rewrite Hli in *. auto.
Qed.

Lemma disciplined_wrap lo hi P T Q :
  disciplined lo hi T -> lo <= hi ->
  adds P = [] -> removes P = [] -> adds Q = [] -> removes Q = [] ->
  disciplined lo hi (P ++ T ++ Q).
Proof.
  intros D Hle HP1 HP2 HQ1 HQ2.
  apply disciplined_app with (mid := lo); auto.
  - apply disciplined_quiet; assumption.
  - apply disciplined_app with (mid := hi); auto.
    apply disciplined_quiet; assumption.
Qed.

Lemma range_later k : Forall (fun li => li <> 0) (seq 1 k).
Proof.
  apply Forall_forall. intros li Hli. apply in_seq in Hli. lia.
Qed.

Lemma fit_round_ok is_stop s b s' :
  fit_round is_stop s = (Ok b, s') ->
  exists T,
    trace s' = trace s ++ T /\
    disciplined (drawn s) (drawn s') T /\ drawn s <= drawn s' /\
    n_iter_ s' = n_iter_ s + 1 /\ same_bounds s s' /\
    ((local_iterations s = 0 /\ loss_traffic T = [] /\
      converge_args T = [None]) \/
     (0 < local_iterations s /\
      exists loss_ dl,
        loss_traffic T = round_loss_traffic (n_iter_ s) (drawn s) loss_ dl /\
        converge_args T = [Some (unmask dl (S (drawn s)))])).
Proof.
  unfold fit_round. intros Hr. run_ftl Hr.
  all: inversion Hr; subst; clear Hr.
  all: match goal with
       | E : local_loop _ _ _ = _ |- _ => rename E into Hloop
       end.
  all: destruct (local_iterations s) as [|k] eqn:Hk.
  all: unfold range in Hloop; cbn [seq local_loop] in Hloop.
  all: try (inversion Hloop; subst; clear Hloop; cbn;
            rewrite <- ?app_assoc; cbn;
            eexists; split; [reflexivity|];
            split; [apply disciplined_quiet; reflexivity|];
            unfold same_bounds; cbn; repeat split; auto; try lia;
            left; repeat split; auto; fail).
  all: unfold bind in Hloop.
  all: match type of Hloop with
       | context [local_iteration 0 None ?s1] =>
           destruct (local_iteration 0 None s1) as [[l1|ex] s2] eqn:E1;
             [|discriminate]
       end.
  all: apply local_iteration_events in E1;
    destruct E1 as (grads & loss_ & hg & dg & dec_hg & dl & Ht & Hl & Hd & Hn & Hb1 & Hb2).
  all: apply local_loop_ok in Hloop;
    destruct Hloop as (T & Ht' & HD & Hle & Hn' & (Hb1' & Hb2') & Hc & Hlater).
  all: destruct (Hlater (range_later k)) as [Hlt ->].
  all: cbn [Nat.eqb] in Hl; subst l1.
  all: match type of Ht with
       | _ = _ ++ ?L => remember L as LE eqn:HLE in Ht
       end.
  all: ftl_fields HLE; cbn in Ht, Hd, Hn, Hb1, Hb2.
  all: cbn; rewrite Ht', Ht, <- ?app_assoc; cbn.
  all: eexists; split; [reflexivity|].
  all: split;
    [ match goal with
      | |- disciplined _ _ (?e1 :: ?e2 :: ?L ++ ?T ++ ?Q) =>
          rewrite (app_assoc L T Q);
          apply (disciplined_wrap _ _ [e1; e2] (L ++ T) Q);
            [ apply disciplined_app with (mid := drawn s2);
              [subst LE; rewrite Hd; apply local_events_disciplined
              | exact HD | lia | lia]
            | lia | reflexivity | reflexivity | reflexivity | reflexivity ]
      end |].
  all: unfold same_bounds; cbn; repeat split; try lia; try congruence.
  all: right; split; [lia|]; exists loss_, dl.
  all: change (?e1 :: ?e2 :: ?L ++ ?T ++ ?Q) with ([e1; e2] ++ L ++ T ++ Q).
  all: subst LE.
  all: repeat change (filter is_loss_traffic ?X) with (loss_traffic X).
  all: rewrite ?loss_traffic_app, ?converge_args_app,
         ?local_events_loss_traffic, ?local_events_converge_args, ?Hlt, ?Hc.
  all: split; reflexivity.
Qed.

(** A later local iteration, however it ends. *)
Lemma local_iteration_later local_iter loss s r s' :
  local_iter <> 0 ->
  local_iteration local_iter loss s = (r, s') ->
  exists T, trace s' = trace s ++ T /\ loss_traffic T = [] /\
            forall l, r = Ok l -> l = loss.
Proof.
  intros Hli Hr. apply Nat.eqb_neq in Hli.
  unfold local_iteration in Hr. rewrite !Hli in Hr. run_ftl Hr.
  all: inversion Hr; subst; clear Hr; cbn; rewrite <- ?app_assoc; cbn.
  all: lazymatch goal with
       | |- exists T, ?a ++ ?X = ?a ++ T /\ _ => exists X
       | |- exists T, ?a = ?a ++ T /\ _ => exists []; rewrite app_nil_r
       end.
  all: repeat split; try reflexivity; intros l0 Hl0; congruence.
Qed.

Lemma fit_rounds_ok fuel : forall is_stop s s',
  fit_rounds fuel is_stop s = (Ok tt, s') ->
  exists T,
    trace s' = trace s ++ T /\
    disciplined (drawn s) (drawn s') T /\ drawn s <= drawn s'.
Proof.
  induction fuel as [|fuel IH]; intros is_stop s s' Hr.
  - cbn [fit_rounds] in Hr. unfold bind, gets in Hr.
    destruct (n_iter_ s <? max_iter s); [discriminate|].
    inversion Hr; subst. exists []. rewrite app_nil_r.
    split; [reflexivity|]. split; [apply disciplined_quiet; reflexivity | lia].
  - cbn [fit_rounds] in Hr. unfold bind at 1 2, gets in Hr.
    destruct (n_iter_ s <? max_iter s).
    + unfold bind in Hr.
      destruct (fit_round is_stop s) as [[b|e] s1] eqn:E1; [|discriminate].
      apply fit_round_ok in E1.
      destruct E1 as (T1 & Ht1 & HD1 & Hle1 & _).
      destruct b.
      * inversion Hr; subst. exists T1. auto.
      * apply IH in Hr. destruct Hr as (T & Ht & HD & Hle).
        exists (T1 ++ T). split; [rewrite Ht, Ht1, app_assoc; reflexivity|].
        split; [|lia].
        apply disciplined_app with (mid := drawn s1); auto.
    + inversion Hr; subst. exists []. rewrite app_nil_r.
      split; [reflexivity|]. split; [apply disciplined_quiet; reflexivity | lia].
Qed.

Lemma fit_rounds_unfold fuel is_stop s :
  fit_rounds fuel is_stop s =
  if n_iter_ s <? max_iter s then
    match fuel with
    | O => (Raise OutOfFuel, s)
    | S fuel' =>
        match fit_round is_stop s with
        | (Ok b, s1) => if b then (Ok tt, s1) else fit_rounds fuel' b s1
        | (Raise e, s1) => (Raise e, s1)
        end
    end
  else (Ok tt, s).
Proof.
  destruct fuel; cbn [fit_rounds]; unfold bind, gets;
    destruct (n_iter_ s <? max_iter s); try reflexivity.
  destruct (fit_round is_stop s) as [[[|]|e] s1]; reflexivity.
Qed.

(** The loop is given steps enough: more change nothing. *)
Lemma fit_rounds_fuel fuel1 : forall fuel2 is_stop s,
  max_iter s - n_iter_ s <= fuel1 -> max_iter s - n_iter_ s <= fuel2 ->
  fit_rounds fuel1 is_stop s = fit_rounds fuel2 is_stop s.
Proof.
  induction fuel1 as [|fuel1 IH]; intros fuel2 is_stop s H1 H2;
    rewrite (fit_rounds_unfold _ is_stop s);
    rewrite (fit_rounds_unfold fuel2 is_stop s);
    destruct (Nat.ltb_spec (n_iter_ s) (max_iter s)); try reflexivity;
    try lia.
  destruct fuel2 as [|fuel2]; [lia|].
  destruct (fit_round is_stop s) as [[b|e] s1] eqn:E1; [|reflexivity].
  destruct b; [reflexivity|].
  apply fit_round_ok in E1.
  destruct E1 as (_ & _ & _ & _ & Hn & (Hb & _) & _).
  apply IH; lia.
Qed.

Lemma fit_ok guest_data s s' :
  fit guest_data s = (Ok tt, s') ->
  exists T,
    trace s' = trace s ++ T /\
    disciplined (drawn s) (drawn s') T.
Proof.
  unfold fit, prepare_encryption_key_pair, prepare_data. intros Hr.
  run_ftl Hr.
  all: try discriminate.
  rename Hr into Hloop.
  apply fit_rounds_ok in Hloop. destruct Hloop as (T & Ht & HD & Hle).
  cbn in Ht, HD, Hle. rewrite Ht, <- ?app_assoc. cbn.
  eexists. split; [reflexivity|].
  match goal with
  | |- disciplined _ _ (?e1 :: ?e2 :: ?e3 :: ?e4 :: ?T) =>
      change (e1 :: e2 :: e3 :: e4 :: T) with ([e1; e2; e3; e4] ++ T)
  end.
  apply disciplined_app with (mid := drawn s); auto.
  apply disciplined_quiet; reflexivity.
Qed.


(** C3, as amended.  In a [fit] that returns, every gradients mask drawn
    is removed exactly once, no mask is removed twice, and only masks
    drawn are removed.  Within a local iteration that returns, the
    gradients mask is removed from the value received on
    [masked_dec_guest_gradients]; the loss mask is removed, from the value
    received on [masked_dec_loss], when [local_iter = 0], and in a later
    local iteration it is drawn and neither sent nor removed. *)
Theorem gradients_masks_removed_once_loss_mask_on_first_iteration :
  (forall guest_data s s',
      fit guest_data s = (Ok tt, s') ->
      exists T,
        trace s' = trace s ++ T /\
        (forall m, In (GradientsMasks, m) (adds T) ->
                   times_removed (GradientsMasks, m) T = 1) /\
        (forall a, times_removed a T <= 1) /\
        (forall a, In a (removes T) -> In a (adds T))) /\
  (forall local_iter loss s l s',
      local_iteration local_iter loss s = (Ok l, s') ->
      exists T grads loss_ dg dl,
        trace s' = trace s ++ T /\
        mask_life T =
          [AddMask GradientsMasks (drawn s); AddMask LossMask (S (drawn s));
           Remote tv.masked_enc_guest_gradients (Some (n_iter_ s))
                  (PVal (mask_list grads (drawn s)))]
          ++ (if local_iter =? 0
              then [Remote tv.masked_enc_loss (Some (n_iter_ s))
                           (PVal (mask loss_ (S (drawn s))))]
              else [])
          ++ [Get tv.masked_dec_guest_gradients (Some (n_iter_ s)) dg;
              RemoveMask GradientsMasks (drawn s) dg]
          ++ (if local_iter =? 0
              then [Get tv.masked_dec_loss (Some (n_iter_ s)) dl;
                    RemoveMask LossMask (S (drawn s)) dl]
              else [])).
Proof.
  split.
  - intros guest_data s s' Hr. apply fit_ok in Hr.
    destruct Hr as (T & Ht & [R D N G]). exists T.
    split; [exact Ht|]. split; [|split].
    + intros m Hm. unfold times_removed.
      apply (proj1 (NoDup_count_occ' mask_eq_dec (removes T)) N).
      apply G. exact Hm.
    + intros a. unfold times_removed.
      apply (proj1 (NoDup_count_occ mask_eq_dec (removes T)) N).
    + exact D.
  - intros local_iter loss s l s' Hr. apply local_iteration_events in Hr.
    destruct Hr as (grads & loss_ & hg & dg & dec_hg & dl & Ht & _).
    eexists. exists grads, loss_, dg, dl. split; [exact Ht|].
    apply local_events_mask_life.
Qed.

End Facts.

(** C3, as stated, fails: of the four masks drawn in one round of two
    local iterations, the loss mask of the second (mask 3) is never
    removed. *)
Lemma loss_mask_of_later_local_iteration_is_never_removed :
  fit (H := Scenario.FTL.demo) 5 Scenario.FTL.two_local_iterations = two_local_run /\
  fst two_local_run = Ok tt /\
  ~ every_mask_removed_once (trace (snd two_local_run)).
Proof.
  split; [vm_compute; reflexivity|]. split; [reflexivity|].
  intros Hall. specialize (Hall (LossMask, 3)).
  assert (Hin : In (LossMask, 3) (adds (trace (snd two_local_run)))).
  { cbn. auto 10. }
  specialize (Hall Hin).
  assert (E : times_removed (LossMask, 3) (trace (snd two_local_run)) = 0)
    by (vm_compute; reflexivity).
  rewrite E in Hall. discriminate.
Qed.

End FTLFacts.

(** ** Hetero k-means *)

Module KmeansFacts.

Import HeteroKmeans KmeansTrace KmeansRounds Runs.

Module A := HeteroKmenasArbiter.

Module C := HeteroKmeansClient.

Module tvk := HeteroKmeans.transfer_variable.

Section Facts.

Context `{Collaborators}.

(** An arbiter round that runs to its end: what it was given, its
    messages, its decision, and the round counter. *)
Lemma arbiter_round_ok s n ctl s' :
  A.fit_round s = (Ok (n, ctl), s') ->
  exists x,
    assigned x /\
    A.sent s' = A.sent s ++ round_events (A.n_iter_ s) x /\
    n = combined x /\
    ctl = (if A.lt n (A.tol s) then Break else Next) /\
    A.n_iter_ s' = (if A.lt n (A.tol s) then A.n_iter_ s else A.n_iter_ s + 1) /\
    A.max_iter s' = A.max_iter s /\ A.tol s' = A.tol s.
Proof.
  unfold A.fit_round. intros Hr. run_kmeans Hr.
  all: inversion Hr; subst; clear Hr; cbn.
  all: match goal with
       | H1 : get_table tvk.guest_dist _ _ _ = (Ok ?p1, _),
         H2 : get_table tvk.host_dist _ _ _ = (Ok ?p2, _),
         Hj : join_add _ _ = Ok ?d,
         Hc : centroid_assign _ = Ok ?a,
         H3 : get_number tvk.guest_tol _ _ _ = (Ok ?t1, _),
         H4 : get_number tvk.host_tol _ _ _ = (Ok ?t2, _) |- _ =>
           exists (mkRound p1 p2 a t1 t2);
           split; [exists d; split; assumption|]
       end.
  all: unfold round_events, combined; cbn.
  all: rewrite <- ?app_assoc; cbn.
  all: match goal with
       | Hl : A.lt _ _ = _ |- _ => unfold A.lt in Hl; rewrite Hl
       end.
  all: repeat split; reflexivity.
Qed.

(** However an arbiter round ends, what it puts on [arbiter_tol] is a
    number, under no suffix. *)
Lemma arbiter_tol_is_a_number_without_suffix s r s' :
  A.fit_round s = (r, s') ->
  exists T,
    A.sent s' = A.sent s ++ T /\
    Forall (fun e => is_arbiter_tol e = true ->
                     suffix_of e = None /\
                     exists n role, e = Remote tvk.arbiter_tol (PNumber n) role (-1) None)
           T.
Proof.
  unfold A.fit_round. intros Hr. run_kmeans Hr.
  all: inversion Hr; subst; clear Hr; cbn; rewrite <- ?app_assoc; cbn.
  all: lazymatch goal with
       | |- exists T, ?a ++ ?X = ?a ++ T /\ _ => exists X
       | |- exists T, ?a = ?a ++ T /\ _ => exists []; rewrite app_nil_r
       end.
  all: split; [reflexivity|].
  all: repeat constructor; cbn; try discriminate; eauto.
Qed.

Lemma arbiter_rounds_unfold fuel n s :
  A.fit_rounds fuel n s =
  if (A.n_iter_ s <? A.max_iter s) && A.gt n (A.tol s) then
    match fuel with
    | O => (Raise OutOfFuel, s)
    | S fuel' =>
        match A.fit_round s with
        | (Ok (n', Break), s1) => (Ok tt, s1)
        | (Ok (n', Next), s1) => A.fit_rounds fuel' n' s1
        | (Raise e, s1) => (Raise e, s1)
        end
    end
  else (Ok tt, s).
Proof.
  destruct fuel; cbn [A.fit_rounds]; unfold bind, gets;
    destruct ((A.n_iter_ s <? A.max_iter s) && A.gt n (A.tol s));
    try reflexivity.
  destruct (A.fit_round s) as [[[n' [|]]|e] s1]; reflexivity.
Qed.

(** The arbiter's loop is given steps enough: more change nothing. *)
Lemma arbiter_rounds_fuel fuel1 : forall fuel2 n s,
  A.max_iter s - A.n_iter_ s <= fuel1 ->
  A.max_iter s - A.n_iter_ s <= fuel2 ->
  A.fit_rounds fuel1 n s = A.fit_rounds fuel2 n s.
Proof.
  induction fuel1 as [|fuel1 IH]; intros fuel2 n s H1 H2;
    rewrite (arbiter_rounds_unfold _ n s);
    rewrite (arbiter_rounds_unfold fuel2 n s);
    destruct (Nat.ltb_spec (A.n_iter_ s) (A.max_iter s)); cbn [andb];
    try reflexivity; try lia.
  all: destruct (A.gt n (A.tol s)); try reflexivity; try lia.
  destruct fuel2 as [|fuel2]; [lia|].
  destruct (A.fit_round s) as [[[n' ctl]|e] s1] eqn:E1; [|reflexivity].
  destruct ctl; [|reflexivity].
  apply arbiter_round_ok in E1.
  destruct E1 as (x & _ & _ & _ & Hctl & Hn & Hm & _).
  destruct (A.lt n' (A.tol s)); [discriminate|].
  apply IH; lia.
Qed.

(** The loop of the arbiter, entered with combined tolerance [n]. *)
Lemma arbiter_rounds fuel : forall n s s',
  A.fit_rounds fuel n s = (Ok tt, s') ->
  exists l,
    A.sent s' = A.sent s ++ rounds_events (A.n_iter_ s) l /\
    Forall assigned l /\
    List.length l <= A.max_iter s - A.n_iter_ s /\
    (l <> [] -> A.gt n (A.tol s) = true) /\
    (l = [] -> A.max_iter s <= A.n_iter_ s \/ A.gt n (A.tol s) = false) /\
    Forall (fun x => A.lt (combined x) (A.tol s) = false /\
                     A.gt (combined x) (A.tol s) = true) (removelast l) /\
    ((exists l0 x, l = l0 ++ [x] /\ A.lt (combined x) (A.tol s) = true /\
                   A.n_iter_ s' = A.n_iter_ s + List.length l0) \/
     (A.n_iter_ s' = A.n_iter_ s + List.length l /\
      forall l0 x, l = l0 ++ [x] ->
        A.lt (combined x) (A.tol s) = false /\
        (A.max_iter s <= A.n_iter_ s' \/
         A.gt (combined x) (A.tol s) = false))).
Proof.
  assert (Hstop : forall n s,
             A.max_iter s <= A.n_iter_ s \/ A.gt n (A.tol s) = false ->
             exists l : list Round,
               A.sent s = A.sent s ++ rounds_events (A.n_iter_ s) l /\
               Forall assigned l /\
               List.length l <= A.max_iter s - A.n_iter_ s /\
               (l <> [] -> A.gt n (A.tol s) = true) /\
               (l = [] -> A.max_iter s <= A.n_iter_ s \/
                          A.gt n (A.tol s) = false) /\
               Forall (fun x => A.lt (combined x) (A.tol s) = false /\
                                A.gt (combined x) (A.tol s) = true)
                      (removelast l) /\
               ((exists l0 x, l = l0 ++ [x] /\
                              A.lt (combined x) (A.tol s) = true /\
                              A.n_iter_ s = A.n_iter_ s + List.length l0) \/
                (A.n_iter_ s = A.n_iter_ s + List.length l /\
                 forall l0 x, l = l0 ++ [x] ->
                   A.lt (combined x) (A.tol s) = false /\
                   (A.max_iter s <= A.n_iter_ s \/
                    A.gt (combined x) (A.tol s) = false)))).
  { intros n s Hend. exists []. cbn. rewrite app_nil_r, Nat.add_0_r.
    split; [reflexivity|]. split; [constructor|]. split; [lia|].
    split; [intros Hne; contradiction|].
    split; [intros _; exact Hend|]. split; [constructor|].
    right. split; [reflexivity|].
    intros [|y l0] x Hl; discriminate. }
  induction fuel as [|fuel IH]; intros n s s' Hr;
    rewrite arbiter_rounds_unfold in Hr;
    pose proof (Hstop n s) as Hstay;
    destruct (Nat.ltb_spec (A.n_iter_ s) (A.max_iter s)) as [Hlt | Hge];
    cbn [andb] in Hr.
  - destruct (A.gt n (A.tol s)) eqn:Hg; [discriminate|].
    inversion Hr; subst. apply Hstay. right. reflexivity.
  - inversion Hr; subst. apply Hstay. left. exact Hge.
  - destruct (A.gt n (A.tol s)) eqn:Hg;
      [| inversion Hr; subst; apply Hstay; right; reflexivity].
    destruct (A.fit_round s) as [[[q ctl]|e] s1] eqn:E1; [|discriminate].
    apply arbiter_round_ok in E1.
    destruct E1 as (x & Hx & Hs1 & Hq & Hctl & Hn1 & Hm1 & Ht1).
    subst q.
    destruct (A.lt (combined x) (A.tol s)) eqn:Hl; subst ctl.
    + inversion Hr; subst. exists [x].
      cbn [rounds_events List.length removelast]. rewrite app_nil_r.
      split; [exact Hs1|]. split; [constructor; [exact Hx | constructor]|].
      split; [lia|]. split; [reflexivity|].
      split; [discriminate|]. split; [constructor|].
      left. exists [], x. cbn. rewrite Nat.add_0_r. auto.
    + apply IH in Hr.
      destruct Hr as (l & Hs & Hass & Hle & Hne & Hnil & Hall & Hcase).
      rewrite Hn1, Hm1, Ht1 in *.
      replace (A.n_iter_ s + 1) with (S (A.n_iter_ s)) in Hs by lia.
      exists (x :: l). cbn [rounds_events List.length].
      split; [rewrite Hs, Hs1, <- app_assoc; reflexivity|].
      split; [constructor; assumption|].
      split; [lia|]. split; [reflexivity|]. split; [discriminate|].
      split.
      { destruct l as [|y l]; [constructor|].
        change (removelast (x :: y :: l)) with (x :: removelast (y :: l)).
        constructor; [|exact Hall]. split; [exact Hl|].
        apply Hne. discriminate. }
      destruct Hcase as [(l0 & x' & -> & Hlt' & Hn') | (Hn' & Hlast)].
      * left. exists (x :: l0), x'. cbn [app List.length].
        split; [reflexivity|]. split; [exact Hlt' | lia].
      * right. split; [lia|]. intros l0 x' Hl0.
        destruct l0 as [|y l0].
        -- cbn in Hl0. inversion Hl0; subst.
           split; [exact Hl|].
           destruct (Hnil eq_refl) as [Hmax | Hgt]; [left; cbn in *; lia|].
           right. exact Hgt.
        -- cbn in Hl0. injection Hl0 as _ Hl0'.
           destruct (Hlast l0 x' Hl0') as [Hx' Hy].
           split; [exact Hx'|].
           destruct Hy as [Hy | Hy]; [left; lia | right; exact Hy].
  - inversion Hr; subst. apply Hstay. left. exact Hge.
Qed.

Section Client.

Variable squared_movement : Centroids -> PyList -> Result TolValue.
Variable get_signal :
  TransferVariable -> Z -> option Suffix -> Env -> Result Signal * Env.

(** Once [centroid_list] is [None], the next pass of the loop cannot
    end well. *)
Lemma centroid_cal_loop_from_none kks a d l :
  C.centroid_cal_loop kks a d None_ = Ok l -> kks = [] /\ l = None_.
Proof.
  destruct kks as [|kk rest]; cbn; intros Hr.
  - inversion Hr. auto.
  - destruct (cluster_mean a d kk); discriminate.
Qed.

(** [centroid_cal] returns no list unless [k] is 0, and nothing at all
    from [k] = 2 on. *)
Lemma centroid_cal_returns_no_list a d c s r s' :
  1 <= C.k s ->
  C.centroid_cal a d c s = (r, s') ->
  s' = s /\ (forall l, r <> Ok (List_ l)) /\
  (2 <= C.k s -> exists e, r = Raise e).
Proof.
  intros Hk Hr. unfold C.centroid_cal, bind, gets, lift in Hr.
  injection Hr as Hres Hs. subst s' r. split; [reflexivity|].
  destruct (C.k s) as [|[|k']] eqn:E; [lia| |].
  - split; [|intros HH; exfalso; lia]. intros l. cbn.
    destruct (cluster_mean a d 0); discriminate.
  - split.
    + intros l. cbn.
      destruct (cluster_mean a d 0); [|discriminate].
      destruct (cluster_mean a d 1); [|discriminate].
      cbn. discriminate.
    + intros _. cbn.
      destruct (cluster_mean a d 0); [|eauto].
      destruct (cluster_mean a d 1); cbn; eauto.
Qed.

(** A client round, however it ends: either it was given a value on
    [arbiter_tol], under the suffix of the round, counted the round and
    took its decision on that value; or it raised before, with nothing
    asked on [arbiter_tol] and the round not counted. *)
Lemma client_round_signal data c s r s' :
  C.fit_round squared_movement get_signal data c s = (r, s') ->
  exists T,
    C.sent s' = C.sent s ++ T /\ C.max_iter s' = C.max_iter s /\
    ((exists tol_tag,
         filter is_arbiter_tol T = [asked (C.n_iter_ s) tol_tag] /\
         received_signals T = [tol_tag] /\
         r = Ok (if eq_one tol_tag then Break else Next) /\
         C.n_iter_ s' = C.n_iter_ s + 1) \/
     (filter is_arbiter_tol T = [] /\ received_signals T = [] /\
      (exists e, r = Raise e) /\ C.n_iter_ s' = C.n_iter_ s)).
Proof.
  unfold C.fit_round. intros Hr. run_kmeans Hr.
  all: inversion Hr; subst; clear Hr; cbn; rewrite <- ?app_assoc; cbn.
  all: lazymatch goal with
       | |- exists T, ?a ++ ?X = ?a ++ T /\ _ => exists X
       | |- exists T, ?a = ?a ++ T /\ _ => exists []; rewrite app_nil_r
       end.
  all: split; [reflexivity|]. all: split; [reflexivity|].
  all: cbn; unfold is_arbiter_tol; cbn.
  all: destruct (C.binding s); cbn.
  all: try (right; repeat split; try reflexivity; eauto; fail).
  all: left; eexists; unfold asked; repeat split; try reflexivity.
  all: match goal with Hl : eq_one _ = _ |- _ => rewrite Hl end; reflexivity.
Qed.

(** A client round that runs to its end: its messages, all under the
    round's suffix, and its decision, taken on the value received. *)
Lemma client_round_ok data c s ctl s' :
  C.fit_round squared_movement get_signal data c s = (Ok ctl, s') ->
  exists table a tolerance tol_tag e,
    get_signal tvk.arbiter_tol 0 (Some (STuple [C.n_iter_ s])) e =
      (Ok tol_tag, C.env s') /\
    C.sent s' =
      C.sent s ++
      [Remote (C.client_dist (C.binding s)) (PTable table) ARBITER 0
              (Some (STuple [C.n_iter_ s]));
       Get tvk.cluster_result (RAssign a) 0 (Some (STuple [C.n_iter_ s]));
       Remote (C.client_tol (C.binding s)) (PTol tolerance) ARBITER 0
              (Some (STuple [C.n_iter_ s]));
       asked (C.n_iter_ s) tol_tag] /\
    ctl = (if eq_one tol_tag then Break else Next) /\
    C.n_iter_ s' = C.n_iter_ s + 1 /\ C.max_iter s' = C.max_iter s.
Proof.
  unfold C.fit_round. intros Hr. run_kmeans Hr.
  all: inversion Hr; subst; clear Hr; cbn; rewrite <- ?app_assoc; cbn.
  all: match goal with
       | Hd : dist_all _ _ _ = (Ok ?t, _),
         Ha : get_assign _ _ _ _ = (Ok ?a, _),
         Hm : squared_movement _ _ = Ok ?v,
         Hg : get_signal _ _ _ ?e = (Ok ?tag, _) |- _ =>
           exists t, a, v, tag, e
       end.
  all: match goal with Hl : eq_one _ = _ |- _ => rewrite Hl end.
  all: repeat split; try reflexivity; assumption.
Qed.

Lemma client_rounds_unfold fuel data c s :
  C.fit_rounds squared_movement get_signal fuel data c s =
  if C.n_iter_ s <? C.max_iter s then
    match fuel with
    | O => (Raise OutOfFuel, s)
    | S fuel' =>
        match C.fit_round squared_movement get_signal data c s with
        | (Ok Break, s1) => (Ok tt, s1)
        | (Ok Next, s1) =>
            C.fit_rounds squared_movement get_signal fuel' data c s1
        | (Raise e, s1) => (Raise e, s1)
        end
    end
  else (Ok tt, s).
Proof.
  destruct fuel; cbn [C.fit_rounds]; unfold bind, gets;
    destruct (C.n_iter_ s <? C.max_iter s); try reflexivity.
  destruct (C.fit_round squared_movement get_signal data c s)
    as [[[|]|e] s1]; reflexivity.
Qed.

(** The client's loop is given steps enough: more change nothing. *)
Lemma client_rounds_fuel fuel1 : forall fuel2 data c s,
  C.max_iter s - C.n_iter_ s <= fuel1 ->
  C.max_iter s - C.n_iter_ s <= fuel2 ->
  C.fit_rounds squared_movement get_signal fuel1 data c s =
  C.fit_rounds squared_movement get_signal fuel2 data c s.
Proof.
  induction fuel1 as [|fuel1 IH]; intros fuel2 data c s H1 H2;
    rewrite (client_rounds_unfold _ data c s);
    rewrite (client_rounds_unfold fuel2 data c s);
    destruct (Nat.ltb_spec (C.n_iter_ s) (C.max_iter s));
    try reflexivity; try lia.
  destruct fuel2 as [|fuel2]; [lia|].
  destruct (C.fit_round squared_movement get_signal data c s)
    as [[ctl|e] s1] eqn:E1; [|reflexivity].
  destruct ctl; [|reflexivity].
  apply client_round_ok in E1.
  destruct E1 as (t & a & v & tag & e & _ & _ & _ & Hn & Hm).
  apply IH; lia.
Qed.

Lemma received_signals_app l1 l2 :
  received_signals (l1 ++ l2) = received_signals l1 ++ received_signals l2.
Proof.
  induction l1 as [|e l1 IH]; cbn; [reflexivity|].
  destruct e as [name p role idx suffix|[] [t|a|n|tol_tag] idx suffix];
    cbn; rewrite IH; reflexivity.
Qed.

(** The loop of a client, however it ends. *)
Lemma client_rounds fuel : forall data c s r s',
  C.fit_rounds squared_movement get_signal fuel data c s = (r, s') ->
  exists T,
    C.sent s' = C.sent s ++ T /\
    C.max_iter s' = C.max_iter s /\
    C.n_iter_ s' = C.n_iter_ s + List.length (received_signals T) /\
    exit_on_signal (received_signals T) r (C.max_iter s <= C.n_iter_ s').
Proof.
  induction fuel as [|fuel IH]; intros data c s r s' Hr;
    rewrite client_rounds_unfold in Hr;
    destruct (Nat.ltb_spec (C.n_iter_ s) (C.max_iter s)) as [Hlt | Hge].
  - inversion Hr; subst. exists []. rewrite app_nil_r. cbn.
    repeat split; try lia. right. split; [constructor | discriminate].
  - inversion Hr; subst. exists []. rewrite app_nil_r. cbn.
    repeat split; try lia. right. split; [constructor | intros _; lia].
  - destruct (C.fit_round squared_movement get_signal data c s)
      as [r1 s1] eqn:E1.
    apply client_round_signal in E1.
    destruct E1 as (T1 & Hs1 & Hm1 &
                    [(tol_tag & _ & Hsig & -> & Hn1) | (_ & Hsig & (e & ->) & Hn1)]).
    + destruct (eq_one tol_tag) eqn:Hone.
      * inversion Hr; subst. exists T1. rewrite Hsig. cbn.
        repeat split; try assumption.
        left. exists [], tol_tag. repeat split; auto.
      * apply IH in Hr. destruct Hr as (T2 & Hs2 & Hm2 & Hn2 & Hexit).
        exists (T1 ++ T2). rewrite received_signals_app, Hsig. cbn.
        split; [rewrite Hs2, Hs1, app_assoc; reflexivity|].
        split; [congruence|]. split; [lia|].
        destruct Hexit as [(sigs0 & t & Hl & Hall & Ht & Hok) | (Hall & Hok)].
        -- left. exists (tol_tag :: sigs0), t. rewrite Hl.
           repeat split; auto.
        -- right. split; [constructor; assumption|].
           intros Hres. specialize (Hok Hres). lia.
    + inversion Hr; subst. exists T1. rewrite Hsig. cbn.
      repeat split; try assumption; try lia.
      right. split; [constructor | discriminate].
  - inversion Hr; subst. exists []. rewrite app_nil_r. cbn.
    repeat split; try lia. right. split; [constructor | intros _; lia].
Qed.

(** [fit] of a client, however it ends. *)
Lemma client_fit_signals data s r s' :
  C.fit squared_movement get_signal data s = (r, s') ->
  exists T,
    C.sent s' = C.sent s ++ T /\
    C.n_iter_ s' = C.n_iter_ s + List.length (received_signals T) /\
    exit_on_signal (received_signals T) r (C.max_iter s <= C.n_iter_ s').
Proof.
  unfold C.fit, bind, gets, lift. intros Hr.
  destruct (_abnormal_detection data);
    [| inversion Hr; subst; exists []; rewrite app_nil_r; cbn;
       repeat split; try lia; right; split; [constructor | discriminate]].
  destruct get_centroid as [c|e];
    [| inversion Hr; subst; exists []; rewrite app_nil_r; cbn;
       repeat split; try lia; right; split; [constructor | discriminate]].
  apply client_rounds in Hr. destruct Hr as (T & Hs & _ & Hn & Hexit).
  exists T. repeat split; assumption.
Qed.


(** What a client asks for on [arbiter_tol], however its round ends: the
    value under the suffix of its own round, once if the round returns
    and never otherwise. *)
Lemma client_asks_under_its_round data c s :
  exists T,
    C.sent (snd (C.fit_round squared_movement get_signal data c s)) =
      C.sent s ++ T /\
    (forall e, In e (filter is_arbiter_tol T) ->
               suffix_of e = Some (STuple [C.n_iter_ s])) /\
    (forall ctl,
        fst (C.fit_round squared_movement get_signal data c s) = Ok ctl ->
        map suffix_of (filter is_arbiter_tol T) =
          [Some (STuple [C.n_iter_ s])]).
Proof.
  destruct (C.fit_round squared_movement get_signal data c s) as [r s'] eqn:E.
  apply client_round_signal in E.
  destruct E as (T & Hs & _ &
                 [(tol_tag & Hf & _ & -> & _) | (Hf & _ & (e & ->) & _)]).
  - exists T. rewrite Hf. cbn [fst snd]. split; [exact Hs|]. split.
    + intros e [<- | []]. reflexivity.
    + intros _ _. reflexivity.
  - exists T. rewrite Hf. cbn [fst snd]. split; [exact Hs|]. split.
    + intros e0 [].
    + intros ctl Hc. discriminate.
Qed.

End Client.

(** Line 83 as the file has it: no round of a client runs to its end,
    and none gets as far as the tolerance. *)
Lemma client_round_of_the_file_raises get_signal data c s :
  exists e T,
    fst (C.fit_round C.squared_movement_of_the_file get_signal data c s) =
      Raise e /\
    C.sent (snd (C.fit_round C.squared_movement_of_the_file get_signal
                             data c s)) = C.sent s ++ T /\
    filter is_client_tol T = [] /\ filter is_arbiter_tol T = [] /\
    C.n_iter_ (snd (C.fit_round C.squared_movement_of_the_file get_signal
                                data c s)) = C.n_iter_ s.
Proof.
  destruct (C.fit_round C.squared_movement_of_the_file get_signal data c s)
    as [r s'] eqn:E.
  unfold C.fit_round, C.squared_movement_of_the_file in E. run_kmeans E.
  all: inversion E; subst; clear E; cbn; rewrite <- ?app_assoc; cbn.
  all: eexists.
  all: lazymatch goal with
       | |- exists T, _ /\ ?a ++ ?X = ?a ++ T /\ _ => exists X
       | |- exists T, _ /\ ?a = ?a ++ T /\ _ => exists []; rewrite app_nil_r
       end.
  all: repeat split; try reflexivity.
  all: destruct (C.binding s); reflexivity.
Qed.

(** X26.  [fit] of a client as the file has it, where line 83 names [np]
    and the module binds no such name: with rounds left in its budget
    [fit] raises in its first round, whatever the transport and the other
    collaborators do; it raises [NameError] when they return and
    [centroid_cal] does (C6).  However it ends, it has sent no tolerance
    and asked for nothing on [arbiter_tol], and [n_iter_] is where it
    was: [fit] returns only with its budget used up on entry, and has
    then sent nothing. *)
Theorem client_fit_of_the_file_completes_no_round get_signal data s :
  exists T,
    C.sent (snd (C.fit C.squared_movement_of_the_file get_signal data s)) =
      C.sent s ++ T /\
    filter is_client_tol T = [] /\ filter is_arbiter_tol T = [] /\
    C.n_iter_ (snd (C.fit C.squared_movement_of_the_file get_signal data s)) =
      C.n_iter_ s /\
    (C.n_iter_ s < C.max_iter s ->
     exists e,
       fst (C.fit C.squared_movement_of_the_file get_signal data s) =
         Raise e /\
       (forall c table a centroid_new e1 e2,
           _abnormal_detection data = Ok tt -> get_centroid = Ok c ->
           dist_all data c (C.env s) = (Ok table, e1) ->
           get_assign tvk.cluster_result 0 (Some (STuple [C.n_iter_ s])) e1 =
             (Ok a, e2) ->
           C.centroid_cal_loop (seq 0 (C.k s)) a data (List_ []) =
             Ok centroid_new ->
           e = NameError)) /\
    (fst (C.fit C.squared_movement_of_the_file get_signal data s) = Ok tt ->
     C.max_iter s <= C.n_iter_ s /\ T = []).
Proof.
  unfold C.fit, bind, gets, lift.
  destruct (_abnormal_detection data) as [[]|e0] eqn:Ead.
  2:{ exists []. cbn. rewrite app_nil_r. repeat split; try reflexivity.
      - intros _. exists e0. split; [reflexivity|]. discriminate.
      - discriminate. }
  destruct get_centroid as [c|e0] eqn:Egc.
  2:{ exists []. cbn. rewrite app_nil_r. repeat split; try reflexivity.
      - intros _. exists e0. split; [reflexivity|]. discriminate.
      - discriminate. }
  rewrite client_rounds_unfold.
  destruct (Nat.ltb_spec (C.n_iter_ s) (C.max_iter s)) as [Hlt | Hge].
  2:{ exists []. cbn. rewrite app_nil_r. repeat split; try reflexivity; lia. }
  destruct (C.max_iter s - C.n_iter_ s) as [|fuel] eqn:Hf; [lia|].
  destruct (client_round_of_the_file_raises get_signal data c s)
    as (e & T & Hr & Hs & Hct & Hat & Hn).
  destruct (C.fit_round C.squared_movement_of_the_file get_signal data c s)
    as [r s1] eqn:E. cbn [fst snd] in *. subst r.
  exists T. cbn [fst snd]. repeat split; try assumption.
  - intros _. exists e. split; [reflexivity|].
    intros c' table a centroid_new e1 e2 _ Hc Hd Ha Hl.
    inversion Hc; subst c'; clear Hc.
    unfold C.fit_round, C.squared_movement_of_the_file in E.
    unfold bind at 1 in E. rewrite Hd in E.
    cbv beta delta [bind gets modify lift C.remote C.get C.centroid_cal] in E.
    cbn beta iota zeta in E. kmeans_fields E. rewrite Ha in E.
    cbn beta iota zeta in E. kmeans_fields E. rewrite Hl in E.
    cbn beta iota zeta in E. inversion E. reflexivity.
  - discriminate.
  - discriminate.
Qed.

End Facts.



(** The demo client with one cluster: [centroid_cal] returns, and line 83
    raises. *)
Lemma demo_client_stops_on_line_83 :
  client_run 1 = client_run_1 /\
  fst client_run_1 = Raise NameError /\
  exists T,
    C.sent (snd (client_run 1)) = C.sent (Scenario.Kmeans.client 1) ++ T /\
    filter is_client_tol T = [] /\ filter is_arbiter_tol T = [] /\
    C.n_iter_ (snd (client_run 1)) = C.n_iter_ (Scenario.Kmeans.client 1) /\
    (C.n_iter_ (Scenario.Kmeans.client 1) <
       C.max_iter (Scenario.Kmeans.client 1) ->
     exists e,
       fst (client_run 1) = Raise e /\
       (forall c table a centroid_new e1 e2,
           @_abnormal_detection Scenario.Kmeans.demo tt = Ok tt ->
           @get_centroid Scenario.Kmeans.demo = Ok c ->
           @dist_all Scenario.Kmeans.demo tt c
                     (C.env (Scenario.Kmeans.client 1)) = (Ok table, e1) ->
           @get_assign Scenario.Kmeans.demo tvk.cluster_result 0
                      (Some (STuple [C.n_iter_ (Scenario.Kmeans.client 1)])) e1 =
             (Ok a, e2) ->
           @C.centroid_cal_loop Scenario.Kmeans.demo
             (seq 0 (C.k (Scenario.Kmeans.client 1))) a tt (List_ []) =
             Ok centroid_new ->
           e = NameError)) /\
    (fst (client_run 1) = Ok tt ->
     C.max_iter (Scenario.Kmeans.client 1) <=
       C.n_iter_ (Scenario.Kmeans.client 1) /\ T = []).
Proof.
  split; [vm_compute; reflexivity|]. split; [reflexivity|].
  exact (@client_fit_of_the_file_completes_no_round
           Scenario.Kmeans.demo Scenario.Kmeans.get_signal tt
           (Scenario.Kmeans.client 1)).
Defined.

(** C5, on the code.  In round 0 every message of the arbiter names the
    round, except the two it puts on [arbiter_tol], which are sent without a
    suffix; what a client asks for on [arbiter_tol] is the value under the
    suffix of its round. *)
Theorem arbiter_tol_is_sent_without_the_round :
  A.fit (H := Scenario.Kmeans.demo) Scenario.Kmeans.arbiter = arbiter_run /\
  A.sent (snd arbiter_run) =
    arbiter_round_events (H := Scenario.Kmeans.demo) 0 tt tt tt
                         PrimFloat.zero PrimFloat.zero /\
  map suffix_of (filter is_arbiter_tol (A.sent (snd arbiter_run))) =
    [None; None] /\
  forallb (fun e => is_arbiter_tol e || carries_round 0 (suffix_of e))
          (A.sent (snd arbiter_run)) = true /\
  (forall (H : Collaborators) squared_movement get_signal data c s,
      exists T,
        C.sent (snd (C.fit_round squared_movement get_signal data c s)) =
          C.sent s ++ T /\
        (forall e, In e (filter is_arbiter_tol T) ->
                   suffix_of e = Some (STuple [C.n_iter_ s])) /\
        (forall ctl,
            fst (C.fit_round squared_movement get_signal data c s) = Ok ctl ->
            map suffix_of (filter is_arbiter_tol T) =
              [Some (STuple [C.n_iter_ s])])) /\
  carries_round 0 None = false /\
  carries_round 0 (Some (STuple [0])) = true.
Proof.
  split; [vm_compute; reflexivity|].
  split; [vm_compute; reflexivity|].
  split; [vm_compute; reflexivity|].
  split; [vm_compute; reflexivity|].
  split; [|split; reflexivity].
  intros H squared_movement get_signal data c s.
  apply client_asks_under_its_round.
Qed.

(** C6, on the code.  With two clusters [centroid_cal] raises: line 68
    rebinds [centroid_list] to what [append] returns, [None], and the second
    pass calls [append] on it.  The client leaves [fit] on that exception in
    round 0, before any tolerance is computed or sent.  With one cluster
    [centroid_cal] returns [None], not a list of one centroid. *)
Theorem centroid_cal_raises_on_two_clusters :
  C.centroid_cal (H := Scenario.Kmeans.demo) tt tt tt (Scenario.Kmeans.client 2) =
    (Raise AttributeError, Scenario.Kmeans.client 2) /\
  C.centroid_cal (H := Scenario.Kmeans.demo) tt tt tt (Scenario.Kmeans.client 1) =
    (Ok None_, Scenario.Kmeans.client 1) /\
  client_run 2 = client_run_2 /\
  fst client_run_2 = Raise AttributeError /\
  filter is_client_tol (C.sent (snd client_run_2)) = [].
Proof.
  repeat split; vm_compute; reflexivity.
Qed.

End KmeansFacts.

Module BoostingRoundsFacts.

Import HeteroBoosting HeteroBoostingSpec BoostingTrace BoostingRounds PyFacts.

Module G := HeteroBoostingGuest.

Module Hst := HeteroBoostingHost.

Section Facts.

Context `{Collaborators}.

Lemma got_flags_app l1 l2 : got_flags (l1 ++ l2) = got_flags l1 ++ got_flags l2.
Proof.
  induction l1 as [|ev l1 IH]; cbn; [reflexivity|].
  destruct ev; cbn; rewrite IH; reflexivity.
Qed.

Lemma sent_dims_app l1 l2 : sent_dims (l1 ++ l2) = sent_dims l1 ++ sent_dims l2.
Proof.
  induction l1 as [|ev l1 IH]; cbn; [reflexivity|].
  destruct ev; cbn; rewrite IH; reflexivity.
Qed.

(** What one booster step of the host leaves alone. *)
Record host_step (s s' : Self) : Prop := {
  hs_dim : booster_dim s' = booster_dim s;
  hs_round : boosting_round s' = boosting_round s;
  hs_loss : history_loss s' = history_loss s;
  hs_y_hat : y_hat s' = y_hat s
}.

Lemma host_fit_class_spec e c s r s' :
  Hst.fit_class e c s = (r, s') ->
  host_step s s' /\ got_flags (log s') = got_flags (log s) /\
  (forall k, r = Ok k ->
     k = Next /\ fitted (log s') = fitted (log s) ++ [(e, c)] /\
     exists p, boosting_model_list s' = boosting_model_list s ++ [p]).
Proof.
  unfold Hst.fit_class. intros Hr. run Hr.
  all: inversion Hr; subst; clear Hr; cbn.
  all: split; [constructor; reflexivity|].
  all: split; [rewrite ?got_flags_app; cbn; rewrite ?app_nil_r; reflexivity|].
  all: intros k Hk; try discriminate.
  inversion Hk; subst. rewrite BoostingFacts.fitted_app. cbn. eauto.
Qed.

Lemma host_fit_classes_spec e n : forall a s r s',
  for_in (seq a n) (Hst.fit_class e) s = (r, s') ->
  host_step s s' /\ got_flags (log s') = got_flags (log s) /\
  (r = Ok tt ->
     fitted (log s') = fitted (log s) ++ map (pair e) (seq a n) /\
     exists ps, List.length ps = n /\
                boosting_model_list s' = boosting_model_list s ++ ps).
Proof.
  induction n as [|n IH]; intros a s r s' Hr.
  - cbn in Hr. inversion Hr; subst. split; [constructor; reflexivity|].
    split; [reflexivity|].
    intros _. cbn. rewrite app_nil_r. split; [reflexivity|].
    exists []. rewrite app_nil_r. auto.
  - cbn [seq for_in] in Hr. unfold bind in Hr.
    destruct (Hst.fit_class e a s) as [[k|ex] s1] eqn:E1.
    + destruct (host_fit_class_spec _ _ _ _ _ E1) as (F1 & Q1 & G1).
      destruct (G1 k eq_refl) as (-> & Hf & p & Hp).
      apply IH in Hr. destruct Hr as (F2 & Q2 & G2).
      split; [|split].
      * destruct F1, F2. constructor; congruence.
      * congruence.
      * intros ->. destruct (G2 eq_refl) as (Hf2 & ps & Hl & Hps).
        split.
        -- rewrite Hf2, Hf. cbn. rewrite <- app_assoc. reflexivity.
        -- exists (p :: ps). cbn. split; [lia|].
           rewrite Hps, Hp, <- app_assoc. reflexivity.
    + inversion Hr; subst.
      destruct (host_fit_class_spec _ _ _ _ _ E1) as (F1 & Q1 & _).
      split; [destruct F1; constructor; congruence|].
      split; [congruence | discriminate].
Qed.

Lemma host_fit_epoch_spec e s k s' :
  Hst.fit_epoch e s = (Ok k, s') ->
  host_step s s' /\
  (exists ps, List.length ps = booster_dim s /\
              boosting_model_list s' = boosting_model_list s ++ ps) /\
  fitted (log s') = fitted (log s) ++ map (pair e) (range (booster_dim s)) /\
  got_flags (log s') = got_flags (log s) ++ [e] /\
  exists b, received e b /\ k = if b then Break else Next.
Proof.
  unfold Hst.fit_epoch, Hst.sync_stop_flag. intros Hr. run Hr.
  all: inversion Hr; subst; clear Hr; cbn.
  all: match goal with
       | E : for_in _ _ _ = _ |- _ =>
           apply host_fit_classes_spec in E; destruct E as ([F1 F2 F3 F4] & F5 & G);
           match type of G with Ok ?u = _ -> _ => destruct u end;
           destruct (G eq_refl) as (Hf & ps & Hl & Hps)
       end.
  all: rewrite ?got_flags_app, ?BoostingFacts.fitted_app, ?F5, ?Hf; cbn;
    rewrite ?app_nil_r.
  all: split; [constructor; cbn; congruence|].
  all: split; [eauto|].
  all: split; [reflexivity|].
  all: split; [reflexivity|].
  all: match goal with
       | E : stop_flag_get _ _ = (Ok ?b, _) |- _ =>
           exists b; split; [unfold received; eauto | reflexivity]
       end.
Qed.

Lemma host_fit_epochs_spec n : forall a s s',
  for_in (seq a n) Hst.fit_epoch s = (Ok tt, s') ->
  exists bs,
    List.length bs <= n /\
    flags_of_run a n bs /\
    host_step s s' /\
    got_flags (log s') = got_flags (log s) ++ seq a (List.length bs) /\
    fitted (log s') =
      fitted (log s) ++
      flat_map (fun e => map (pair e) (range (booster_dim s)))
               (seq a (List.length bs)) /\
    List.length (boosting_model_list s') =
      List.length (boosting_model_list s) + List.length bs * booster_dim s.
Proof.
  induction n as [|n IH]; intros a s s' Hr.
  - cbn in Hr. inversion Hr; subst. exists []. cbn.
    rewrite !app_nil_r. repeat split; try lia.
    + intros [|i] b Hb; discriminate.
    + left. reflexivity.
  - cbn [seq for_in] in Hr. unfold bind in Hr.
    destruct (Hst.fit_epoch a s) as [[k|ex] s1] eqn:E1; [|discriminate].
    apply host_fit_epoch_spec in E1.
    destruct E1 as (F1 & (ps & Hl & Hps) & Hfit & Hgot & b & Hb & ->).
    destruct b.
    + inversion Hr; subst s1. exists [true]. cbn.
      rewrite app_nil_r. repeat split; try lia; try assumption.
      all: try (intros [|[|i]] b Hi; try discriminate;
                inversion Hi; subst; rewrite Nat.add_0_r; exact Hb).
      all: try (right; exists 0; reflexivity).
      all: try (rewrite Hps, length_app; lia).
      all: try (apply F1).

    + apply IH in Hr.
      destruct Hr as (bs & Hle & [Hrecv Hcase] & F2 & Hgot' & Hfit' & Hlen).
      exists (false :: bs). cbn [List.length seq flat_map].
      split; [lia|]. split; [split|].
      * intros [|i] b Hi; cbn in Hi.
        -- inversion Hi; subst. rewrite Nat.add_0_r. exact Hb.
        -- rewrite Nat.add_succ_r. apply (Hrecv i b Hi).
      * destruct Hcase as [-> | (r0 & ->)]; [left; reflexivity|].
        right. exists (S r0). reflexivity.
      * split; [destruct F1, F2; constructor; congruence|].
        destruct F1 as [D1 _ _ _].
        split; [rewrite Hgot', Hgot, <- app_assoc; reflexivity|].
        split; [rewrite Hfit', Hfit, D1, <- app_assoc; reflexivity|].
        rewrite Hlen, Hps, length_app, D1. lia.
Qed.

(** [generate_encrypter] writes [encrypter] and the collaborators' part,
    nothing else. *)
Lemma generate_encrypter_writes s r s' :
  generate_encrypter s = (r, s') ->
  exists e c, s' = set_ctx c (set_encrypter e s).
Proof.
  unfold generate_encrypter. intros Hr. run Hr.
  all: injection Hr as _ Hs; rewrite <- Hs; clear Hs; cbn.
  all: try (eexists; eexists; reflexivity).
  all: exists (encrypter s), (ctx s); destruct s; reflexivity.
Qed.

Lemma host_fit_data_spec data s s1 :
  Hst.fit_data data s = (Ok tt, s1) ->
  host_step (set_booster_dim (booster_dim s1) s) s1 /\
  boosting_model_list s1 = boosting_model_list s /\
  fitted (log s1) = fitted (log s) /\
  got_flags (log s1) = got_flags (log s) /\
  exists st c, booster_dim_get st = (Ok (booster_dim s1), c).
Proof.
  unfold Hst.fit_data, Hst.sync_booster_dim. intros Hr. run Hr.
  all: inversion Hr; subst; clear Hr; cbn.
  rewrite got_flags_app, BoostingFacts.fitted_app. cbn. rewrite !app_nil_r.
  split; [constructor; reflexivity|]. eauto 10.
Qed.

(** X1.  The host's [fit] that returns has run [r] rounds, [r] being the
    number of stop flags it asked for, one per round under the round's
    number: every flag received was [false] but the last, which is
    [true] unless the loop used up [boosting_round]; one booster
    parameter was stored per (epoch, class) pair, in the order of
    [replay_order], for the booster dimension received from the guest;
    no loss was recorded and no score updated. *)
Theorem host_fit_one_booster_per_epoch_class_and_no_loss data v s s' :
  Hst.fit data v s = (Ok tt, s') -> host_rounds_accounted s s'.
Proof.
  unfold Hst.fit. intros Hr. run Hr.
  all: try discriminate.
  destruct a. apply host_fit_data_spec in Heqp.
  destruct Heqp as ([D1 D2 D3 D4] & Dm & Df & Dg & Hdim).
  apply generate_encrypter_writes in Heqp0. destruct Heqp0 as (e0 & c0 & ->).
  cbn in Hr. unfold range in Hr. apply host_fit_epochs_spec in Hr.
  destruct Hr as (bs & Hle & Hflags & [E1 E2 E3 E4] & Hgot & Hfit & Hlen).
  cbn in *. exists bs. cbn zeta.
  rewrite E1, Hgot, Hfit, Hlen, E3, E4, D3, D4, Dm, Df, Dg.
  rewrite D2 in Hle, Hflags.
  split; [assumption|]. split; [assumption|].
  repeat split; try assumption; reflexivity.
Qed.

(** [check_label] writes [y] and the collaborators' part, nothing else,
    and the booster dimension it returns is at least 1. *)
Lemma check_label_writes s r s' :
  check_label s = (r, s') ->
  (exists labels c, s' = set_ctx c (set_y labels s)) /\
  (forall cs n d, r = Ok (cs, n, d) ->
     d = (if 2 <? n then n else 1) /\ 1 <= d).
Proof.
  unfold check_label. intros Hr. run Hr.
  all: injection Hr as Hres Hs; split;
    [rewrite <- Hs; cbn; try (eexists; eexists; reflexivity);
     exists (y s), (ctx s); destruct s; reflexivity|].
  all: intros cs' n' d' Hd; rewrite <- Hres in Hd; try discriminate.
  all: injection Hd as _ Hn Hdim; subst.
  all: try (split; [reflexivity | lia]).
  all: match goal with
       | E : (2 <? _) = true |- _ =>
           rewrite E; split; [reflexivity | apply Nat.ltb_lt in E; lia]
       | E : (2 <? _) = false |- _ =>
           rewrite E; split; [reflexivity | lia]
       end.
Qed.

Lemma fit_labels_sent_dims data s s1 :
  G.fit_labels data s = (Ok tt, s1) ->
  sent_dims (log s1) = sent_dims (log s) ++ [booster_dim s1] /\
  1 <= booster_dim s1.
Proof.
  unfold G.fit_labels, G.sync_booster_dim. intros Hr. run Hr.
  all: try discriminate.
  all: match goal with
       | E : check_label _ = _ |- _ =>
           apply check_label_writes in E;
           destruct E as ((labels & cc & ->) & Hd);
           destruct (Hd _ _ _ eq_refl) as [_ Hge]
       end.
  all: injection Hr as Hs; rewrite <- Hs; clear Hs; cbn.
  all: rewrite sent_dims_app; cbn.
  all: split; [reflexivity | exact Hge].
Qed.

Lemma fit_class_sent_dims e c s r s' :
  G.fit_class e c s = (r, s') ->
  sent_dims (log s') = sent_dims (log s).
Proof.
  unfold G.fit_class. intros Hr. run Hr.
  all: injection Hr as _ Hs; rewrite <- Hs; clear Hs; cbn.
  all: rewrite ?sent_dims_app; cbn; rewrite ?app_nil_r; reflexivity.
Qed.

Lemma fit_epoch_sent_dims e s r s' :
  G.fit_epoch e s = (r, s') ->
  sent_dims (log s') = sent_dims (log s).
Proof.
  unfold G.fit_epoch, G.sync_stop_flag. intros Hr. run Hr.
  all: match goal with
       | E : for_in _ _ _ = _ |- _ =>
           apply (for_in_inv (fun t => sent_dims (log t) = sent_dims (log s)))
             in E;
           [| intros x t r' t' Ht Hx;
              rewrite (fit_class_sent_dims _ _ _ _ _ Hx); exact Ht
            | reflexivity]
       end.
  all: injection Hr as _ Hs; rewrite <- Hs; clear Hs; cbn.
  all: rewrite ?sent_dims_app; cbn; rewrite ?app_nil_r; assumption.
Qed.

Lemma fit_setup_sent_dims data v s s1 :
  G.fit_setup data v s = (Ok tt, s1) ->
  sent_dims (log s1) = sent_dims (log s) ++ [booster_dim s1] /\
  1 <= booster_dim s1.
Proof.
  unfold G.fit_setup. intros Hr. run Hr.
  all: try discriminate.
  match goal with
  | E : G.fit_labels _ _ = (Ok ?u, _) |- _ => destruct u; rename E into HL
  end.
  match goal with
  | E : generate_encrypter _ = _ |- _ => rename E into HE
  end.
  apply fit_labels_sent_dims in HL. destruct HL as [Hd Hge].
  apply generate_encrypter_writes in HE. destruct HE as (e0 & cc & ->).
  injection Hr as _ Hs. rewrite <- Hs. cbn. auto.
Qed.

Lemma fit_report_writes s r s' :
  G.fit_report s = (r, s') -> exists c, s' = set_ctx c s.
Proof.
  unfold G.fit_report. intros Hr. run Hr.
  all: injection Hr as _ Hs; rewrite <- Hs; clear Hs.
  all: try (eexists; reflexivity).
  exists (ctx s). destruct s; reflexivity.
Qed.

(** The guest's [fit] that returns, in its parts: the rounds it ran, the
    flags and the booster dimension it sent. *)
Lemma guest_fit_parts data v s s' :
  G.fit data v s = (Ok tt, s') ->
  exists r flags,
    r <= boosting_round s /\
    stop_flags (log s') = stop_flags (log s) ++ flags /\
    map snd flags = range r /\
    ((r = boosting_round s /\ flags = no_stop 0 r) \/
     (exists r0, r = S r0 /\ flags = no_stop 0 r0 ++ [(true, r0)])) /\
    fitted (log s') = fitted (log s) ++ replay_order r (booster_dim s') /\
    List.length (boosting_model_list s') =
      List.length (boosting_model_list s) + r * booster_dim s' /\
    List.length (history_loss s') = List.length (history_loss s) + r /\
    sent_dims (log s') = sent_dims (log s) ++ [booster_dim s'] /\
    1 <= booster_dim s'.
Proof.
  unfold G.fit, bind. intros Hr.
  destruct (G.fit_setup data v s) as [[[]|ex] s1] eqn:E1; [|discriminate].
  destruct (G.fit_loop s1) as [[[]|ex] s2] eqn:E2; [|discriminate].
  destruct (fit_setup_sent_dims _ _ _ _ E1) as [Hd Hge].
  apply BoostingFacts.fit_setup_quiet in E1. destruct E1 as [A1 A2 A3 A4 A5 _].
  apply fit_report_writes in Hr. destruct Hr as (c & ->).
  unfold G.fit_loop, bind, gets in E2.
  pose proof E2 as E3.
  apply (for_in_inv (fun t => sent_dims (log t) = sent_dims (log s1))) in E3;
    [| intros x t r' t' Ht Hx; rewrite (fit_epoch_sent_dims _ _ _ _ Hx); exact Ht
     | reflexivity].
  apply BoostingFacts.fit_epochs_spec in E2.
  destruct E2 as (r & Hle & Hdim & (flags & Hfl & Hsnd & Hcase) & Hfit & Hlen & Hlen').
  exists r, flags. cbn.
  rewrite Hfl, Hfit, Hlen, Hlen', Hdim, E3, A1, A2, A3, A4, Hd.
  rewrite A5 in Hle, Hcase.
  repeat split; try assumption; try reflexivity.
  destruct Hcase as [[-> ->] | (r0 & -> & ->)]; [left; auto|].
  right. exists r0. auto.
Qed.

Lemma in_no_stop b e a r : In (b, e) (no_stop a r) -> b = false /\ a <= e < a + r.
Proof.
  unfold no_stop. intros Hin. apply in_map_iff in Hin.
  destruct Hin as (x & Hx & Hin). injection Hx as <- <-.
  apply in_seq in Hin. auto.
Qed.

Lemma nth_error_repeat_false n i : i < n -> nth_error (repeat false n) i = Some false.
Proof.
  revert i. induction n as [|n IH]; intros [|i] Hi; cbn; try lia; auto.
  apply IH. lia.
Qed.

Lemma nth_error_repeat_false_true n :
  nth_error (repeat false n ++ [true]) n = Some true.
Proof. induction n as [|n IH]; cbn; auto. Qed.

End Facts.

Lemma rounds_agree n r flags bs :
  r <= n ->
  ((r = n /\ flags = no_stop 0 r) \/
   (exists r0, r = S r0 /\ flags = no_stop 0 r0 ++ [(true, r0)])) ->
  List.length bs <= n ->
  (forall i b, nth_error bs i = Some b -> In (b, i) flags) ->
  (bs = repeat false n \/ exists r0, bs = repeat false r0 ++ [true]) ->
  List.length bs = r.
Proof.
  intros Hle Hg Hlb Hrecv Hh.
  destruct Hh as [-> | (h0 & ->)].
  - rewrite repeat_length. destruct Hg as [[-> _] | (r0 & -> & ->)]; [reflexivity|].
    assert (Hin : In (false, r0) (no_stop 0 r0 ++ [(true, r0)])).
    { apply Hrecv. apply nth_error_repeat_false. lia. }
    apply in_app_or in Hin. destruct Hin as [Hin | [Hin | []]].
    + apply in_no_stop in Hin. lia.
    + discriminate.
  - assert (Hin : In (true, h0) flags).
    { apply Hrecv. apply nth_error_repeat_false_true. }
    rewrite length_app, repeat_length. cbn.
    destruct Hg as [[-> ->] | (r0 & -> & ->)].
    + apply in_no_stop in Hin. destruct Hin; discriminate.
    + apply in_app_or in Hin. destruct Hin as [Hin | [Hin | []]].
      * apply in_no_stop in Hin. destruct Hin; discriminate.
      * injection Hin as ->. lia.
Qed.

(** X2.  Guest and host in step.  When both [fit]s return, on the same
    [boosting_round], and the host's transfer variables hand over only
    what this guest sent (its booster dimension, and for a round its
    stop flag of that round), the host has the guest's booster
    dimension, has fitted the same (epoch, class) pairs in the same
    order, has asked for exactly the flags the guest sent, and has
    stored as many boosters as the guest. *)
Theorem host_runs_the_rounds_the_guest_ran
        {TG : Types} (HG : @Collaborators TG)
        {TH : Types} (HH : @Collaborators TH)
        data_g v_g (sg sg' : @Self TG) data_h v_h (sh sh' : @Self TH) :
  @G.fit TG HG data_g v_g sg = (Ok tt, sg') ->
  @Hst.fit TH HH data_h v_h sh = (Ok tt, sh') ->
  boosting_round sh = boosting_round sg ->
  log sg = [] ->
  (forall st d c, @booster_dim_get TH HH st = (Ok d, c) ->
                  In d (sent_dims (log sg'))) ->
  (forall e st b c, e < boosting_round sg ->
                    @stop_flag_get TH HH e st = (Ok b, c) ->
                    In (b, e) (stop_flags (log sg'))) ->
  booster_dim sh' = booster_dim sg' /\
  fitted (log sh') = fitted (log sh) ++ fitted (log sg') /\
  got_flags (log sh') = got_flags (log sh) ++ map snd (stop_flags (log sg')) /\
  List.length (boosting_model_list sh') + List.length (boosting_model_list sg) =
    List.length (boosting_model_list sh) + List.length (boosting_model_list sg').
Proof.
  intros Hg Hh Hrounds Hlog Hdim Hflag.
  apply guest_fit_parts in Hg.
  destruct Hg as (r & flags & Hle & Hfl & Hsnd & Hcase & Hfit & Hlen & _ & Hsent & _).
  rewrite Hlog in Hfl, Hfit, Hsent. cbn in Hfl, Hfit, Hsent.
  unfold Hst.fit in Hh. run Hh. all: try discriminate.
  match goal with
  | E : Hst.fit_data _ _ = (Ok ?u, _) |- _ => destruct u; rename E into HD
  end.
  match goal with
  | E : generate_encrypter _ = _ |- _ => rename E into HE
  end.
  apply host_fit_data_spec in HD.
  destruct HD as ([D1 D2 D3 D4] & Dm & Df & Dg & (st & c1 & Hget)).
  apply generate_encrypter_writes in HE. destruct HE as (e0 & c0 & ->).
  cbn in Hh. unfold range in Hh. apply host_fit_epochs_spec in Hh.
  destruct Hh as (bs & Hlb & [Hrecv Hcase'] & [E1 E2 E3 E4] & Hgot & Hfit' & Hlen').
  cbn in *.
  apply Hdim in Hget. rewrite Hsent in Hget. destruct Hget as [Hget | []].
  assert (Hr : List.length bs = r).
  { rewrite D2, Hrounds in Hlb, Hcase'.
    apply (rounds_agree (boosting_round sg) r flags bs); try assumption.
    intros i b Hi. destruct (Hrecv i b Hi) as (st' & c' & Hx).
    assert (Hlt : i < List.length bs) by (apply nth_error_Some; congruence).
    rewrite <- Hfl. eapply Hflag; [lia | exact Hx]. }
  rewrite Hr in *. rewrite E1, Hgot, Hfit', Hlen', Hfit, Hfl, Hsnd, Df, Dg, Dm, Hlen.
  rewrite <- Hget. unfold replay_order, range. repeat split; lia.
Qed.

Section Edges.

Context `{Collaborators}.

(** X3.  A [fit] asked for no round gets through its setup and then fails:
    [min] of the empty loss history raises. *)
Theorem fit_with_no_round_raises_value_error data v s s1 :
  boosting_round s = 0 ->
  history_loss s = [] ->
  G.fit_setup data v s = (Ok tt, s1) ->
  G.fit data v s = (Raise ValueError, s1).
Proof.
  intros Hr Hl Hs. unfold G.fit, bind. rewrite Hs.
  apply BoostingFacts.fit_setup_quiet in Hs. destruct Hs as [_ A2 _ _ A5 _].
  unfold G.fit_loop, bind, gets. rewrite A5, Hr. cbn.
  unfold G.fit_report, bind, gets. rewrite A2, Hl. reflexivity.
Qed.

(** X4.  After a [fit] that returns, started on an empty ensemble, the
    ensemble holds whole rounds only and [booster_dim] is not 0: the
    guest's [predict] replays every stored booster. *)
Theorem fit_stores_whole_rounds data v s s' :
  boosting_model_list s = [] ->
  G.fit data v s = (Ok tt, s') ->
  1 <= booster_dim s' /\
  List.length (boosting_model_list s') mod booster_dim s' = 0 /\
  replayed s' = List.length (boosting_model_list s').
Proof.
  intros He Hf. apply guest_fit_parts in Hf.
  destruct Hf as (r & flags & _ & _ & _ & _ & _ & Hlen & _ & _ & Hge).
  rewrite He in Hlen. cbn in Hlen. unfold replayed. rewrite Hlen.
  split; [exact Hge|]. split.
  - apply Nat.Div0.mod_mul.
  - rewrite Nat.div_mul by lia. reflexivity.
Qed.

(** X5.  [generate_encrypter] returns only for the two supported methods,
    which it tells by their lowercased names, Paillier first. *)
Theorem generate_encrypter_selects_by_lowercase_name s s' :
  generate_encrypter s = (Ok tt, s') ->
  (lower (encrypt_method s) = lower PAILLIER /\
   encrypter s' = Some PaillierEncrypt) \/
  (lower (encrypt_method s) <> lower PAILLIER /\
   lower (encrypt_method s) = lower ITERATIVEAFFINE /\
   encrypter s' = Some IterativeAffineEncrypt).
Proof.
  unfold generate_encrypter. intros Hr. run Hr.
  all: try discriminate.
  all: inversion Hr; subst; clear Hr; cbn.
  all: repeat match goal with
       | E : String.eqb _ _ = true |- _ => apply String.eqb_eq in E
       | E : String.eqb _ _ = false |- _ => apply String.eqb_neq in E
       end.
  all: auto.
Qed.

Lemma same_model_refl s : same_model s s.
Proof. constructor; reflexivity. Qed.

Lemma same_model_trans s1 s2 s3 :
  same_model s1 s2 -> same_model s2 s3 -> same_model s1 s3.
Proof. intros [] []. constructor; congruence. Qed.

Lemma host_predict_booster_frame data idx b s r s' :
  Hst.predict_booster data idx b s = (r, s') ->
  same_model s s' /\ predict_y_hat s' = predict_y_hat s.
Proof.
  unfold Hst.predict_booster. intros Hr. run Hr.
  all: inversion Hr; subst; clear Hr; split; [constructor|]; reflexivity.
Qed.

Lemma host_predict_round_frame data idx s r s' :
  Hst.predict_round data idx s = (r, s') ->
  same_model s s' /\ predict_y_hat s' = predict_y_hat s.
Proof.
  unfold Hst.predict_round. intros Hr. run Hr.
  all: match goal with
       | E : for_in _ _ _ = _ |- _ =>
           apply (for_in_inv (fun t => same_model s t /\
                                       predict_y_hat t = predict_y_hat s)) in E;
           [| intros x t r' t' [Ht Hp] Hx;
              apply host_predict_booster_frame in Hx; destruct Hx as [Hx Hx'];
              split; [eapply same_model_trans; eassumption | congruence]
            | split; [apply same_model_refl | reflexivity]]
       end.
  all: inversion Hr; subst; assumption.
Qed.

(** X7.  The host's [predict] sets its accumulator to the initial score of
    every aligned sample and never adds a score to it. *)
Theorem host_predict_accumulates_nothing data s d c :
  data_alignment data s = (Ok d, c) ->
  predict_y_hat (snd (Hst.predict data s)) =
    mapValues (fun _ => init_score s) d.
Proof.
  intros Ha. destruct (Hst.predict data s) as [r s'] eqn:Hr. cbn [snd].
  unfold Hst.predict, bind, call in Hr. rewrite Ha in Hr. run Hr.
  all: try (inversion Hr; subst; clear Hr; reflexivity).
  apply (for_in_inv
           (fun t => predict_y_hat t = mapValues (fun _ => init_score s) d))
    in Hr; [exact Hr | | reflexivity].
  intros x t r' t' Ht Hx.
  apply host_predict_round_frame in Hx. destruct Hx as [_ Hx]. congruence.
Qed.

(** X8.  With [booster_dim] 0 both predictions fail on the division of line
    195 (291 for the host), after the accumulator is set and before any
    booster is loaded. *)
Theorem predict_with_zero_booster_dim_raises data s d c :
  booster_dim s = 0 ->
  data_alignment data s = (Ok d, c) ->
  let s1 := set_predict_y_hat (mapValues (fun _ => init_score s) d)
                              (set_ctx c s) in
  G.predict data s = (Raise ZeroDivisionError, s1) /\
  Hst.predict data s = (Raise ZeroDivisionError, s1).
Proof.
  intros Hd Ha s1. subst s1.
  unfold G.predict, Hst.predict, bind, gets, modify, lift, call.
  rewrite Ha. cbn. rewrite Hd. cbn. auto.
Qed.

(** X9.  On an object with no stored booster, the guest's prediction is the
    conversion of the initial scores and the host's does nothing more
    than set its accumulator; no booster is loaded. *)
Theorem predict_of_an_empty_ensemble data s d c :
  boosting_model_list s = [] ->
  booster_dim s <> 0 ->
  data_alignment data s = (Ok d, c) ->
  let acc := mapValues (fun _ => init_score s) d in
  let s1 := set_predict_y_hat acc (set_ctx c s) in
  G.predict data s = call (score_to_predict_result d acc) s1 /\
  Hst.predict data s = (Ok tt, s1).
Proof.
  intros He Hd Ha acc s1. subst acc s1. split.
  - unfold G.predict, bind, gets, modify, lift. unfold call at 1.
    rewrite Ha. cbn. rewrite He. cbn.
    destruct (booster_dim s) as [|k]; [contradiction|]. reflexivity.
  - unfold Hst.predict, bind, gets, modify, lift, call.
    rewrite Ha. cbn. rewrite He. cbn.
    destruct (booster_dim s) as [|k]; [contradiction|]. reflexivity.
Qed.

(** *** [check_label] and [sorted] *)

Lemma py_lt_raises a b e : py_lt a b = Raise e -> e = TypeError.
Proof.
  destruct a, b; cbn; intros Hr; inversion Hr; reflexivity.
Qed.

Lemma py_lt_returns a b r : py_lt a b = Ok r -> is_str a = is_str b.
Proof.
  destruct a, b; cbn; intros Hr; try discriminate; reflexivity.
Qed.

Lemma py_lt_same_kind a b : is_str a = is_str b -> exists r, py_lt a b = Ok r.
Proof.
  destruct a, b; cbn; intros Hk; try discriminate; eauto.
Qed.

Lemma insort_raises x l e : insort x l = Raise e -> e = TypeError.
Proof.
  induction l as [|y l IH]; cbn; [discriminate|].
  destruct (py_lt y x) as [[|]|e'] eqn:E.
  - destruct (insort x l) as [r|e'']; [discriminate|].
    intros Hr. inversion Hr; subst. apply IH. reflexivity.
  - discriminate.
  - intros Hr. inversion Hr; subst. eapply py_lt_raises. exact E.
Qed.

Lemma insort_in x l r :
  insort x l = Ok r -> forall y, In y r <-> y = x \/ In y l.
Proof.
  revert r. induction l as [|z l IH]; cbn; intros r Hr y.
  - inversion Hr; subst. cbn. intuition.
  - destruct (py_lt z x) as [[|]|e'] eqn:E; try discriminate.
    + destruct (insort x l) as [r'|e''] eqn:E'; [|discriminate].
      inversion Hr; subst. cbn. rewrite (IH r' eq_refl y). intuition.
    + inversion Hr; subst. cbn. intuition.
Qed.

Lemma sorted_raises l e : sorted l = Raise e -> e = TypeError.
Proof.
  induction l as [|x l IH]; cbn; [discriminate|].
  destruct (sorted l) as [r|e'].
  - apply insort_raises.
  - intros Hr. inversion Hr; subst. apply IH. reflexivity.
Qed.

Lemma sorted_in l r : sorted l = Ok r -> forall y, In y r <-> In y l.
Proof.
  revert r. induction l as [|x l IH]; cbn; intros r Hr y.
  - inversion Hr; subst. reflexivity.
  - destruct (sorted l) as [r'|e'] eqn:E; [|discriminate].
    rewrite (insort_in _ _ _ Hr y), (IH r' eq_refl y). intuition.
Qed.

(** [sorted] returns only on labels of one kind. *)
Lemma sorted_one_kind l r :
  sorted l = Ok r -> forall a b, In a l -> In b l -> is_str a = is_str b.
Proof.
  revert r. induction l as [|x l IH]; cbn; intros r Hr a b Ha Hb; [contradiction|].
  destruct (sorted l) as [r'|e'] eqn:E; [|discriminate].
  assert (Hx : forall y, In y l -> is_str y = is_str x).
  { intros y Hy. destruct r' as [|z r'].
    - apply (sorted_in _ _ E) in Hy. contradiction.
    - assert (Hz : In z l) by (apply (sorted_in _ _ E); left; reflexivity).
      cbn in Hr. destruct (py_lt z x) as [t|e'] eqn:Ez; [|discriminate].
      apply py_lt_returns in Ez.
      rewrite (IH _ eq_refl y z Hy Hz). exact Ez. }
  destruct Ha as [<- | Ha], Hb as [<- | Hb].
  - reflexivity.
  - symmetry. apply Hx. exact Hb.
  - apply Hx. exact Ha.
  - eapply IH; eauto.
Qed.

Lemma insort_one_kind x l :
  (forall y, In y l -> is_str y = is_str x) -> exists r, insort x l = Ok r.
Proof.
  induction l as [|y l IH]; cbn; intros Hk; [eauto|].
  destruct (py_lt_same_kind y x (Hk y (or_introl eq_refl))) as (t & ->).
  destruct t; [|eauto].
  destruct IH as (r & ->); [intros z Hz; apply Hk; right; exact Hz|]. eauto.
Qed.

(** ... and on all labels of one kind. *)
Lemma sorted_total l :
  (forall a b, In a l -> In b l -> is_str a = is_str b) ->
  exists r, sorted l = Ok r.
Proof.
  induction l as [|x l IH]; cbn; intros Hk; [eauto|].
  destruct IH as (r & Hr); [intros a b Ha Hb; apply Hk; right; assumption|].
  rewrite Hr. apply insort_one_kind.
  intros y Hy. apply Hk; [right; apply (sorted_in _ _ Hr); exact Hy | left; reflexivity].
Qed.

(** X10.  Class labels that are ints of [range(len(classes_))], in any order:
    [check_label] returns the sorted classes, the class count and the
    booster dimension, and leaves the table of labels as it is. *)
Theorem check_label_keeps_labels_that_are_ints_of_range s c n cs :
  task_type s = CLASSIFICATION ->
  classify_validate_label (data_bin s) s = (Ok (n, cs), c) ->
  forallb (int_below (List.length cs)) cs = true ->
  exists cs',
    sorted cs = Ok cs' /\
    check_label s = (Ok (cs', n, if 2 <? n then n else 1), set_ctx c s).
Proof.
  intros Ht Hv Hall.
  destruct (sorted_total cs) as (cs' & Hs).
  { intros a b Ha Hb. rewrite forallb_forall in Hall.
    pose proof (Hall a Ha) as Ca. pose proof (Hall b Hb) as Cb.
    destruct a, b; cbn in *; try discriminate; reflexivity. }
  exists cs'. split; [exact Hs|].
  apply (BoostingFacts.check_label_keeps_range_from_zero_labels s c n cs cs');
    try assumption.
  rewrite BoostingFacts.range_from_zero_loop_spec. exact Hall.
Qed.

(** X11.  Class labels of which one is a string and another a number:
    [check_label] raises the [TypeError] of [sorted], after the loop of
    lines 75-83 has swallowed the same error, and leaves the labels. *)
Theorem check_label_on_mixed_labels_raises_type_error s c n cs a b :
  task_type s = CLASSIFICATION ->
  classify_validate_label (data_bin s) s = (Ok (n, cs), c) ->
  In a cs -> In b cs -> is_str a = true -> is_str b = false ->
  check_label s = (Raise TypeError, set_ctx c s).
Proof.
  intros Ht Hv Ha Hb Ka Kb.
  assert (Hs : sorted cs = Raise TypeError).
  { destruct (sorted cs) as [r|e] eqn:E.
    - pose proof (sorted_one_kind _ _ E a b Ha Hb) as Hk. congruence.
    - rewrite (sorted_raises _ _ E). reflexivity. }
  unfold check_label, bind, gets, call, lift. rewrite Ht, Hv. cbn.
  rewrite Hs. reflexivity.
Qed.

End Edges.

Import Scenario.Boosting BoostingCases.

(** Two rounds of the demo host. *)
Lemma two_round_host_fit :
  Hst.fit binary_data None (fresh "Paillier") = (Ok tt, snd host_fit) /\
  host_rounds_accounted (fresh "Paillier") (snd host_fit) /\
  List.length (boosting_model_list (snd host_fit)) = 2 /\
  got_flags (log (snd host_fit)) = [0; 1].
Proof.
  assert (H1 : Hst.fit binary_data None (fresh "Paillier") = (Ok tt, snd host_fit))
    by (vm_compute; reflexivity).
  split; [exact H1|]. split.
  - exact (host_fit_one_booster_per_epoch_class_and_no_loss
             binary_data None (fresh "Paillier") _ H1).
  - split; reflexivity.
Defined.

(** The demo guest and the demo host, two rounds each. *)
Lemma demo_host_follows_demo_guest :
  booster_dim (snd host_fit) = booster_dim (snd binary_fit) /\
  fitted (log (snd host_fit)) =
    fitted (log (fresh "Paillier")) ++ fitted (log (snd binary_fit)) /\
  got_flags (log (snd host_fit)) =
    got_flags (log (fresh "Paillier")) ++
    map snd (stop_flags (log (snd binary_fit))) /\
  List.length (boosting_model_list (snd host_fit)) +
    List.length (boosting_model_list (fresh "Paillier")) =
  List.length (boosting_model_list (fresh "Paillier")) +
    List.length (boosting_model_list (snd binary_fit)).
Proof.
  apply (host_runs_the_rounds_the_guest_ran demo demo
           binary_data None (fresh "Paillier") (snd binary_fit)
           binary_data None (fresh "Paillier") (snd host_fit)).
  - vm_compute. reflexivity.
  - vm_compute. reflexivity.
  - reflexivity.
  - reflexivity.
  - intros st d c Hg. injection Hg as <- _. vm_compute. auto.
  - intros e st b c He Hg. injection Hg as <- _.
    change (boosting_round (fresh "Paillier")) with 2 in He.
    destruct e as [|[|e]]; [vm_compute; auto .. | lia].
Defined.

(** The demo guest asked for no round. *)
Lemma no_round_fit_raises :
  G.fit_setup binary_data None no_round = (Ok tt, snd no_round_setup) /\
  G.fit binary_data None no_round = (Raise ValueError, snd no_round_setup).
Proof.
  assert (H1 : G.fit_setup binary_data None no_round = (Ok tt, snd no_round_setup))
    by (vm_compute; reflexivity).
  split; [exact H1|].
  exact (fit_with_no_round_raises_value_error
           binary_data None no_round _ eq_refl eq_refl H1).
Defined.

(** After the two-round binary fit, two boosters of dimension 1. *)
Lemma binary_fit_stores_whole_rounds :
  G.fit binary_data None (fresh "Paillier") = (Ok tt, snd binary_fit) /\
  1 <= booster_dim (snd binary_fit) /\
  List.length (boosting_model_list (snd binary_fit)) mod
    booster_dim (snd binary_fit) = 0 /\
  replayed (snd binary_fit) = List.length (boosting_model_list (snd binary_fit)).
Proof.
  assert (H1 : G.fit binary_data None (fresh "Paillier") = (Ok tt, snd binary_fit))
    by (vm_compute; reflexivity).
  split; [exact H1|].
  exact (fit_stores_whole_rounds binary_data None (fresh "Paillier") _ eq_refl H1).
Defined.

(** The method name in upper case selects Paillier. *)
Lemma upper_case_name_selects_paillier :
  generate_encrypter (fresh "PAILLIER") = (Ok tt, snd upper_case_encrypter) /\
  ((lower (encrypt_method (fresh "PAILLIER")) = lower PAILLIER /\
    encrypter (snd upper_case_encrypter) = Some PaillierEncrypt) \/
   (lower (encrypt_method (fresh "PAILLIER")) <> lower PAILLIER /\
    lower (encrypt_method (fresh "PAILLIER")) = lower ITERATIVEAFFINE /\
    encrypter (snd upper_case_encrypter) = Some IterativeAffineEncrypt)).
Proof.
  assert (H1 : generate_encrypter (fresh "PAILLIER") =
               (Ok tt, snd upper_case_encrypter)) by (vm_compute; reflexivity).
  split; [exact H1|].
  exact (generate_encrypter_selects_by_lowercase_name (fresh "PAILLIER") _ H1).
Defined.

(** The host's accumulator on five stored boosters. *)
Lemma host_accumulator_on_five_stored :
  predict_y_hat (snd (Hst.predict binary_data five_stored)) =
    mapValues (fun _ => init_score five_stored) binary_data.
Proof.
  exact (@host_predict_accumulates_nothing _ demo binary_data five_stored
           binary_data tt eq_refl).
Defined.

(** Five stored boosters and [booster_dim] 0. *)
Lemma zero_dim_predict_raises :
  let s1 := set_predict_y_hat
              (mapValues (fun _ => init_score zero_dim) binary_data)
              (set_ctx tt zero_dim) in
  G.predict binary_data zero_dim = (Raise ZeroDivisionError, s1) /\
  Hst.predict binary_data zero_dim = (Raise ZeroDivisionError, s1).
Proof.
  exact (@predict_with_zero_booster_dim_raises _ demo binary_data zero_dim
           binary_data tt eq_refl eq_refl).
Defined.

(** A prediction before any fit. *)
Lemma predict_before_fit :
  let acc := mapValues (fun _ => init_score (fresh "Paillier")) binary_data in
  let s1 := set_predict_y_hat acc (set_ctx tt (fresh "Paillier")) in
  G.predict binary_data (fresh "Paillier") =
    call (score_to_predict_result binary_data acc) s1 /\
  Hst.predict binary_data (fresh "Paillier") = (Ok tt, s1).
Proof.
  apply (@predict_of_an_empty_ensemble _ demo binary_data (fresh "Paillier")
           binary_data tt eq_refl).
  - cbn. discriminate.
  - reflexivity.
Defined.

(** Labels {0, 1}. *)
Lemma binary_labels_are_kept :
  exists cs',
    sorted [LInt 0; LInt 1] = Ok cs' /\
    check_label binary_loaded =
      (Ok (cs', 2, if 2 <? 2 then 2 else 1), set_ctx tt binary_loaded).
Proof.
  apply (@check_label_keeps_labels_that_are_ints_of_range _ demo
           binary_loaded tt 2 [LInt 0; LInt 1]); reflexivity.
Defined.

(** Labels 1 and "a". *)
Lemma mixed_labels_raise :
  check_label mixed_loaded = (Raise TypeError, set_ctx tt mixed_loaded).
Proof.
  apply (@check_label_on_mixed_labels_raises_type_error _ demo
           mixed_loaded tt 2 [LInt 1; LStr "a"] (LStr "a") (LInt 1)).
  - reflexivity.
  - reflexivity.
  - right. left. reflexivity.
  - left. reflexivity.
  - reflexivity.
  - reflexivity.
Defined.

End BoostingRoundsFacts.

Ltac ftlv_fields H :=
  cbn [HeteroFTL.max_iter HeteroFTL.local_iterations HeteroFTL.n_iter_
       HeteroFTL.guest_model HeteroFTL.converge_func HeteroFTL.env
       HeteroFTL.trace HeteroFTL.set_n_iter_ HeteroFTL.set_guest_model
       HeteroFTL.set_converge_func HeteroFTL.set_env HeteroFTL.set_trace] in H.

Ltac run_ftlv H :=
  cbv beta delta [bind ret raise gets modify lift
                  HeteroFTL.emit HeteroFTL.on_model HeteroFTL.converged
                  HeteroFTL._do_remote HeteroFTL._do_get] in H;
  repeat (cbn beta iota zeta in H; ftlv_fields H; destr_scrut H);
  cbn beta iota zeta in H; ftlv_fields H.

(** ** The plain and the centrally encrypted FTL guests *)

Module FTLRoundsFacts.

Import HeteroFTL FTLRounds.

Module P := HeteroPlainFTLGuest.

Module E := HeteroEncryptFTLGuest.

Section Facts.

Context `{Collaborators}.

Lemma stops_app T1 T2 : stops (T1 ++ T2) = stops T1 ++ stops T2.
Proof.
  induction T1 as [|e T1 IH]; cbn; [reflexivity|].
  destruct e as [[] tag [v|b] role|name tag v|loss]; cbn; rewrite IH; reflexivity.
Qed.

Lemma stop_signals_app T1 T2 :
  stop_signals (T1 ++ T2) = stop_signals T1 ++ stop_signals T2.
Proof.
  induction T1 as [|e T1 IH]; cbn; [reflexivity|].
  destruct e as [name tag p role|[] tag v|loss]; cbn; rewrite IH; reflexivity.
Qed.

Lemma converge_calls_app T1 T2 :
  converge_calls (T1 ++ T2) = converge_calls T1 ++ converge_calls T2.
Proof.
  induction T1 as [|e T1 IH]; cbn; [reflexivity|].
  destruct e; cbn; rewrite IH; reflexivity.
Qed.

(** What a step adds to the trace, and that it keeps the round budget. *)
Definition step (P : Event -> bool) (s s' : Self) (T : list Event) : Prop :=
  trace s' = trace s ++ T /\ forallb P T = true /\ max_iter s' = max_iter s.

Lemma step_trans P s1 s2 s3 T1 T2 :
  step P s1 s2 T1 -> step P s2 s3 T2 -> step P s1 s3 (T1 ++ T2).
Proof.
  intros (A1 & A2 & A3) (B1 & B2 & B3). repeat split.
  - rewrite B1, A1, app_assoc. reflexivity.
  - rewrite forallb_app, A2, B2. reflexivity.
  - congruence.
Qed.

Lemma prepare_data_plain data s r s' :
  prepare_data data s = (r, s') ->
  exists T, step plain_event s s' T /\ stops T = [] /\ converge_calls T = [] /\
            n_iter_ s' = n_iter_ s.
Proof.
  unfold prepare_data. intros Hr. run_ftlv Hr.
  all: inversion Hr; subst; clear Hr; unfold step; cbn; rewrite <- ?app_assoc; cbn.
  all: first [ exists []; rewrite app_nil_r; repeat split; reflexivity
             | eexists; repeat split; reflexivity ].
Qed.

Lemma step_refl P s : step P s s [].
Proof. unfold step. rewrite app_nil_r. auto. Qed.

(** One round of the plain guest. *)
Lemma plain_round is_stop s r s' :
  P.fit_round is_stop s = (r, s') ->
  exists T,
    step plain_event s s' T /\
    forall b, r = Ok b ->
      n_iter_ s' = n_iter_ s + 1 /\
      stops T = [(Some (n_iter_ s), b)] /\
      List.length (converge_calls T) = 1.
Proof.
  unfold P.fit_round. intros Hr. run_ftlv Hr.
  all: inversion Hr; subst; clear Hr; unfold step; cbn; rewrite <- ?app_assoc; cbn.
  all: first [ exists []; rewrite app_nil_r; split; [repeat split; reflexivity|];
               intros b Hb; discriminate
             | eexists; split; [repeat split; reflexivity|];
               intros b Hb; try discriminate;
               inversion Hb; subst; repeat split; reflexivity ].
Qed.

Lemma plain_rounds_unfold fuel is_stop s :
  P.fit_rounds fuel is_stop s =
  if n_iter_ s <? max_iter s then
    match fuel with
    | O => (Raise OutOfFuel, s)
    | S fuel' =>
        match P.fit_round is_stop s with
        | (Ok true, s1) => (Ok tt, s1)
        | (Ok false, s1) => P.fit_rounds fuel' false s1
        | (Raise e, s1) => (Raise e, s1)
        end
    end
  else (Ok tt, s).
Proof.
  destruct fuel; cbn [P.fit_rounds]; unfold bind, gets;
    destruct (n_iter_ s <? max_iter s); try reflexivity.
  destruct (P.fit_round is_stop s) as [[[|]|e] s1]; reflexivity.
Qed.

Lemma going_cons a m : going a (S m) = (Some a, false) :: going (S a) m.
Proof. reflexivity. Qed.

Lemma going_snoc a m : going a (S m) = going a m ++ [(Some (a + m), false)].
Proof.
  unfold going. rewrite seq_S, map_app. reflexivity.
Qed.

(** The loop of the plain guest. *)
Lemma plain_rounds fuel : forall s r s',
  P.fit_rounds fuel false s = (r, s') ->
  exists T,
    step plain_event s s' T /\
    (r = Ok tt ->
     exists m,
       n_iter_ s' = n_iter_ s + m /\
       m <= max_iter s - n_iter_ s /\
       List.length (converge_calls T) = m /\
       ((stops T = going (n_iter_ s) m /\ max_iter s <= n_iter_ s') \/
        exists m0, m = S m0 /\
                   stops T = going (n_iter_ s) m0 ++
                             [(Some (n_iter_ s + m0), true)])).
Proof.
  induction fuel as [|fuel IH]; intros s r s' Hr;
    rewrite plain_rounds_unfold in Hr;
    destruct (Nat.ltb_spec (n_iter_ s) (max_iter s)) as [Hlt | Hge].
  - inversion Hr; subst. exists []. split; [apply step_refl | discriminate].
  - inversion Hr; subst. exists []. split; [apply step_refl|].
    intros _. exists 0. rewrite Nat.add_0_r. repeat split; try lia.
    left. split; [reflexivity | lia].
  - destruct (P.fit_round false s) as [[b|e] s1] eqn:E1.
    + apply plain_round in E1. destruct E1 as (T1 & Hs1 & Hok).
      destruct (Hok b eq_refl) as (Hn & Hst & Hc).
      destruct b.
      * inversion Hr; subst. exists T1. split; [exact Hs1|].
        intros _. exists 1. repeat split; try lia; try assumption.
        right. exists 0. rewrite Nat.add_0_r. split; [reflexivity | exact Hst].
      * apply IH in Hr. destruct Hr as (T2 & Hs2 & Hok2).
        exists (T1 ++ T2). split; [eapply step_trans; eassumption|].
        intros Hres. destruct (Hok2 Hres) as (m & Hn2 & Hle & Hc2 & Hcase).
        destruct Hs1 as (_ & _ & Hm1).
        exists (S m). rewrite stops_app, converge_calls_app, length_app, Hst, Hc.
        rewrite Hn2, Hn, Hm1 in *.
        repeat split; try lia.
        destruct Hcase as [[Hg Hmax] | (m0 & -> & Hg)]; rewrite Hg.
        -- left. split; [|lia]. rewrite going_cons.
           replace (n_iter_ s + 1) with (S (n_iter_ s)) by lia. reflexivity.
        -- right. exists (S m0). split; [reflexivity|].
           rewrite going_cons. cbn.
           replace (n_iter_ s + 1) with (S (n_iter_ s)) by lia.
           replace (S (n_iter_ s) + m0) with (n_iter_ s + S m0) by lia.
           reflexivity.
    + inversion Hr; subst. apply plain_round in E1.
      destruct E1 as (T1 & Hs1 & _). exists T1. split; [exact Hs1 | discriminate].
  - inversion Hr; subst. exists []. split; [apply step_refl|].
    intros _. exists 0. rewrite Nat.add_0_r. repeat split; try lia.
    left. split; [reflexivity | lia].
Qed.

Lemma plain_fit_parts guest_data s r s' :
  P.fit guest_data s = (r, s') ->
  exists T,
    step plain_event s s' T /\
    (r = Ok tt ->
     exists m,
       n_iter_ s' = n_iter_ s + m /\
       m <= max_iter s - n_iter_ s /\
       List.length (converge_calls T) = m /\
       ((stops T = going (n_iter_ s) m /\ max_iter s <= n_iter_ s') \/
        exists m0, m = S m0 /\
                   stops T = going (n_iter_ s) m0 ++
                             [(Some (n_iter_ s + m0), true)])).
Proof.
  unfold P.fit. intros Hr. run_ftlv Hr.
  all: match goal with
       | E : prepare_data _ _ = _ |- _ =>
           apply prepare_data_plain in E;
           destruct E as (T1 & Hs1 & Hst1 & Hc1 & Hn1)
       end.
  all: try (inversion Hr; subst; clear Hr; exists T1;
            split; [exact Hs1 | discriminate]; fail).
  all: try (inversion Hr; subst; clear Hr; exists T1;
            split; [destruct Hs1 as (A1 & A2 & A3); repeat split; assumption
                   | discriminate]; fail).
  apply plain_rounds in Hr. destruct Hr as (T2 & Hs2 & Hok).
  exists (T1 ++ T2). split.
  - eapply step_trans; [exact Hs1|].
    destruct Hs2 as (A1 & A2 & A3). repeat split; assumption.
  - intros Hres. destruct (Hok Hres) as (k & Hn & Hle & Hc & Hcase).
    destruct Hs1 as (_ & _ & Hm1). cbn in Hn, Hle, Hcase.
    exists k. rewrite stops_app, converge_calls_app, length_app, Hst1, Hc1.
    rewrite Hn1, Hm1 in *. cbn. repeat split; assumption.
Qed.

(** X12.  A plain [fit] that returns ran [m] rounds from where [n_iter_]
    stood, never more than the budget left: each round tested
    convergence once and sent one stop flag under its own number,
    [false] in every round but the last, which is [true] unless the
    loop ended on its bound.  [n_iter_] is not reset: with the budget
    used up, [fit] runs no round. *)
Theorem plain_fit_sends_one_stop_flag_per_round guest_data s s' :
  P.fit guest_data s = (Ok tt, s') ->
  exists T m,
    trace s' = trace s ++ T /\
    n_iter_ s' = n_iter_ s + m /\
    m <= max_iter s - n_iter_ s /\
    List.length (converge_calls T) = m /\
    ((stops T = going (n_iter_ s) m /\ max_iter s <= n_iter_ s') \/
     exists m0, m = S m0 /\
                stops T = going (n_iter_ s) m0 ++
                          [(Some (n_iter_ s + m0), true)]).
Proof.
  intros Hr. apply plain_fit_parts in Hr. destruct Hr as (T & (Ht & _) & Hok).
  destruct (Hok eq_refl) as (m & Hm). exists T, m. split; assumption.
Qed.

Lemma plain_trace_app T1 : forall n T2,
  plain_trace n (T1 ++ T2) =
  plain_trace n T1 && plain_trace (n + List.length (stops T1)) T2.
Proof.
  induction T1 as [|e T1 IH]; intros n T2.
  - cbn. rewrite Nat.add_0_r. reflexivity.
  - destruct e as [[] [t|] [v|b] []|[] [t|] v|loss];
      cbn [app plain_trace stops List.length];
      rewrite ?IH, ?Nat.add_succ_r, ?andb_assoc; reflexivity.
Qed.

Lemma counted_trans s1 s2 s3 T1 T2 :
  counted s1 s2 T1 -> counted s2 s3 T2 -> counted s1 s3 (T1 ++ T2).
Proof.
  intros (A1 & A2 & A3 & A4) (B1 & B2 & B3 & B4). repeat split.
  - rewrite B1, A1, app_assoc. reflexivity.
  - rewrite plain_trace_app, A2, <- A3, B2. reflexivity.
  - rewrite stops_app, length_app. lia.
  - congruence.
Qed.

Lemma counted_refl s : counted s s [].
Proof. unfold counted. cbn. rewrite app_nil_r, Nat.add_0_r. auto. Qed.

Lemma prepare_data_counted data s r s' :
  prepare_data data s = (r, s') -> exists T, counted s s' T.
Proof.
  unfold prepare_data. intros Hr. run_ftlv Hr.
  all: inversion Hr; subst; clear Hr; unfold counted; cbn;
    rewrite <- ?app_assoc; cbn.
  all: first [ exists []; rewrite app_nil_r, Nat.add_0_r; repeat split; reflexivity
             | eexists; split; [reflexivity|]; cbn; rewrite Nat.add_0_r;
               repeat split; reflexivity ].
Qed.

Lemma plain_round_counted is_stop s r s' :
  P.fit_round is_stop s = (r, s') -> exists T, counted s s' T.
Proof.
  unfold P.fit_round. intros Hr. run_ftlv Hr.
  all: inversion Hr; subst; clear Hr; unfold counted; cbn;
    rewrite <- ?app_assoc; cbn.
  all: first [ exists []; rewrite app_nil_r, Nat.add_0_r; repeat split; reflexivity
             | eexists; split; [reflexivity|]; cbn;
               rewrite ?Nat.eqb_refl, ?Nat.add_0_r; repeat split; reflexivity ].
Qed.

Lemma plain_rounds_counted fuel : forall is_stop s r s',
  P.fit_rounds fuel is_stop s = (r, s') -> exists T, counted s s' T.
Proof.
  induction fuel as [|fuel IH]; intros is_stop s r s' Hr;
    rewrite plain_rounds_unfold in Hr;
    destruct (n_iter_ s <? max_iter s);
    try (inversion Hr; subst; exists []; apply counted_refl).
  destruct (P.fit_round is_stop s) as [[b|e] s1] eqn:E1;
    apply plain_round_counted in E1; destruct E1 as (T1 & H1).
  - destruct b.
    + inversion Hr; subst. exists T1. exact H1.
    + apply IH in Hr. destruct Hr as (T2 & H2).
      exists (T1 ++ T2). eapply counted_trans; eassumption.
  - inversion Hr; subst. exists T1. exact H1.
Qed.


Lemma prepare_data_encrypt data s r s' :
  prepare_data data s = (r, s') ->
  exists T, step encrypt_event s s' T /\ stop_signals T = [] /\
            n_iter_ s' = n_iter_ s.
Proof.
  unfold prepare_data. intros Hr. run_ftlv Hr.
  all: inversion Hr; subst; clear Hr; unfold step; cbn; rewrite <- ?app_assoc; cbn.
  all: first [ exists []; rewrite app_nil_r; repeat split; reflexivity
             | eexists; repeat split; reflexivity ].
Qed.

(** One round of the centrally encrypted guest. *)
Lemma encrypt_round s r s' :
  E.fit_round s = (r, s') ->
  exists T,
    step encrypt_event s s' T /\
    forall v, r = Ok v ->
      n_iter_ s' = n_iter_ s + 1 /\
      stop_signals T = [(Some (n_iter_ s), v)].
Proof.
  unfold E.fit_round. intros Hr. run_ftlv Hr.
  all: inversion Hr; subst; clear Hr; unfold step; cbn; rewrite <- ?app_assoc; cbn.
  all: first [ exists []; rewrite app_nil_r; split; [repeat split; reflexivity|];
               intros b Hb; discriminate
             | eexists; split; [repeat split; reflexivity|];
               intros b Hb; try discriminate;
               inversion Hb; subst; repeat split; reflexivity ].
Qed.

Lemma encrypt_rounds_unfold fuel s :
  E.fit_rounds fuel s =
  if n_iter_ s <? max_iter s then
    match fuel with
    | O => (Raise OutOfFuel, s)
    | S fuel' =>
        match E.fit_round s with
        | (Ok v, s1) => if truth v then (Ok tt, s1) else E.fit_rounds fuel' s1
        | (Raise e, s1) => (Raise e, s1)
        end
    end
  else (Ok tt, s).
Proof.
  destruct fuel; cbn [E.fit_rounds]; unfold bind, gets;
    destruct (n_iter_ s <? max_iter s); try reflexivity.
  destruct (E.fit_round s) as [[v|e] s1]; [|reflexivity].
  destruct (truth v); reflexivity.
Qed.

(** The loop of the centrally encrypted guest. *)
Lemma encrypt_rounds fuel : forall s r s',
  E.fit_rounds fuel s = (r, s') ->
  exists T,
    step encrypt_event s s' T /\
    (r = Ok tt ->
     n_iter_ s' = n_iter_ s + List.length (stop_signals T) /\
     List.length (stop_signals T) <= max_iter s - n_iter_ s /\
     signals_from (n_iter_ s) (stop_signals T) /\
     (max_iter s <= n_iter_ s' \/
      exists l tag v, stop_signals T = l ++ [(tag, v)] /\ truth v = true)).
Proof.
  induction fuel as [|fuel IH]; intros s r s' Hr;
    rewrite encrypt_rounds_unfold in Hr;
    destruct (Nat.ltb_spec (n_iter_ s) (max_iter s)) as [Hlt | Hge].
  - inversion Hr; subst. exists []. split; [apply step_refl | discriminate].
  - inversion Hr; subst. exists []. split; [apply step_refl|].
    intros _. cbn. rewrite Nat.add_0_r. repeat split; lia.
  - destruct (E.fit_round s) as [[v|e] s1] eqn:E1.
    + apply encrypt_round in E1. destruct E1 as (T1 & Hs1 & Hok).
      destruct (Hok v eq_refl) as (Hn & Hst).
      destruct (truth v) eqn:Hv.
      * inversion Hr; subst. exists T1. split; [exact Hs1|].
        intros _. rewrite Hst. cbn. repeat split; try lia.
        -- intros Hne. contradiction.
        -- right. exists [], (Some (n_iter_ s)), v. auto.
      * apply IH in Hr. destruct Hr as (T2 & Hs2 & Hok2).
        exists (T1 ++ T2). split; [eapply step_trans; eassumption|].
        intros Hres. destruct (Hok2 Hres) as (Hn2 & Hle & Hsig & Hcase).
        destruct Hs1 as (_ & _ & Hm1).
        rewrite stop_signals_app, Hst. cbn [app List.length signals_from].
        rewrite Hn, Hm1 in *.
        replace (n_iter_ s + 1) with (S (n_iter_ s)) in Hsig by lia.
        split; [lia|]. split; [lia|].
        split; [split; [reflexivity|]; split; [intros _; exact Hv | exact Hsig]|].
        destruct Hcase as [Hmax | (l & tag & w & Hl & Hw)]; [left; lia|].
        right. exists ((Some (n_iter_ s), v) :: l), tag, w.
        rewrite Hl. auto.
    + inversion Hr; subst. apply encrypt_round in E1.
      destruct E1 as (T1 & Hs1 & _). exists T1. split; [exact Hs1 | discriminate].
  - inversion Hr; subst. exists []. split; [apply step_refl|].
    intros _. cbn. rewrite Nat.add_0_r. repeat split; lia.
Qed.

Lemma encrypt_fit_parts guest_data s r s' :
  E.fit guest_data s = (r, s') ->
  exists T,
    step encrypt_event s s' T /\
    (r = Ok tt ->
     n_iter_ s' = n_iter_ s + List.length (stop_signals T) /\
     List.length (stop_signals T) <= max_iter s - n_iter_ s /\
     signals_from (n_iter_ s) (stop_signals T) /\
     (max_iter s <= n_iter_ s' \/
      exists l tag v, stop_signals T = l ++ [(tag, v)] /\ truth v = true)).
Proof.
  unfold E.fit. intros Hr. run_ftlv Hr.
  all: try match goal with
       | E : prepare_data _ _ = _ |- _ =>
           apply prepare_data_encrypt in E;
           destruct E as (T1 & (A1 & A2 & A3) & Hst1 & Hn1);
           cbn in A1, A3, Hn1
       end.
  all: try (inversion Hr; subst; clear Hr; exists [];
            split; [apply step_refl | discriminate]; fail).
  all: try (inversion Hr; subst; clear Hr; eexists; unfold step; cbn;
            split; [rewrite ?A1, <- ?app_assoc;
                    split; [reflexivity|]; split; [|assumption];
                    cbn; exact A2
                   | discriminate]; fail).
  2: { inversion Hr; subst; clear Hr. exists []. unfold step. cbn.
       rewrite app_nil_r. split; [auto | discriminate]. }
  apply encrypt_rounds in Hr. destruct Hr as (T2 & (B1 & B2 & B3) & Hok).
  cbn in B1, B3, Hok.
  eexists. split.
  - unfold step. rewrite B1, A1, <- !app_assoc. split; [reflexivity|].
    split; [|congruence]. cbn. rewrite forallb_app, A2, B2. reflexivity.
  - intros Hres. destruct (Hok Hres) as (Hn & Hle & Hsig & Hcase).
    cbn. rewrite stop_signals_app, Hst1. cbn.
    rewrite Hn1, A3 in *. repeat split; try assumption.
Qed.

Lemma encrypt_event_no_convergence_test T :
  forallb encrypt_event T = true -> converge_calls T = [].
Proof.
  induction T as [|e T IH]; cbn; [reflexivity|].
  intros Hall. apply andb_prop in Hall. destruct Hall as [He Hall].
  destruct e; cbn in *; try discriminate; auto.
Qed.

(** X14.  A centrally encrypted [fit] that returns ran one round per stop
    signal it received, never more than the budget left; each signal
    came under the number of its round, none but the last was true, and
    the loop ended on a true signal or on its bound. *)
Theorem encrypt_fit_stops_on_the_signal_it_receives guest_data s s' :
  E.fit guest_data s = (Ok tt, s') ->
  exists T,
    trace s' = trace s ++ T /\
    n_iter_ s' = n_iter_ s + List.length (stop_signals T) /\
    List.length (stop_signals T) <= max_iter s - n_iter_ s /\
    signals_from (n_iter_ s) (stop_signals T) /\
    (max_iter s <= n_iter_ s' \/
     exists l tag v, stop_signals T = l ++ [(tag, v)] /\ truth v = true).
Proof.
  intros Hr. apply encrypt_fit_parts in Hr. destruct Hr as (T & (Ht & _) & Hok).
  exists T. split; [exact Ht | exact (Hok eq_refl)].
Qed.

(** X15.  However a centrally encrypted [fit] ends, the gradients and the
    loss it has sent went to the arbiter, the sample indexes and the
    components to the host, nothing else was sent, and the guest never
    tested convergence itself. *)
Theorem encrypt_fit_sends_gradients_and_loss_to_the_arbiter guest_data s :
  exists T,
    trace (snd (E.fit guest_data s)) = trace s ++ T /\
    forallb encrypt_event T = true /\
    converge_calls T = [].
Proof.
  destruct (E.fit guest_data s) as [r s'] eqn:Hr. cbn [snd].
  apply encrypt_fit_parts in Hr. destruct Hr as (T & (Ht & Hall & _) & _).
  exists T. split; [exact Ht|]. split; [exact Hall|].
  apply encrypt_event_no_convergence_test. exact Hall.
Qed.

(** X16.  [predict] leaves the round counter, the budget and the convergence
    function alone.  When it returns it has received the host's
    probabilities and then sent one message, its own prediction, to the
    host, both untagged; when it raises it has sent nothing. *)
Theorem predict_sends_the_prediction_and_nothing_else guest_data s :
  let r := fst (predict guest_data s) in
  let s' := snd (predict guest_data s) in
  n_iter_ s' = n_iter_ s /\ max_iter s' = max_iter s /\
  converge_func s' = converge_func s /\
  exists T,
    trace s' = trace s ++ T /\
    ((r = Ok tt /\
      exists hp pp,
        T = [Get transfer_variable.host_prob None hp;
             Remote transfer_variable.pred_prob None (PVal pp) HOST]) \/
     ((exists e, r = Raise e) /\
      (T = [] \/ exists hp, T = [Get transfer_variable.host_prob None hp]))).
Proof.
  destruct (predict guest_data s) as [r s'] eqn:Hr. cbn [fst snd].
  unfold predict in Hr. run_ftlv Hr.
  all: inversion Hr; subst; clear Hr; cbn; rewrite <- ?app_assoc; cbn.
  all: repeat split.
  all: first [ exists []; rewrite app_nil_r; split; [reflexivity|];
               right; split; [eauto | left; reflexivity]
             | eexists; split; [reflexivity|];
               first [ left; split; [reflexivity | eauto]
                     | right; split; [eauto | right; eauto] ] ].
Qed.

End Facts.

Section Factory.

Import GuestFactory.

Variables LocalModel GuestModel Conv Eps : Type.
Variable new_model :
  ModelClass -> LocalModel -> FTLModelParam Eps -> Result GuestModel.
Variable DiffConverge : Eps -> Result Conv.

Lemma init_spec cls m p (g : Guest GuestModel Conv Eps) :
  __init__ DiffConverge cls m p = Ok g ->
  class_ g = cls /\ n_iter_ g = 0 /\ g_max_iter g = max_iter p /\
  g_local_iterations g = local_iterations p /\ model_param g = p.
Proof.
  unfold __init__. destruct (DiffConverge (eps p)); [|discriminate].
  intros Hg. inversion Hg; subst. cbn. auto.
Qed.

(** X17.  The factory refuses an encrypted variant it does not know, by its
    exact name, before it builds anything; without encryption it builds
    the plain guest whatever the variant name; and a guest it builds
    stands at round 0 with the bounds of its parameters. *)
Theorem create_refuses_unknown_encrypted_variants_only p local :
  (is_encrypt p = true ->
   enc_ftl p <> "dct_enc_ftl"%string -> enc_ftl p <> "enc_ftl"%string ->
   create new_model DiffConverge p local = Raise (not_supported (enc_ftl p))) /\
  (forall g, create new_model DiffConverge p local = Ok g ->
     (class_ g = HeteroPlainFTLGuest <-> is_encrypt p = false) /\
     (class_ g = HeteroDecentralizedEncryptFTLGuest <->
        is_encrypt p = true /\ enc_ftl p = "dct_enc_ftl"%string) /\
     (class_ g = HeteroEncryptFTLGuest <->
        is_encrypt p = true /\ enc_ftl p = "enc_ftl"%string) /\
     n_iter_ g = 0 /\ g_max_iter g = max_iter p /\
     g_local_iterations g = local_iterations p).
Proof.
  unfold create. split.
  - intros He H1 H2. rewrite He.
    apply String.eqb_neq in H1, H2. rewrite H1, H2. reflexivity.
  - intros g Hg. destruct (is_encrypt p) eqn:He.
    + destruct (String.eqb_spec (enc_ftl p) "dct_enc_ftl") as [E1 | E1];
        [| destruct (String.eqb_spec (enc_ftl p) "enc_ftl") as [E2 | E2];
           [|discriminate]].
      all: destruct (new_model _ _ _) as [m|e]; [|discriminate].
      all: apply init_spec in Hg; destruct Hg as (Hc & Hn & Hm & Hl & _).
      all: rewrite Hc.
      all: repeat split; try assumption; try discriminate; try reflexivity.
      all: try (intros [_ Hx]; rewrite Hx in *; try discriminate; congruence).
    + destruct (new_model _ _ _) as [m|e]; [|discriminate].
      apply init_spec in Hg. destruct Hg as (Hc & Hn & Hm & Hl & _).
      rewrite Hc.
      repeat split; try assumption; try discriminate; try reflexivity.
      all: intros [Hx _]; discriminate.
Qed.

End Factory.

(** The variant name in upper case is refused; without encryption any
    name gives the plain guest. *)
Lemma upper_case_variant_is_refused :
  let new_model := fun (_ : GuestFactory.ModelClass) (_ : unit)
                       (_ : GuestFactory.FTLModelParam unit) => Ok tt in
  let DiffConverge := fun _ : unit => Ok tt in
  let p := GuestFactory.mkParam true "ENC_FTL" 5 1 tt in
  let q := GuestFactory.mkParam false "ENC_FTL" 5 1 tt in
  GuestFactory.create new_model DiffConverge p tt =
    Raise (GuestFactory.not_supported "ENC_FTL") /\
  GuestFactory.create new_model DiffConverge q tt =
    Ok (GuestFactory.mkGuest GuestFactory.HeteroPlainFTLGuest tt q 5 1 0 tt).
Proof.
  intros new_model DiffConverge p q. split.
  - apply (proj1 (create_refuses_unknown_encrypted_variants_only
                    unit unit unit unit new_model DiffConverge p tt)).
    + reflexivity.
    + cbn. discriminate.
    + cbn. discriminate.
  - reflexivity.
Defined.

Import FTLCases.

(** The plain demo guest stops in round 2, on the third convergence
    test. *)
Lemma plain_demo_stops_in_round_two :
  P.fit 5 five_rounds = (Ok tt, snd plain_run) /\
  (exists T m,
     trace (snd plain_run) = trace five_rounds ++ T /\
     n_iter_ (snd plain_run) = n_iter_ five_rounds + m /\
     m <= max_iter five_rounds - n_iter_ five_rounds /\
     List.length (converge_calls T) = m /\
     ((stops T = going (n_iter_ five_rounds) m /\
       max_iter five_rounds <= n_iter_ (snd plain_run)) \/
      exists m0, m = S m0 /\
                 stops T = going (n_iter_ five_rounds) m0 ++
                           [(Some (n_iter_ five_rounds + m0), true)])) /\
  n_iter_ (snd plain_run) = 3 /\
  stops (trace (snd plain_run)) =
    [(Some 0, false); (Some 1, false); (Some 2, true)].
Proof.
  assert (H1 : P.fit 5 five_rounds = (Ok tt, snd plain_run))
    by (vm_compute; reflexivity).
  split; [exact H1|]. split.
  - exact (plain_fit_sends_one_stop_flag_per_round 5 five_rounds _ H1).
  - split; reflexivity.
Defined.

(** The centrally encrypted demo guest stops in round 1, on the
    arbiter's signal. *)
Lemma encrypt_demo_stops_in_round_one :
  E.fit 5 five_rounds = (Ok tt, snd encrypt_run) /\
  (exists T,
     trace (snd encrypt_run) = trace five_rounds ++ T /\
     n_iter_ (snd encrypt_run) =
       n_iter_ five_rounds + List.length (stop_signals T) /\
     List.length (stop_signals T) <=
       max_iter five_rounds - n_iter_ five_rounds /\
     signals_from (n_iter_ five_rounds) (stop_signals T) /\
     (max_iter five_rounds <= n_iter_ (snd encrypt_run) \/
      exists l tag v, stop_signals T = l ++ [(tag, v)] /\ truth v = true)) /\
  n_iter_ (snd encrypt_run) = 2 /\
  stop_signals (trace (snd encrypt_run)) = [(Some 0, 0); (Some 1, 1)].
Proof.
  assert (H1 : E.fit 5 five_rounds = (Ok tt, snd encrypt_run))
    by (vm_compute; reflexivity).
  split; [exact H1|]. split.
  - exact (encrypt_fit_stops_on_the_signal_it_receives 5 five_rounds _ H1).
  - split; reflexivity.
Defined.

End FTLRoundsFacts.

(** ** The rounds of the decentralized FTL guest *)

Module DctRoundsFacts.

Import HeteroFTLGuest FTLTrace DctRounds.

Section Facts.

Context `{Collaborators}.

Lemma dct_stops_app T1 T2 : stops (T1 ++ T2) = stops T1 ++ stops T2.
Proof.
  induction T1 as [|e T1 IH]; cbn; [reflexivity|].
  destruct e as [[] tag [v|b]|name tag v|kind m|kind m v|loss]; cbn;
    rewrite IH; reflexivity.
Qed.

Lemma key_traffic_app T1 T2 :
  key_traffic (T1 ++ T2) = key_traffic T1 ++ key_traffic T2.
Proof. apply filter_app. Qed.

Lemma local_events_quiet li n g grads loss_ hg dg dec_hg dl :
  stops (local_events li n g grads loss_ hg dg dec_hg dl) = [] /\
  key_traffic (local_events li n g grads loss_ hg dg dec_hg dl) = [].
Proof. unfold local_events. destruct (li =? 0); split; reflexivity. Qed.

(** The local iterations send no stop flag and no key. *)
Lemma local_loop_quiet iters : forall loss s l s',
  local_loop iters loss s = (Ok l, s') ->
  exists T,
    trace s' = trace s ++ T /\ stops T = [] /\ key_traffic T = [] /\
    converge_args T = [] /\
    n_iter_ s' = n_iter_ s /\ max_iter s' = max_iter s.
Proof.
  induction iters as [|li iters IH]; intros loss s l s' Hr.
  - inversion Hr; subst. exists []. rewrite app_nil_r. auto 10.
  - cbn [local_loop] in Hr. unfold bind in Hr.
    destruct (local_iteration li loss s) as [[l1|ex] s1] eqn:E1; [|discriminate].
    apply FTLFacts.local_iteration_events in E1.
    destruct E1 as (grads & loss_ & hg & dg & dec_hg & dl & Ht & _ & _ & Hn & Hb & _).
    apply IH in Hr. destruct Hr as (T & Ht' & Hs & Hk & Hc & Hn' & Hm').
    eexists. split; [rewrite Ht', Ht, <- app_assoc; reflexivity|].
    rewrite dct_stops_app, key_traffic_app, FTLFacts.converge_args_app, Hs, Hk, Hc.
    destruct (local_events_quiet li (n_iter_ s) (drawn s) grads loss_ hg dg dec_hg dl)
      as [-> ->].
    rewrite FTLFacts.local_events_converge_args.
    repeat split; congruence.
Qed.

(** One round of the decentralized guest. *)
Lemma dct_round is_stop s b s' :
  fit_round is_stop s = (Ok b, s') ->
  exists T,
    trace s' = trace s ++ T /\
    stops T = [(Some (n_iter_ s), b)] /\
    key_traffic T = [] /\
    List.length (converge_args T) = 1 /\
    n_iter_ s' = n_iter_ s + 1 /\ max_iter s' = max_iter s.
Proof.
  unfold fit_round. intros Hr. run_ftl Hr.
  all: inversion Hr; subst; clear Hr.
  all: match goal with
       | E : local_loop _ _ _ = _ |- _ =>
           apply local_loop_quiet in E;
           destruct E as (T & Ht & Hs & Hk & Hc & Hn & Hm)
       end.
  all: cbn in Ht, Hn, Hm; cbn; rewrite Ht, <- ?app_assoc; cbn.
  all: eexists; split; [reflexivity|].
  all: unfold key_traffic in *.
  all: cbn; rewrite ?dct_stops_app, ?filter_app, ?FTLFacts.converge_args_app,
         ?Hs, ?Hk, ?Hc, ?Hn, ?Hm; cbn.
  all: repeat split; reflexivity.
Qed.

Lemma dct_going_cons a m : going a (S m) = (Some a, false) :: going (S a) m.
Proof. reflexivity. Qed.

(** The loop of the decentralized guest. *)
Lemma dct_rounds fuel : forall s s',
  fit_rounds fuel false s = (Ok tt, s') ->
  exists T m,
    trace s' = trace s ++ T /\
    key_traffic T = [] /\
    n_iter_ s' = n_iter_ s + m /\
    m <= max_iter s - n_iter_ s /\
    List.length (converge_args T) = m /\
    ((stops T = going (n_iter_ s) m /\ max_iter s <= n_iter_ s') \/
     exists m0, m = S m0 /\
                stops T = going (n_iter_ s) m0 ++
                          [(Some (n_iter_ s + m0), true)]).
Proof.
  induction fuel as [|fuel IH]; intros s s' Hr;
    rewrite FTLFacts.fit_rounds_unfold in Hr;
    destruct (Nat.ltb_spec (n_iter_ s) (max_iter s)) as [Hlt | Hge].
  - discriminate.
  - inversion Hr; subst. exists [], 0. rewrite app_nil_r, Nat.add_0_r.
    repeat split; try lia. left. split; [reflexivity | lia].
  - destruct (fit_round false s) as [[b|e] s1] eqn:E1; [|discriminate].
    apply dct_round in E1.
    destruct E1 as (T1 & Ht1 & Hst & Hk & Hc & Hn & Hm1).
    destruct b.
    + inversion Hr; subst. exists T1, 1. repeat split; try lia; try assumption.
      right. exists 0. rewrite Nat.add_0_r. split; [reflexivity | exact Hst].
    + apply IH in Hr.
      destruct Hr as (T2 & k & Ht2 & Hk2 & Hn2 & Hle & Hc2 & Hcase).
      exists (T1 ++ T2), (S k).
      rewrite dct_stops_app, key_traffic_app, FTLFacts.converge_args_app,
        length_app, Hst, Hk, Hk2, Hc.
      rewrite Hn, Hm1 in *.
      split; [rewrite Ht2, Ht1, app_assoc; reflexivity|].
      repeat split; try lia.
      destruct Hcase as [[Hg Hmax] | (m0 & -> & Hg)]; rewrite Hg.
      * left. split; [|lia]. rewrite dct_going_cons.
        replace (n_iter_ s + 1) with (S (n_iter_ s)) by lia. reflexivity.
      * right. exists (S m0). split; [reflexivity|].
        rewrite dct_going_cons. cbn.
        replace (n_iter_ s + 1) with (S (n_iter_ s)) by lia.
        replace (S (n_iter_ s) + m0) with (n_iter_ s + S m0) by lia.
        reflexivity.
  - inversion Hr; subst. exists [], 0. rewrite app_nil_r, Nat.add_0_r.
    repeat split; try lia. left. split; [reflexivity | lia].
Qed.

(** X18.  A decentralized [fit] that returns: the public keys cross once,
    before the rounds and under the tag of the round counter on entry,
    the key sent being the one just generated; then [m] rounds from
    where [n_iter_] stood, never more than the budget left, each with
    one convergence test and one stop flag under its own number,
    [false] in every round but the last, which is [true] unless the
    loop ended on its bound.  [n_iter_] is not reset: with the budget
    used up, [fit] exchanges keys and sample indexes and runs no
    round. *)
Theorem dct_fit_exchanges_keys_once_and_flags_every_round guest_data s s' :
  fit guest_data s = (Ok tt, s') ->
  exists pub priv e hk idx hidx T m,
    generate_encryption_key_pair (env s) = (Ok (pub, priv), e) /\
    trace s' = trace s ++ preparation (n_iter_ s) pub hk idx hidx ++ T /\
    key_traffic T = [] /\
    n_iter_ s' = n_iter_ s + m /\
    m <= max_iter s - n_iter_ s /\
    List.length (converge_args T) = m /\
    ((stops T = going (n_iter_ s) m /\ max_iter s <= n_iter_ s') \/
     exists m0, m = S m0 /\
                stops T = going (n_iter_ s) m0 ++
                          [(Some (n_iter_ s + m0), true)]).
Proof.
  unfold fit, prepare_encryption_key_pair, prepare_data. intros Hr.
  run_ftl Hr.
  all: try discriminate.
  apply dct_rounds in Hr.
  destruct Hr as (T & k & Ht & Hk & Hn & Hle & Hc & Hcase).
  cbn in Ht, Hn, Hle, Hcase.
  match goal with
  | E : generate_encryption_key_pair _ = (Ok (?pub, ?priv), ?e) |- _ =>
      exists pub, priv, e
  end.
  match type of Ht with
  | _ = (((_ ++ [_]) ++ [Get _ _ ?hk]) ++ [Remote _ _ (PVal ?idx)]) ++
        [Get _ _ ?hidx] ++ _ =>
      exists hk, idx, hidx, T, k
  | _ = ((((_ ++ [_]) ++ [Get _ _ ?hk]) ++ [Remote _ _ (PVal ?idx)]) ++
        [Get _ _ ?hidx]) ++ _ =>
      exists hk, idx, hidx, T, k
  end.
  split; [reflexivity|].
  split; [rewrite Ht, <- ?app_assoc; reflexivity|].
  repeat split; assumption.
Qed.

End Facts.

Import DctCases.

(** The decentralized demo guest stops in round 2; a second [fit] on
    the same object does not start over: it runs round 3. *)
Lemma dct_demo_stops_in_round_two :
  fit 5 five_rounds = (Ok tt, snd run) /\
  (exists pub priv e hk idx hidx T m,
     generate_encryption_key_pair (env five_rounds) = (Ok (pub, priv), e) /\
     trace (snd run) =
       trace five_rounds ++
       preparation (n_iter_ five_rounds) pub hk idx hidx ++ T /\
     key_traffic T = [] /\
     n_iter_ (snd run) = n_iter_ five_rounds + m /\
     m <= max_iter five_rounds - n_iter_ five_rounds /\
     List.length (converge_args T) = m /\
     ((stops T = going (n_iter_ five_rounds) m /\
       max_iter five_rounds <= n_iter_ (snd run)) \/
      exists m0, m = S m0 /\
                 stops T = going (n_iter_ five_rounds) m0 ++
                           [(Some (n_iter_ five_rounds + m0), true)])) /\
  stops (trace (snd run)) = [(Some 0, false); (Some 1, false); (Some 2, true)] /\
  n_iter_ (snd run) = 3 /\
  fit 5 (snd run) = (Ok tt, snd second_run) /\
  n_iter_ (snd second_run) = 4.
Proof.
  assert (H1 : fit 5 five_rounds = (Ok tt, snd run)) by (vm_compute; reflexivity).
  split; [exact H1|]. split.
  - exact (dct_fit_exchanges_keys_once_and_flags_every_round 5 five_rounds _ H1).
  - repeat split; vm_compute; reflexivity.
Defined.

End DctRoundsFacts.

Module KmeansRoundsFacts.

Import HeteroKmeans KmeansTrace KmeansRounds.

Module A := HeteroKmenasArbiter.

Module C := HeteroKmeansClient.

Section Facts.

Context `{Collaborators}.

(** X19.  An arbiter [fit] that returns ran consecutive rounds from where
    [n_iter_] stood, never more than the budget left, and none at all only
    with the budget used up or a [tol] that [inf] is not above.  In each
    round the assignment sent to guest and host is [centroid_assign] of
    the two tables of distances it was given, joined, and what goes out
    on [arbiter_tol], to host and guest, is the sum of the two tolerances
    it was given.  In every round but the last the tests [n < tol] and
    [n > tol] on that sum came out false and true.  The loop ended either
    on [break], with [n < tol] true and [n_iter_] left on that round, or
    on its condition, with [n < tol] false, [n_iter_] past the last round
    and the budget used up or [n > tol] false. *)
Theorem arbiter_fit_runs_until_the_tolerance_falls s s' :
  A.fit s = (Ok tt, s') ->
  exists l,
    A.sent s' = A.sent s ++ rounds_events (A.n_iter_ s) l /\
    Forall assigned l /\
    List.length l <= A.max_iter s - A.n_iter_ s /\
    (l = [] -> A.max_iter s <= A.n_iter_ s \/ A.gt A.inf (A.tol s) = false) /\
    Forall (fun x => A.lt (combined x) (A.tol s) = false /\
                     A.gt (combined x) (A.tol s) = true) (removelast l) /\
    ((exists l0 x, l = l0 ++ [x] /\ A.lt (combined x) (A.tol s) = true /\
                   A.n_iter_ s' = A.n_iter_ s + List.length l0) \/
     (A.n_iter_ s' = A.n_iter_ s + List.length l /\
      forall l0 x, l = l0 ++ [x] ->
        A.lt (combined x) (A.tol s) = false /\
        (A.max_iter s <= A.n_iter_ s' \/
         A.gt (combined x) (A.tol s) = false))).
Proof.
  unfold A.fit, bind, gets. intros Hr. apply KmeansFacts.arbiter_rounds in Hr.
  destruct Hr as (l & Hs & Hass & Hle & _ & Hnil & Hall & Hcase).
  exists l. repeat split; assumption.
Qed.

Section Client.

Variable squared_movement : Centroids -> PyList -> Result TolValue.
Variable get_signal :
  TransferVariable -> Z -> option Suffix -> Env -> Result Signal * Env.

Ltac destr_goal :=
  match goal with
  | |- context [match ?x with _ => _ end] =>
      lazymatch x with
      | match _ with _ => _ end => fail
      | _ => destruct x eqn:?
      end
  end.

Lemma client_round_as_host data c g :
  C.binding g = C.HeteroKmeansGuest ->
  C.fit_round squared_movement get_signal data c (as_host g) =
  (fst (C.fit_round squared_movement get_signal data c g),
   as_host (snd (C.fit_round squared_movement get_signal data c g))) /\
  C.binding (snd (C.fit_round squared_movement get_signal data c g)) =
    C.HeteroKmeansGuest.
Proof.
  intros Hb. unfold C.fit_round.
  cbv beta delta [bind ret raise gets modify lift C.remote C.get C.centroid_cal
                  as_host].
  cbn beta iota zeta.
  cbn [C.binding C.k C.n_iter_ C.max_iter C.centroid_list C.cluster_result_
       C.env C.sent C.set_n_iter_ C.set_centroid_list C.set_cluster_result
       C.set_env C.set_sent].
  repeat (destr_goal;
          cbn beta iota zeta;
          cbn [C.binding C.k C.n_iter_ C.max_iter C.centroid_list
               C.cluster_result_ C.env C.sent C.set_n_iter_
               C.set_centroid_list C.set_cluster_result C.set_env C.set_sent
               fst snd];
          rewrite ?Hb).
  all: cbn [C.client_dist C.client_tol]; rewrite ?map_app; cbn [map to_host].
  all: split; [reflexivity | assumption || reflexivity].
Qed.

Lemma client_rounds_as_host fuel : forall data c g,
  C.binding g = C.HeteroKmeansGuest ->
  C.fit_rounds squared_movement get_signal fuel data c (as_host g) =
  (fst (C.fit_rounds squared_movement get_signal fuel data c g),
   as_host (snd (C.fit_rounds squared_movement get_signal fuel data c g))).
Proof.
  induction fuel as [|fuel IH]; intros data c g Hb;
    rewrite (KmeansFacts.client_rounds_unfold _ _ _ data c (as_host g));
    rewrite (KmeansFacts.client_rounds_unfold _ _ _ data c g);
    cbn [as_host C.n_iter_ C.max_iter];
    destruct (C.n_iter_ g <? C.max_iter g); try reflexivity.
  destruct (client_round_as_host data c g Hb) as [-> Hb1].
  destruct (C.fit_round squared_movement get_signal data c g)
    as [[[|]|e] g1]; cbn [fst snd] in *; try reflexivity.
  apply IH. exact Hb1.
Qed.

(** X20.  The host client does what the guest client does, on [host_dist] and
    [host_tol] where the guest uses [guest_dist] and [guest_tol]: same
    outcome, same state, the same messages in the same order. *)
Theorem host_client_is_the_guest_client_on_its_own_channels data g :
  C.binding g = C.HeteroKmeansGuest ->
  C.fit squared_movement get_signal data (as_host g) =
  (fst (C.fit squared_movement get_signal data g),
   as_host (snd (C.fit squared_movement get_signal data g))).
Proof.
  intros Hb. unfold C.fit, bind, gets, lift.
  destruct (_abnormal_detection data); [|reflexivity].
  destruct get_centroid as [c|e]; [|reflexivity].
  cbn [as_host C.n_iter_ C.max_iter].
  apply client_rounds_as_host. exact Hb.
Qed.

End Client.

End Facts.

Import Scenario.Kmeans.

(** The demo client with one cluster, as guest and as host. *)
Lemma demo_host_client_follows_demo_guest_client :
  C.fit squared_movement get_signal tt (as_host (client 1)) =
  (fst (C.fit squared_movement get_signal tt (client 1)),
   as_host (snd (C.fit squared_movement get_signal tt (client 1)))).
Proof.
  exact (@host_client_is_the_guest_client_on_its_own_channels
           demo squared_movement get_signal tt (client 1) eq_refl).
Defined.

(** The demo arbiter stops in round 0. *)
Lemma demo_arbiter_stops_in_round_zero :
  A.fit arbiter = (Ok tt, snd Runs.arbiter_run) /\
  exists l,
    A.sent (snd Runs.arbiter_run) =
      A.sent arbiter ++ rounds_events (A.n_iter_ arbiter) l /\
    Forall assigned l /\
    List.length l <= A.max_iter arbiter - A.n_iter_ arbiter /\
    (l = [] -> A.max_iter arbiter <= A.n_iter_ arbiter \/
               A.gt A.inf (A.tol arbiter) = false) /\
    Forall (fun x => A.lt (combined x) (A.tol arbiter) = false /\
                     A.gt (combined x) (A.tol arbiter) = true)
           (removelast l) /\
    ((exists l0 x, l = l0 ++ [x] /\ A.lt (combined x) (A.tol arbiter) = true /\
                   A.n_iter_ (snd Runs.arbiter_run) =
                     A.n_iter_ arbiter + List.length l0) \/
     (A.n_iter_ (snd Runs.arbiter_run) = A.n_iter_ arbiter + List.length l /\
      forall l0 x, l = l0 ++ [x] ->
        A.lt (combined x) (A.tol arbiter) = false /\
        (A.max_iter arbiter <= A.n_iter_ (snd Runs.arbiter_run) \/
         A.gt (combined x) (A.tol arbiter) = false))).
Proof.
  assert (H1 : A.fit arbiter = (Ok tt, snd Runs.arbiter_run))
    by (vm_compute; reflexivity).
  split; [exact H1|].
  exact (@arbiter_fit_runs_until_the_tolerance_falls demo arbiter _ H1).
Defined.

End KmeansRoundsFacts.

(** ** The static helpers of the k-means client *)

Module HelpersFacts.

Import HeteroKmeansClientHelpers.

Section TolCal.

Variable Num : Type.
Variable zero : Num.
Variable add : Num -> Num -> Num.
Variable power_diff_2 : Num -> Num -> Num.

#[local] Abbreviation tol_cal := (tol_cal zero add power_diff_2).
#[local] Abbreviation tol_cal_rows := (tol_cal_rows add power_diff_2).
#[local] Abbreviation tol_cal_row := (tol_cal_row add power_diff_2).
#[local] Abbreviation at_ := (at_ zero).
#[local] Abbreviation squared_differences :=
  (squared_differences zero power_diff_2).

Lemma getitem_ok {A} (l : list A) i a : nth_error l i = Some a -> getitem l i = Ok a.
Proof. unfold getitem. intros ->. reflexivity. Qed.

Lemma getitem_inv {A} (l : list A) i r :
  getitem l i = r ->
  (exists a, r = Ok a /\ nth_error l i = Some a) \/
  (r = Raise IndexError /\ List.length l <= i).
Proof.
  unfold getitem. destruct (nth_error l i) eqn:E; intros <-.
  - left. eauto.
  - right. split; [reflexivity|]. apply nth_error_None. exact E.
Qed.

Lemma at_row clu i j row :
  nth_error clu i = Some row -> j < List.length row ->
  nth_error row j = Some (at_ clu i j).
Proof.
  intros Hr Hj. unfold HeteroKmeansClientHelpers.at_.
  rewrite (nth_error_nth clu i [] Hr). apply nth_error_nth'. exact Hj.
Qed.

Lemma row_ok js : forall i clu1 clu2 diffs row1 row2,
  nth_error clu1 i = Some row1 ->
  nth_error clu2 i = Some row2 ->
  (forall j, In j js -> j < List.length row1 /\ j < List.length row2) ->
  tol_cal_row js i clu1 clu2 diffs =
  Ok (fold_left add
        (map (fun j => power_diff_2 (at_ clu1 i j) (at_ clu2 i j)) js) diffs).
Proof.
  induction js as [|j js IH]; intros i clu1 clu2 diffs row1 row2 H1 H2 Hj;
    [reflexivity|].
  cbn [HeteroKmeansClientHelpers.tol_cal_row map fold_left].
  destruct (Hj j (or_introl eq_refl)) as [Hj1 Hj2].
  rewrite (getitem_ok _ _ _ H1), (getitem_ok _ _ _ (at_row _ _ _ _ H1 Hj1)).
  rewrite (getitem_ok _ _ _ H2), (getitem_ok _ _ _ (at_row _ _ _ _ H2 Hj2)).
  apply (IH i clu1 clu2 _ row1 row2 H1 H2).
  intros j' Hin. apply Hj. right. exact Hin.
Qed.

Lemma row_inv js : forall i clu1 clu2 diffs r,
  tol_cal_row js i clu1 clu2 diffs = r ->
  (exists e, r = Raise e) -> r = Raise IndexError.
Proof.
  induction js as [|j js IH]; intros i clu1 clu2 diffs r Hr [e He].
  - cbn in Hr. congruence.
  - cbn [HeteroKmeansClientHelpers.tol_cal_row] in Hr.
    destruct (getitem_inv clu1 i _ eq_refl) as [(row1 & E1 & _) | [E1 _]];
      rewrite E1 in Hr; [|congruence].
    destruct (getitem_inv row1 j _ eq_refl) as [(a & E2 & _) | [E2 _]];
      rewrite E2 in Hr; [|congruence].
    destruct (getitem_inv clu2 i _ eq_refl) as [(row2 & E3 & _) | [E3 _]];
      rewrite E3 in Hr; [|congruence].
    destruct (getitem_inv row2 j _ eq_refl) as [(b & E4 & _) | [E4 _]];
      rewrite E4 in Hr; [|congruence].
    eapply IH; eauto.
Qed.

Lemma row_returns js : forall i clu1 clu2 diffs d,
  tol_cal_row js i clu1 clu2 diffs = Ok d ->
  js = [] \/
  exists row1 row2,
    nth_error clu1 i = Some row1 /\ nth_error clu2 i = Some row2 /\
    forall j, In j js -> j < List.length row1 /\ j < List.length row2.
Proof.
  induction js as [|j js IH]; intros i clu1 clu2 diffs d Hr; [left; reflexivity|].
  right. cbn [HeteroKmeansClientHelpers.tol_cal_row] in Hr.
  destruct (getitem_inv clu1 i _ eq_refl) as [(row1 & E1 & N1) | [E1 _]];
    rewrite E1 in Hr; [|discriminate].
  destruct (getitem_inv row1 j _ eq_refl) as [(a & E2 & N2) | [E2 _]];
    rewrite E2 in Hr; [|discriminate].
  destruct (getitem_inv clu2 i _ eq_refl) as [(row2 & E3 & N3) | [E3 _]];
    rewrite E3 in Hr; [|discriminate].
  destruct (getitem_inv row2 j _ eq_refl) as [(b & E4 & N4) | [E4 _]];
    rewrite E4 in Hr; [|discriminate].
  exists row1, row2. split; [exact N1|]. split; [exact N3|].
  intros j' [<- | Hin].
  - split; apply nth_error_Some; congruence.
  - destruct (IH _ _ _ _ _ Hr) as [-> | (r1 & r2 & M1 & M2 & Hall)];
      [contradiction|].
    rewrite N1 in M1. rewrite N3 in M2.
    injection M1 as <-. injection M2 as <-. apply Hall. exact Hin.
Qed.

Lemma rows_ok rows : forall clu1 clu2 diffs second,
  nth_error clu1 1 = Some second ->
  (second = [] \/
   forall i, In i rows -> wide (List.length second) clu1 i /\
                          wide (List.length second) clu2 i) ->
  tol_cal_rows rows clu1 clu2 diffs =
  Ok (fold_left add
        (flat_map (fun i => map (fun j => power_diff_2 (at_ clu1 i j)
                                                       (at_ clu2 i j))
                                (seq 0 (List.length second))) rows)
        diffs).
Proof.
  induction rows as [|i rows IH]; intros clu1 clu2 diffs second H1 Hw;
    [reflexivity|].
  cbn [HeteroKmeansClientHelpers.tol_cal_rows flat_map].
  rewrite (getitem_ok _ _ _ H1), fold_left_app.
  assert (Hrow : tol_cal_row (seq 0 (List.length second)) i clu1 clu2 diffs =
                 Ok (fold_left add
                       (map (fun j => power_diff_2 (at_ clu1 i j) (at_ clu2 i j))
                            (seq 0 (List.length second))) diffs)).
  { destruct Hw as [-> | Hw]; [reflexivity|].
    destruct (Hw i (or_introl eq_refl)) as [(r1 & N1 & L1) (r2 & N2 & L2)].
    apply (row_ok _ i clu1 clu2 diffs r1 r2 N1 N2).
    intros j Hj. apply in_seq in Hj. lia. }
  rewrite Hrow. apply (IH clu1 clu2 _ second H1).
  destruct Hw as [Hw | Hw]; [left; exact Hw|].
  right. intros i' Hin. apply Hw. right. exact Hin.
Qed.

Lemma rows_inv rows : forall clu1 clu2 diffs r,
  tol_cal_rows rows clu1 clu2 diffs = r ->
  (exists e, r = Raise e) -> r = Raise IndexError.
Proof.
  induction rows as [|i rows IH]; intros clu1 clu2 diffs r Hr [e He].
  - cbn in Hr. congruence.
  - cbn [HeteroKmeansClientHelpers.tol_cal_rows] in Hr.
    destruct (getitem_inv clu1 1 _ eq_refl) as [(second & E1 & _) | [E1 _]];
      rewrite E1 in Hr; [|congruence].
    destruct (tol_cal_row (seq 0 (List.length second)) i clu1 clu2 diffs)
      as [d|e'] eqn:E2.
    + eapply IH; eauto.
    + rewrite <- Hr. eapply row_inv; eauto.
Qed.

Lemma rows_returns rows : forall clu1 clu2 diffs d,
  tol_cal_rows rows clu1 clu2 diffs = Ok d ->
  rows = [] \/
  exists second,
    nth_error clu1 1 = Some second /\
    (second = [] \/
     forall i, In i rows -> wide (List.length second) clu1 i /\
                            wide (List.length second) clu2 i).
Proof.
  induction rows as [|i rows IH]; intros clu1 clu2 diffs d Hr; [left; reflexivity|].
  right. cbn [HeteroKmeansClientHelpers.tol_cal_rows] in Hr.
  destruct (getitem_inv clu1 1 _ eq_refl) as [(second & E1 & N1) | [E1 _]];
    rewrite E1 in Hr; [|discriminate].
  exists second. split; [exact N1|].
  destruct second as [|x second]; [left; reflexivity|]. right.
  destruct (tol_cal_row (seq 0 (List.length (x :: second))) i clu1 clu2 diffs)
    as [d'|e'] eqn:E2; [|discriminate].
  apply row_returns in E2. destruct E2 as [E2 | (r1 & r2 & M1 & M2 & Hall)];
    [discriminate|].
  assert (Hlast : List.length second < List.length r1 /\
                  List.length second < List.length r2).
  { apply Hall. apply in_seq. cbn. lia. }
  intros i' [<- | Hin].
  - split; [exists r1 | exists r2]; split; cbn; auto; lia.
  - destruct (IH _ _ _ _ Hr) as [-> | (second' & N1' & Hw)]; [contradiction|].
    rewrite N1 in N1'. injection N1' as <-.
    destruct Hw as [Hw | Hw]; [discriminate|]. apply Hw. exact Hin.
Qed.

(** X21.  [tol_cal] on two or more centroids whose rows, like the rows of the
    second argument at the same places, are at least as long as
    [clu1[1]]: the sum of the squared differences over the first
    [len(clu1[1])] columns of every row.  Longer rows are cut at that
    width, and further rows of the second argument are not read. *)
Theorem tol_cal_sums_the_squared_differences clu1 clu2 second :
  nth_error clu1 1 = Some second ->
  (second = [] \/
   forall i, i < List.length clu1 ->
             wide (List.length second) clu1 i /\
             wide (List.length second) clu2 i) ->
  tol_cal clu1 clu2 =
  Ok (fold_left add
        (squared_differences (List.length clu1) (List.length second) clu1 clu2)
        zero).
Proof.
  intros H1 Hw. unfold HeteroKmeansClientHelpers.tol_cal.
  apply rows_ok; [exact H1|].
  destruct Hw as [Hw | Hw]; [left; exact Hw|].
  right. intros i Hi. apply Hw. apply in_seq in Hi. lia.
Qed.

(** X22.  [tol_cal] raises nothing but [IndexError], and it returns only on no
    centroid or on shapes as above.  So on no centroid it returns the
    initial 0 whatever the second argument holds, and on a single
    centroid it raises, the column count being read off [clu1[1]]. *)
Theorem tol_cal_returns_on_matching_shapes_only clu1 clu2 :
  (forall e, tol_cal clu1 clu2 = Raise e -> e = IndexError) /\
  (forall d, tol_cal clu1 clu2 = Ok d ->
     clu1 = [] \/
     exists second,
       nth_error clu1 1 = Some second /\
       (second = [] \/
        forall i, i < List.length clu1 ->
                  wide (List.length second) clu1 i /\
                  wide (List.length second) clu2 i)) /\
  (clu1 = [] -> tol_cal clu1 clu2 = Ok zero) /\
  (List.length clu1 = 1 -> tol_cal clu1 clu2 = Raise IndexError).
Proof.
  split; [|split; [|split]];
    [| | intros ->; reflexivity
     | destruct clu1 as [|row [|row' rest]]; cbn; intros Hl;
       try discriminate; reflexivity].
  - intros e He.
    assert (Hx : tol_cal clu1 clu2 = Raise IndexError).
    { eapply rows_inv; [reflexivity | eauto]. }
    congruence.
  - intros d Hd. unfold HeteroKmeansClientHelpers.tol_cal in Hd.
    apply rows_returns in Hd. destruct Hd as [Hd | (second & N1 & Hw)].
    + left. destruct clu1; [reflexivity | discriminate].
    + right. exists second. split; [exact N1|].
      destruct Hw as [Hw | Hw]; [left; exact Hw|].
      right. intros i Hi. apply Hw. apply in_seq. lia.
Qed.

End TolCal.

Section GetSum.

Variable K V : Type.
Variable eqb : K -> K -> bool.
Variable add : V -> V -> V.
Hypothesis eqb_spec : forall a b, eqb a b = true <-> a = b.

#[local] Abbreviation lookup := (lookup eqb).
#[local] Abbreviation store := (store eqb).
#[local] Abbreviation get_sum_loop := (get_sum_loop eqb add).
#[local] Abbreviation get_sum := (get_sum eqb add).
#[local] Abbreviation summed := (summed eqb add).
#[local] Abbreviation has_all := (has_all eqb).

Lemma eqb_refl k : eqb k k = true.
Proof. apply eqb_spec. reflexivity. Qed.

Lemma eqb_other k k' : k' <> k -> eqb k' k = false.
Proof.
  intros Hne. destruct (eqb k' k) eqn:E; [|reflexivity].
  apply eqb_spec in E. contradiction.
Qed.

Lemma lookup_raises (d : Dict K V) k e : lookup d k = Raise e -> e = KeyError.
Proof.
  induction d as [|[k' v] d IH]; cbn; [intros Hr; inversion Hr; reflexivity|].
  destruct (eqb k' k); [discriminate | exact IH].
Qed.

Lemma lookup_skip (done rest : Dict K V) k :
  ~ In k (map fst done) -> lookup (done ++ rest) k = lookup rest k.
Proof.
  induction done as [|[k' v] done IH]; cbn; intros Hn; [reflexivity|].
  rewrite eqb_other by (intros ->; apply Hn; left; reflexivity).
  apply IH. intros Hin. apply Hn. right. exact Hin.
Qed.

Lemma store_skip (done rest : Dict K V) k v :
  ~ In k (map fst done) -> store (done ++ rest) k v = done ++ store rest k v.
Proof.
  induction done as [|[k' v'] done IH]; cbn; intros Hn; [reflexivity|].
  rewrite eqb_other by (intros ->; apply Hn; left; reflexivity).
  rewrite IH; [reflexivity|]. intros Hin. apply Hn. right. exact Hin.
Qed.

Lemma get_sum_loop_spec (x2 : Dict K V) (rest : Dict K V) : forall done,
  NoDup (map fst (done ++ rest)) ->
  get_sum_loop (map fst rest) (done ++ rest) x2 =
  (if has_all rest x2 then Ok tt else Raise KeyError,
   done ++ summed rest x2).
Proof.
  induction rest as [|[k a] rest IH]; intros done Hnd; [reflexivity|].
  cbn [map fst HeteroKmeansClientHelpers.get_sum_loop
       HeteroKmeansClientHelpers.summed HeteroKmeansClientHelpers.has_all].
  assert (Hk : ~ In k (map fst done)).
  { rewrite map_app in Hnd. cbn in Hnd. apply NoDup_remove_2 in Hnd.
    intros Hin. apply Hnd. apply in_or_app. left. exact Hin. }
  rewrite (lookup_skip done _ k Hk). cbn [HeteroKmeansClientHelpers.lookup].
  rewrite eqb_refl.
  destruct (HeteroKmeansClientHelpers.lookup eqb x2 k) as [b|e] eqn:E2.
  - rewrite (store_skip done _ k _ Hk). cbn [HeteroKmeansClientHelpers.store].
    rewrite eqb_refl.
    change (done ++ (k, add a b) :: rest)
      with (done ++ [(k, add a b)] ++ rest).
    rewrite app_assoc, IH.
    + rewrite <- app_assoc. reflexivity.
    + rewrite <- app_assoc. rewrite map_app in *. exact Hnd.
  - rewrite (lookup_raises _ _ _ E2). reflexivity.
Qed.

(** X23.  [get_sum] on a dict [x1] and a dict [x2] that holds every key of
    [x1]: [x1] keeps its keys and their order, takes at each key the sum
    of the two values, and is what is returned; keys that only [x2]
    holds are dropped.  When [x2] lacks a key of [x1], [get_sum] raises
    [KeyError] and leaves [x1] half updated: summed up to that key,
    untouched from it on. *)
Theorem get_sum_adds_key_by_key (x1 x2 : Dict K V) :
  NoDup (map fst x1) ->
  get_sum x1 x2 =
    (if has_all x1 x2 then Ok (summed x1 x2) else Raise KeyError,
     summed x1 x2) /\
  map fst (summed x1 x2) = map fst x1.
Proof.
  intros Hnd. split.
  - unfold HeteroKmeansClientHelpers.get_sum.
    pose proof (get_sum_loop_spec x2 x1 [] Hnd) as Hs. cbn [app] in Hs.
    rewrite Hs.
    destruct (HeteroKmeansClientHelpers.has_all eqb x1 x2); reflexivity.
  - clear Hnd. induction x1 as [|[k a] x1 IH]; cbn; [reflexivity|].
    destruct (HeteroKmeansClientHelpers.lookup eqb x2 k); cbn;
      [rewrite IH|]; reflexivity.
Qed.

End GetSum.

(** Two centroids of two integer coordinates each. *)
Lemma tol_cal_of_two_centroids :
  tol_cal 0%Z Z.add (fun a b => ((a - b) ^ 2)%Z)
          [[1; 2]; [3; 4]]%Z [[0; 0]; [1; 1]]%Z =
  Ok (fold_left Z.add
        (squared_differences 0%Z (fun a b => ((a - b) ^ 2)%Z) 2 2
                             [[1; 2]; [3; 4]]%Z [[0; 0]; [1; 1]]%Z)
        0%Z) /\
  fold_left Z.add
    (squared_differences 0%Z (fun a b => ((a - b) ^ 2)%Z) 2 2
                         [[1; 2]; [3; 4]]%Z [[0; 0]; [1; 1]]%Z)
    0%Z = 18%Z.
Proof.
  split; [|reflexivity].
  apply (tol_cal_sums_the_squared_differences
           Z 0%Z Z.add (fun a b => ((a - b) ^ 2)%Z)
           [[1; 2]; [3; 4]]%Z [[0; 0]; [1; 1]]%Z [3; 4]%Z eq_refl).
  right. intros i Hi.
  destruct i as [|[|i]]; [| |cbn in Hi; lia].
  all: split; eexists; (split; [reflexivity | cbn; lia]).
Defined.

(** A dict of two keys summed with a dict that holds both and a third;
    and with a dict that lacks the second. *)
Lemma get_sum_of_two_keys :
  (get_sum Nat.eqb Nat.add [(1, 10); (2, 20)] [(2, 5); (1, 7); (3, 9)] =
     (if has_all Nat.eqb [(1, 10); (2, 20)] [(2, 5); (1, 7); (3, 9)]
      then Ok (summed Nat.eqb Nat.add [(1, 10); (2, 20)]
                      [(2, 5); (1, 7); (3, 9)])
      else Raise KeyError,
      summed Nat.eqb Nat.add [(1, 10); (2, 20)] [(2, 5); (1, 7); (3, 9)]) /\
   map fst (summed Nat.eqb Nat.add [(1, 10); (2, 20)]
                   [(2, 5); (1, 7); (3, 9)]) =
     map fst [(1, 10); (2, 20)]) /\
  get_sum Nat.eqb Nat.add [(1, 10); (2, 20)] [(2, 5); (1, 7); (3, 9)] =
    (Ok [(1, 17); (2, 25)], [(1, 17); (2, 25)]) /\
  get_sum Nat.eqb Nat.add [(1, 10); (2, 20)] [(1, 7)] =
    (Raise KeyError, [(1, 17); (2, 20)]).
Proof.
  split; [|split; reflexivity].
  apply (get_sum_adds_key_by_key nat nat Nat.eqb Nat.add Nat.eqb_eq).
  repeat constructor; cbn; intuition discriminate.
Defined.

End HelpersFacts.

(** ** The class mapping of [check_label] *)

Module ClassMappingFacts.

Import HeteroBoosting ClassMapping BoostingRounds.

Lemma dict_set_fresh (d : Dict) k v :
  Forall (fun kv => py_eq (fst kv) k = false) d ->
  dict_set d k v = d ++ [(k, v)].
Proof.
  induction d as [|[k' v'] d IH]; cbn; intros Hf; [reflexivity|].
  inversion Hf as [|x l Hx Hl]; subst. cbn in Hx. rewrite Hx.
  rewrite IH by exact Hl. reflexivity.
Qed.

Lemma dict_fold_distinct (pairs : Dict) : forall acc : Dict,
  ForallOrdPairs (fun a b => py_eq a b = false) (map fst (acc ++ pairs)) ->
  fold_left (fun d kv => dict_set d (fst kv) (snd kv)) pairs acc = acc ++ pairs.
Proof.
  induction pairs as [|[k v] pairs IH]; intros acc Hd; cbn.
  - rewrite app_nil_r. reflexivity.
  - assert (Hf : Forall (fun kv => py_eq (fst kv) k = false) acc).
    { clear IH. induction acc as [|[k' v'] acc IHa]; [constructor|].
      cbn in Hd. inversion Hd as [|x l Hx Hl]; subst.
      constructor.
      - cbn. rewrite Forall_forall in Hx. apply Hx.
        rewrite map_app. apply in_or_app. right. left. reflexivity.
      - apply IHa. exact Hl. }
    rewrite (dict_set_fresh acc k v Hf).
    rewrite IH; rewrite <- app_assoc; [reflexivity | exact Hd].
Qed.

(** With distinct keys, [dict(zip(...))] is the list of pairs. *)
Lemma dict_distinct (pairs : Dict) :
  ForallOrdPairs (fun a b => py_eq a b = false) (map fst pairs) ->
  dict pairs = pairs.
Proof. intros Hd. unfold dict. apply (dict_fold_distinct pairs []). exact Hd. Qed.

Lemma fst_zip_seq (cs : list Label) : forall a m,
  List.length cs <= m -> map fst (zip cs (seq a m)) = cs.
Proof.
  induction cs as [|c cs IH]; intros a [|m] Hl; cbn in *; try reflexivity; try lia.
  unfold zip in IH. rewrite IH by lia. reflexivity.
Qed.

Lemma getitem_zip_seq cs c : forall a m,
  List.length cs <= m ->
  getitem (zip cs (seq a m)) c =
  match position cs c with
  | Some i => Ok (a + i)
  | None => Raise KeyError
  end.
Proof.
  induction cs as [|k cs IH]; intros a [|m] Hl; cbn in *; try reflexivity; try lia.
  destruct (py_eq k c); [rewrite Nat.add_0_r; reflexivity|].
  unfold zip in IH. rewrite IH by lia.
  destruct (position cs c) as [i|]; cbn; [|reflexivity].
  rewrite Nat.add_succ_r. reflexivity.
Qed.

(** Insert, then look up: the mapping built from distinct classes sends a
    label to the place of its class, and knows no other label. *)
Lemma class_mapping_lookup cs m c :
  distinct cs -> List.length cs <= m ->
  getitem (dict (zip cs (range m))) c =
  match position cs c with
  | Some i => Ok i
  | None => Raise KeyError
  end.
Proof.
  intros Hd Hl. unfold range. rewrite dict_distinct.
  - rewrite getitem_zip_seq by exact Hl. reflexivity.
  - rewrite fst_zip_seq by exact Hl. exact Hd.
Qed.

Lemma remap_places cs (t : DTable Label) :
  (forall kv, In kv t -> position cs (snd kv) <> None) ->
  exists labels,
    mapValues_r (remapped cs) t = Ok labels /\ Forall2 (placed cs) t labels.
Proof.
  induction t as [|[k v] t IH]; intros Hin.
  - exists []. split; [reflexivity | constructor].
  - destruct IH as (labels & Hm & Hf).
    { intros kv Hkv. apply Hin. right. exact Hkv. }
    destruct (position cs v) as [i|] eqn:E.
    + exists ((k, LInt (Z.of_nat i)) :: labels). split.
      * cbn. unfold remapped at 1. rewrite E, Hm. reflexivity.
      * constructor; [|exact Hf]. split; [reflexivity|].
        exists i. split; [exact E | reflexivity].
    + exfalso. apply (Hin (k, v)); [left; reflexivity | exact E].
Qed.

Lemma remap_of_unknown_label cs (t : DTable Label) kv :
  In kv t -> position cs (snd kv) = None ->
  mapValues_r (remapped cs) t = Raise KeyError.
Proof.
  induction t as [|[k v] t IH]; intros Hin Hnone; [contradiction|]. cbn.
  destruct (remapped cs v) as [w|e] eqn:E.
  - destruct Hin as [<- | Hin].
    + unfold remapped in E. cbn in Hnone. rewrite Hnone in E. discriminate.
    + rewrite (IH Hin Hnone). reflexivity.
  - unfold remapped in E. destruct (position cs v); inversion E. reflexivity.
Qed.

Section Refit.

Context `{Collaborators}.

(** X24.  [check_label] on an object whose attributes hold distinct
    classes and a class count not below their number, when the classes the
    label checker returns are not ints of a range from zero and sort
    without error: if every label of [y] equals one of the held classes,
    each label is replaced by the place of its class, and the sorted
    classes, their count and the booster dimension are returned; if a label
    equals none of them, [KeyError] is raised and [y] stays as it was. *)
Theorem check_label_remaps_labels_to_the_places_of_the_held_classes
        s c n cs cs' :
  task_type s = CLASSIFICATION ->
  classify_validate_label (data_bin s) s = (Ok (n, cs), c) ->
  forallb (int_below (List.length cs)) cs = false ->
  sorted cs = Ok cs' ->
  distinct (classes_ s) ->
  List.length (classes_ s) <= num_classes s ->
  ((forall kv, In kv (y s) -> position (classes_ s) (snd kv) <> None) ->
   exists labels,
     Forall2 (placed (classes_ s)) (y s) labels /\
     check_label s =
       (Ok (cs', n, if 2 <? n then n else 1), set_y labels (set_ctx c s))) /\
  ((exists kv, In kv (y s) /\ position (classes_ s) (snd kv) = None) ->
   check_label s = (Raise KeyError, set_ctx c s)).
Proof.
  intros Ht Hv Hall Hs Hd Hl.
  assert (Hcl := BoostingFacts.check_label_remaps_through_the_attributes
                   s c n cs cs' Ht Hv).
  rewrite BoostingFacts.range_from_zero_loop_spec in Hcl.
  specialize (Hcl Hall Hs).
  assert (Hf : forall t,
             mapValues_r
               (fun _class =>
                  match getitem (dict (zip (classes_ s) (range (num_classes s))))
                                _class with
                  | Ok i => Ok (LInt (Z.of_nat i))
                  | Raise e => Raise e
                  end) t =
             mapValues_r (remapped (classes_ s)) t).
  { induction t as [|[k v] t IH]; cbn; [reflexivity|].
    rewrite IH, (class_mapping_lookup _ _ v Hd Hl). unfold remapped.
    destruct (position (classes_ s) v); reflexivity. }
  rewrite Hf in Hcl. split.
  - intros Hin. destruct (remap_places _ _ Hin) as (labels & Hm & Hp).
    exists labels. split; [exact Hp|]. rewrite Hcl, Hm. reflexivity.
  - intros (kv & Hin & Hnone). rewrite Hcl.
    rewrite (remap_of_unknown_label _ _ _ Hin Hnone). reflexivity.
Qed.

End Refit.

Import Scenario.Boosting ClassMappingCases.

(** A second [fit], on the labels {1, 2}, of the guest fitted on
    {0, 1, 2}: the labels keep their values, the places of 1 and 2 among
    the classes held. *)
Lemma labels_of_a_refit_are_remapped :
  fst three_class_fit = Ok tt /\
  classes_ refit_loaded = [LInt 0; LInt 1; LInt 2] /\
  exists labels,
    Forall2 (placed (classes_ refit_loaded)) (y refit_loaded) labels /\
    check_label refit_loaded =
      (Ok ([LInt 1; LInt 2], 2, if 2 <? 2 then 2 else 1),
       set_y labels (set_ctx tt refit_loaded)).
Proof.
  split; [reflexivity|]. split; [reflexivity|].
  apply (proj1 (@check_label_remaps_labels_to_the_places_of_the_held_classes
                  _ demo refit_loaded tt 2 [LInt 1; LInt 2] [LInt 1; LInt 2]
                  eq_refl eq_refl eq_refl eq_refl
                  ltac:(repeat constructor) ltac:(cbn; lia))).
  intros kv Hin. cbn in Hin.
  destruct Hin as [<- | [<- | [<- | []]]]; cbn; discriminate.
Defined.

End ClassMappingFacts.

(** ** The tags of the decentralized FTL guest *)

Module DctTagsFacts.

Import HeteroFTLGuest FTLTrace DctTags.

Section Facts.

Context `{Collaborators}.

Lemma tags_app T1 T2 : tags (T1 ++ T2) = tags T1 ++ tags T2.
Proof.
  induction T1 as [|e T1 IH]; cbn; [reflexivity|].
  destruct e; cbn; rewrite IH; reflexivity.
Qed.

Lemma uses_app name T1 T2 :
  uses name (T1 ++ T2) = uses name T1 ++ uses name T2.
Proof.
  induction T1 as [|e T1 IH]; cbn; [reflexivity|].
  destruct e; cbn; rewrite IH; try reflexivity;
    destruct (name_eq_dec _ _); reflexivity.
Qed.

Lemma local_events_tags li n g grads loss_ hg dg dec_hg dl :
  Forall (eq (Some n))
         (tags (local_events li n g grads loss_ hg dg dec_hg dl)).
Proof. unfold local_events. destruct (li =? 0); cbn; repeat constructor. Qed.

Lemma local_events_uses name li n g grads loss_ hg dg dec_hg dl :
  In name gradient_variables ->
  uses name (local_events li n g grads loss_ hg dg dec_hg dl) = [Some n].
Proof.
  unfold local_events.
  intros [<- | [<- | [<- | [<- | []]]]]; destruct (li =? 0); reflexivity.
Qed.

(** The local iterations of one round: every message under the number of
    the round, each gradient variable once in each. *)
Lemma local_loop_tags iters : forall loss s l s',
  local_loop iters loss s = (Ok l, s') ->
  exists T,
    trace s' = trace s ++ T /\
    Forall (eq (Some (n_iter_ s))) (tags T) /\
    (forall name, In name gradient_variables ->
                  uses name T = repeat (Some (n_iter_ s)) (List.length iters)) /\
    n_iter_ s' = n_iter_ s /\ local_iterations s' = local_iterations s.
Proof.
  induction iters as [|li iters IH]; intros loss s l s' Hr.
  - inversion Hr; subst. exists []. rewrite app_nil_r.
    repeat split; auto.
  - cbn [local_loop] in Hr. unfold bind in Hr.
    destruct (local_iteration li loss s) as [[l1|ex] s1] eqn:E1; [|discriminate].
    apply FTLFacts.local_iteration_events in E1.
    destruct E1 as (grads & loss_ & hg & dg & dec_hg & dl & Ht & _ & _ & Hn & _ & Hb).
    apply IH in Hr. destruct Hr as (T & Ht' & Hall & Hu & Hn' & Hb').
    eexists. split; [rewrite Ht', Ht, <- app_assoc; reflexivity|].
    rewrite Hn in *. repeat split; try congruence.
    + rewrite tags_app. apply Forall_app. split; [|exact Hall].
      apply local_events_tags.
    + intros name Hin.
      rewrite uses_app, (local_events_uses name), (Hu name Hin) by exact Hin.
      reflexivity.
Qed.

(** X25.  A round of the decentralized guest that returns: every message
    it sends or reads carries the number of the round as its tag, the
    number of the local iteration being no part of it; so each of the
    four gradient variables is used [local_iterations] times under one
    and the same tag. *)
Theorem dct_round_tags_every_message_with_the_round_number is_stop s b s' :
  fit_round is_stop s = (Ok b, s') ->
  exists T,
    trace s' = trace s ++ T /\
    Forall (eq (Some (n_iter_ s))) (tags T) /\
    forall name, In name gradient_variables ->
                 uses name T = repeat (Some (n_iter_ s)) (local_iterations s).
Proof.
  unfold fit_round. intros Hr. run_ftl Hr.
  all: inversion Hr; subst; clear Hr.
  all: match goal with
       | E : local_loop _ _ _ = _ |- _ =>
           apply local_loop_tags in E;
           destruct E as (T & Ht & Hall & Hu & Hn & Hb)
       end.
  all: unfold range in Hu; rewrite length_seq in Hu.
  all: cbn in Ht, Hall, Hu, Hn, Hb; cbn; rewrite Ht, <- ?app_assoc; cbn.
  all: eexists; split; [reflexivity|].
  all: rewrite Hn.
  all: split;
    [ repeat (constructor; [reflexivity|]);
      rewrite tags_app; apply Forall_app; split; [exact Hall|];
      cbn; repeat constructor
    | intros name Hin; pose proof (Hu name Hin) as Hun;
      destruct Hin as [<- | [<- | [<- | [<- | []]]]];
      cbn; rewrite uses_app, Hun; cbn; rewrite app_nil_r; reflexivity ].
Qed.

End Facts.

Import DctTagCases.

(** Two local iterations in round 0. *)
Lemma two_local_iterations_share_the_tag :
  exists T,
    trace (snd round) = trace two_local_iterations ++ T /\
    Forall (eq (Some (n_iter_ two_local_iterations))) (tags T) /\
    forall name, In name gradient_variables ->
                 uses name T =
                 repeat (Some (n_iter_ two_local_iterations))
                        (local_iterations two_local_iterations).
Proof.
  apply (@dct_round_tags_every_message_with_the_round_number
           DctCases.demo false two_local_iterations false (snd round)).
  reflexivity.
Defined.

End DctTagsFacts.
